(** * ai-contract-checker: the contract-analysis core

    A shallow embedding of [backend/app/core/processor.py] and
    [backend/app/core/analyzer.py].

    Python strings are sequences of Unicode code points and are modelled as
    lists of [N].  What the interpreter's Unicode database computes
    ([unicodedata.normalize], [unicodedata.category], [str.lower]) is an
    interface, [UnicodeData]; the program is embedded over any instance of it,
    and an instance built from an excerpt of the database is given for
    evaluation on concrete texts. *)

From Stdlib Require Import NArith ZArith QArith Ascii String List Bool Lia.
From stdpp Require Import base option list gmap.

(** ** Python strings *)

Abbreviation str := (list N).

Module PyStr.

(** A string literal of the source, as code points (ASCII only). *)
Definition py (s : string) : str :=
  List.map N_of_ascii (list_ascii_of_string s).

Definition SP : N := 32.
Definition LF : N := 10.
Definition CR : N := 13.
Definition TAB : N := 9.
Definition DQUOTE : N := 34.
Definition SQUOTE : N := 39.

Definition eqc (a b : N) : bool := N.eqb a b.
#[global] Arguments eqc : simpl never.

Definition head_is (c : N) (s : str) : bool :=
  match s with
  | x :: _ => eqc x c
  | [] => false
  end.

Fixpoint str_eqb (a b : str) : bool :=
  match a, b with
  | [], [] => true
  | x :: a', y :: b' => eqc x y && str_eqb a' b'
  | _, _ => false
  end.

(** [str.isspace] on one code point: the code points the interpreter treats
    as whitespace (bidirectional class WS, B or S, or category Zs). *)
Definition isspace (c : N) : bool :=
  ((9 <=? c) && (c <=? 13) || (28 <=? c) && (c <=? 32) || eqc c 133
   || eqc c 160 || eqc c 5760 || (8192 <=? c) && (c <=? 8202)
   || eqc c 8232 || eqc c 8233 || eqc c 8239 || eqc c 8287
   || eqc c 12288)%N.

(** [s.lstrip()], [s.rstrip()], [s.strip()] *)
Fixpoint lstrip (s : str) : str :=
  match s with
  | c :: t => if isspace c then lstrip t else s
  | [] => []
  end.

Fixpoint rstrip (s : str) : str :=
  match s with
  | c :: t =>
      match rstrip t with
      | [] => if isspace c then [] else [c]
      | r => c :: r
      end
  | [] => []
  end.

Definition strip (s : str) : str := rstrip (lstrip s).

(** [s.startswith(p)] *)
Fixpoint startswith (p s : str) : bool :=
  match p, s with
  | [], _ => true
  | x :: p', y :: s' => eqc x y && startswith p' s'
  | _ :: _, [] => false
  end.

(** [sub in s] *)
Fixpoint contains (sub s : str) : bool :=
  startswith sub s ||
  match s with
  | _ :: t => contains sub t
  | [] => false
  end.

(** [s.find(sub)]: the lowest index where [sub] starts, [None] for -1. *)
Fixpoint find (sub s : str) : option nat :=
  if startswith sub s then Some 0
  else match s with
       | _ :: t => S <$> find sub t
       | [] => None
       end.

(** [s.rfind(sub)]: the highest index where [sub] starts, [None] for -1. *)
Fixpoint rfind (sub s : str) : option nat :=
  match s with
  | _ :: t =>
      match rfind sub t with
      | Some i => Some (S i)
      | None => if startswith sub s then Some 0 else None
      end
  | [] => if startswith sub s then Some 0 else None
  end.

(** [s[a:b]] for indices [0 <= a], [0 <= b]. *)
Definition slice (a b : nat) (s : str) : str := take (b - a) (drop a s).

(** [sep.join(parts)] *)
Fixpoint join (sep : str) (parts : list str) : str :=
  match parts with
  | [] => []
  | [p] => p
  | p :: rest => p ++ sep ++ join sep rest
  end.

(** [s.split(sep)] for a non-empty separator: the pieces between the
    non-overlapping occurrences of [sep], found from the left.  [skip] counts
    the code points of a separator occurrence still to be passed over and
    [cur] is the piece being read, reversed. *)
Fixpoint split_aux (sep : str) (skip : nat) (cur : str) (s : str) : list str :=
  match s with
  | [] => [rev cur]
  | c :: t =>
      match skip with
      | S k => split_aux sep k cur t
      | O =>
          if startswith sep s
          then rev cur :: split_aux sep (length sep - 1) [] t
          else split_aux sep 0 (c :: cur) t
      end
  end.

Definition split (sep s : str) : list str := split_aux sep 0 [] s.

(** [s.split()]: the maximal runs of non-whitespace code points. *)
Fixpoint split_ws_aux (cur : str) (s : str) : list str :=
  match s with
  | [] => match cur with [] => [] | _ => [rev cur] end
  | c :: t =>
      if isspace c
      then match cur with
           | [] => split_ws_aux [] t
           | _ => rev cur :: split_ws_aux [] t
           end
      else split_ws_aux (c :: cur) t
  end.

Definition split_ws (s : str) : list str := split_ws_aux [] s.

(** [re.split(r'[.!?]+', s)]: the pieces between the maximal runs of
    sentence punctuation. *)
Definition is_stop (c : N) : bool := eqc c 46 || eqc c 33 || eqc c 63.

Fixpoint re_split_stops_aux (cur : str) (s : str) : list str :=
  match s with
  | [] => [rev cur]
  | c :: t =>
      if is_stop c
      then match t with
           | d :: _ =>
               if is_stop d then re_split_stops_aux cur t
               else rev cur :: re_split_stops_aux [] t
           | [] => rev cur :: re_split_stops_aux [] t
           end
      else re_split_stops_aux (c :: cur) t
  end.

Definition re_split_stops (s : str) : list str := re_split_stops_aux [] s.

(** Decimal rendering of an integer, as an f-string does it. *)
Definition digit_char (d : N) : N := (48 + d)%N.

Fixpoint digits_aux (fuel : nat) (n : N) (acc : str) : str :=
  match fuel with
  | O => acc
  | S f =>
      let acc' := digit_char (n mod 10) :: acc in
      if (n <? 10)%N then acc' else digits_aux f (n / 10)%N acc'
  end.

Definition str_of_N (n : N) : str := digits_aux (S (N.to_nat (N.log2 n))) n [].

Definition str_of_Z (z : Z) : str :=
  match z with
  | Zneg p => 45%N :: str_of_N (Npos p)
  | _ => str_of_N (Z.to_N z)
  end.

End PyStr.
Export PyStr.

(** ** The interpreter's Unicode database *)

(** [nfkc s] is [unicodedata.normalize('NFKC', s)], [category_C c] tells
    whether [unicodedata.category(c)] starts with [C], and [lower s] is
    [s.lower()]. *)
Class UnicodeData := {
  nfkc : str -> str;
  category_C : N -> bool;
  lower : str -> str
}.

(** An instance computed from an excerpt of the Unicode Character Database:
    the entries of ASCII, of U+00A0, U+00AD, U+0301, U+200B..U+200F, U+201A,
    U+201E, U+2028, U+FEFF and of the letters with a canonical decomposition
    into an ASCII letter and U+0301.  On texts over these code points it
    computes what the interpreter computes. *)
Module UcdExcerpt.

(** Precomposed letter, base letter: canonical decomposition [base U+0301]. *)
Definition acute_table : list (N * N) :=
  [(193, 65); (201, 69); (205, 73); (211, 79); (218, 85); (221, 89);
   (225, 97); (233, 101); (237, 105); (243, 111); (250, 117); (253, 121);
   (262, 67); (263, 99); (313, 76); (314, 108); (323, 78); (324, 110);
   (340, 82); (341, 114); (346, 83); (347, 115); (377, 90); (378, 122);
   (500, 71); (501, 103); (7728, 75); (7729, 107); (7742, 77); (7743, 109);
   (7764, 80); (7765, 112); (7810, 87); (7811, 119)]%N.

Definition ACUTE : N := 769.

Fixpoint assoc (k : N) (t : list (N * N)) : option N :=
  match t with
  | (a, b) :: r => if eqc a k then Some b else assoc k r
  | [] => None
  end.

Fixpoint rassoc (k : N) (t : list (N * N)) : option N :=
  match t with
  | (a, b) :: r => if eqc b k then Some a else rassoc k r
  | [] => None
  end.

(** Decomposition mapping (canonical and compatibility) of one code point. *)
Definition decomposition (c : N) : option str :=
  if eqc c 160 then Some [SP]
  else match assoc c acute_table with
       | Some b => Some [b; ACUTE]
       | None => None
       end.

(** Canonical combining class. *)
Definition combining (c : N) : N := if eqc c ACUTE then 230%N else 0%N.

(** Primary composite of a pair. *)
Definition primary_composite (a b : N) : option N :=
  if eqc b ACUTE then rassoc a acute_table else None.

Fixpoint decompose_cp (fuel : nat) (c : N) : str :=
  match fuel with
  | O => [c]
  | S f =>
      match decomposition c with
      | Some l => flat_map (decompose_cp f) l
      | None => [c]
      end
  end.

Definition decompose (s : str) : str := flat_map (decompose_cp 18) s.

(** Canonical ordering: a mark moves left past the marks of a greater
    combining class.  The prefix is kept reversed. *)
Fixpoint insert_mark (c : N) (racc : str) : str :=
  match racc with
  | x :: r =>
      if (combining c <? combining x)%N then x :: insert_mark c r
      else c :: racc
  | [] => [c]
  end.

Definition reorder (s : str) : str :=
  rev (fold_left
         (fun racc c =>
            if (combining c =? 0)%N then c :: racc else insert_mark c racc)
         s []).

(** Canonical composition.  [done] is the finished prefix (reversed), [st] the
    last starter and [marks] the marks after it that did not compose
    (reversed). *)
Fixpoint compose_aux (done : str) (st : option N) (marks : str) (s : str) : str :=
  match s with
  | [] =>
      match st with
      | Some x => rev (marks ++ x :: done)
      | None => rev (marks ++ done)
      end
  | c :: t =>
      let unblocked :=
        match marks with
        | [] => true
        | m :: _ => (0 <? combining c)%N && (combining m <? combining c)%N
        end in
      let composed :=
        match st with
        | Some x => if unblocked then primary_composite x c else None
        | None => None
        end in
      match composed with
      | Some p => compose_aux done (Some p) marks t
      | None =>
          if (combining c =? 0)%N
          then match st with
               | Some x => compose_aux (marks ++ x :: done) (Some c) [] t
               | None => compose_aux (marks ++ done) (Some c) [] t
               end
          else compose_aux done st (c :: marks) t
      end
  end.

Definition compose (s : str) : str := compose_aux [] None [] s.

Definition nfkc_excerpt (s : str) : str := compose (reorder (decompose s)).

(** Categories Cc and Cf. *)
Definition category_C_excerpt (c : N) : bool :=
  ((c <? 32) || (127 <=? c) && (c <=? 159) || eqc c 173
   || (8203 <=? c) && (c <=? 8207) || eqc c 65279)%N.

Definition lower_cp (c : N) : N :=
  if ((65 <=? c) && (c <=? 90))%N then (c + 32)%N
  else match assoc c acute_table with
       | Some b =>
           if ((65 <=? b) && (b <=? 90))%N
           then match rassoc (b + 32)%N acute_table with
                | Some l => l
                | None => c
                end
           else c
       | None => c
       end.

Definition lower_excerpt (s : str) : str := List.map lower_cp s.

Definition ucd : UnicodeData :=
  {| nfkc := nfkc_excerpt; category_C := category_C_excerpt; lower := lower_excerpt |}.

End UcdExcerpt.

(** ** processor.py: TextNormalizer *)

Module TextNormalizer.
Section WithUnicode.
Context {U : UnicodeData}.

(** [unicodedata.category(c)[0] != 'C' or c in '\n\r\t'] *)
Definition keep (c : N) : bool :=
  negb (category_C c) || eqc c LF || eqc c CR || eqc c TAB.

Definition strip_control (s : str) : str := List.filter keep s.

(** [re.sub(r' {2,}', ' ', text)]: every maximal run of two or more spaces
    becomes one space (all spaces of the run but the last are dropped). *)
Fixpoint collapse_spaces (s : str) : str :=
  match s with
  | c :: t =>
      if eqc c SP && head_is SP t then collapse_spaces t
      else c :: collapse_spaces t
  | [] => []
  end.

(** [text.replace('\r\n', '\n')]: a carriage return before a line feed is
    dropped. *)
Fixpoint crlf_to_lf (s : str) : str :=
  match s with
  | c :: t =>
      if eqc c CR && head_is LF t then crlf_to_lf t
      else c :: crlf_to_lf t
  | [] => []
  end.

(** [text.replace('\r', '\n')] *)
Definition cr_to_lf (s : str) : str :=
  List.map (fun c => if eqc c CR then LF else c) s.

(** [s] is a (possibly empty) run of spaces followed by a line feed. *)
Fixpoint spaces_then_lf (s : str) : bool :=
  match s with
  | c :: t => if eqc c SP then spaces_then_lf t else eqc c LF
  | [] => false
  end.

(** [re.sub(r' +\n', '\n', text)]: a space is dropped when only spaces
    separate it from the next line feed. *)
Fixpoint strip_trailing_spaces (s : str) : str :=
  match s with
  | c :: t =>
      if eqc c SP && spaces_then_lf t then strip_trailing_spaces t
      else c :: strip_trailing_spaces t
  | [] => []
  end.

(** [re.sub(r'\n{3,}', '\n\n', text)]: of a run of three or more line feeds
    the last two are kept. *)
Fixpoint collapse_newlines (s : str) : str :=
  match s with
  | c :: t =>
      if eqc c LF && head_is LF t && head_is LF (tail t)
      then collapse_newlines t
      else c :: collapse_newlines t
  | [] => []
  end.

(** The two quote substitutions.  The first pattern of the source is the
    concatenation of the literals [r'['] and ['‚]'], the class of U+201A
    alone; the second is the class of the straight double quote and
    U+201E. *)
Definition LOW9 : N := 8218.
Definition LOW99 : N := 8222.

Definition fix_single (c : N) : N := if eqc c LOW9 then SQUOTE else c.
Definition fix_double (c : N) : N :=
  if eqc c DQUOTE || eqc c LOW99 then DQUOTE else c.

Definition fix_quotes (s : str) : str :=
  List.map fix_double (List.map fix_single s).

Definition normalize (text : str) : str :=
  match text with
  | [] => []
  | _ =>
      let text := nfkc text in
      let text := strip_control text in
      let text := collapse_spaces text in
      let text := cr_to_lf (crlf_to_lf text) in
      let text := strip_trailing_spaces text in
      let text := collapse_newlines text in
      let text := fix_quotes text in
      strip text
  end.

End WithUnicode.
End TextNormalizer.

(** The shape of a normalized text: what the substitutions of
    [TextNormalizer.normalize] leave nothing of. *)
Module NormalForm.
Import TextNormalizer.

Definition two_lf (s : str) : bool := head_is LF s && head_is LF (tail s).

Fixpoint has_double_space (s : str) : bool :=
  match s with
  | c :: t => eqc c SP && head_is SP t || has_double_space t
  | [] => false
  end.

Fixpoint has_trailing_space (s : str) : bool :=
  match s with
  | c :: t => eqc c SP && spaces_then_lf t || has_trailing_space t
  | [] => false
  end.

Fixpoint has_triple_lf (s : str) : bool :=
  match s with
  | c :: t => eqc c LF && head_is LF t && head_is LF (tail t) || has_triple_lf t
  | [] => false
  end.

Definition no_cr (c : N) : Prop := c <> CR.
Definition no_low_quote (c : N) : Prop := c <> LOW9 /\ c <> LOW99.

Section WithUnicode.
Context {U : UnicodeData}.

Record normal (s : str) : Prop := {
  normal_keep : Forall (fun c => keep c = true) s;
  normal_spaces : has_double_space s = false;
  normal_cr : Forall no_cr s;
  normal_trailing : has_trailing_space s = false;
  normal_lf : has_triple_lf s = false;
  normal_quotes : Forall no_low_quote s;
  normal_strip : strip s = s
}.

End WithUnicode.

End NormalForm.

(** ** Exceptions and results *)

Module PyExn.

(** The exception classes the code raises or lets through.  [Exception_] is
    the base class [Exception] itself; [JSONDecodeError] is
    [json.JSONDecodeError], which the code catches by that name (the plain
    [ValueError] that [json.loads] may raise as well is not one);
    [LibraryError name] is any other subclass of [Exception], raised inside a
    library (pypdf, python-docx, the OpenAI client). *)
Inductive exn_class :=
  | FileNotFoundError
  | ValueError
  | Exception_
  | RuntimeError
  | AttributeError
  | TypeError
  | ZeroDivisionError
  | KeyError
  | RecursionError
  | JSONDecodeError
  | LibraryError (name : string).

(** An exception: its class, its message ([str(e)]) and the exception that
    was being handled when it was raised ([__context__]). *)
Inductive exn :=
  | Exn (cls : exn_class) (msg : str)
  | ExnIn (cls : exn_class) (msg : str) (context : exn).

Definition exn_cls (e : exn) : exn_class :=
  match e with Exn c _ | ExnIn c _ _ => c end.
Definition exn_msg (e : exn) : str :=
  match e with Exn _ m | ExnIn _ m _ => m end.
Definition exn_context (e : exn) : option exn :=
  match e with Exn _ _ => None | ExnIn _ _ c => Some c end.

Inductive result (A : Type) :=
  | Ok (a : A)
  | Raise (e : exn).
Arguments Ok {A} a.
Arguments Raise {A} e.

#[global] Instance result_ret : MRet result := fun A a => Ok a.
#[global] Instance result_bind : MBind result := fun A B f m =>
  match m with
  | Ok a => f a
  | Raise e => Raise e
  end.

(** [try: body except Exception as e: raise cls(prefix + str(e))] *)
Definition reraise {A} (cls : exn_class) (prefix : str) (body : result A) : result A :=
  match body with
  | Ok a => Ok a
  | Raise e => Raise (ExnIn cls (prefix ++ exn_msg e) e)
  end.

Definition nonempty {A} (l : list A) : bool :=
  match l with [] => false | _ => true end.

End PyExn.
Export PyExn.

(** ** processor.py: ContractProcessor *)

Module Processor.
Import TextNormalizer.

Record ContractProcessor := {
  supported_formats : list str;
  normalize_text : bool
}.

(** [ContractProcessor.__init__] *)
Definition init (normalize_text : bool) : ContractProcessor :=
  {| supported_formats := [py ".pdf"; py ".docx"; py ".doc"];
     normalize_text := normalize_text |}.

Definition mem (x : str) (l : list str) : bool := existsb (str_eqb x) l.

(** [validate_contract_text]'s result dictionary; [found_keywords] is set
    only on the valid path. *)
Record validation := {
  is_valid : bool;
  length_ok : bool;
  has_contract_keywords : bool;
  issues : list str;
  found_keywords : option (list str)
}.

Definition contract_keywords : list str :=
  [py "agreement"; py "contract"; py "party"; py "parties";
   py "terms"; py "conditions"; py "hereby"; py "whereas";
   py "signed"; py "effective"; py "termination"].

(** An average of [get_text_stats]: the integer [0], or
    [round(num / den, 1)] computed in floating point (the quotient is kept
    symbolic). *)
Inductive average :=
  | AvgZero
  | AvgRound1 (num den : nat).

(** [a / b] *)
Definition truediv (a b : nat) : result (nat * nat) :=
  match b with
  | O => Raise (Exn ZeroDivisionError (py "division by zero"))
  | _ => Ok (a, b)
  end.

Record text_stats := {
  characters : nat;
  words : nat;
  sentences : nat;
  paragraphs : nat;
  avg_word_length : average;
  avg_sentence_length : average
}.

Section WithWorld.
Context {U : UnicodeData}.

(** The file system and the format libraries: [os.path.exists],
    [Path(p).suffix], the texts [page.extract_text()] gives for the pages of
    [PdfReader(p)], and the paragraph texts of [docx.Document(p)]. *)
Variable path_exists : str -> bool.
Variable path_suffix : str -> str.
Variable pdf_pages : str -> result (list (result str)).
Variable docx_paragraphs : str -> result (list str).

(** The page loop of [_extract_from_pdf]. *)
Fixpoint pdf_loop (pages : list (result str)) (text : str) : result str :=
  match pages with
  | [] => Ok text
  | page :: rest =>
      page_text ← page;
      if nonempty page_text then pdf_loop rest (text ++ page_text ++ [LF])
      else pdf_loop rest text
  end.

Definition _extract_from_pdf (file_path : str) : result str :=
  reraise Exception_ (py "PDF extraction failed: ")
    (pages ← pdf_pages file_path;
     text ← pdf_loop pages [];
     if nonempty (strip text) then Ok text else Ok []).

Definition _extract_from_docx (file_path : str) : result str :=
  reraise Exception_ (py "DOCX extraction failed: ")
    (paragraphs ← docx_paragraphs file_path;
     let text := List.filter (fun p => nonempty (strip p)) paragraphs in
     let full_text := join [LF] text in
     if nonempty (strip full_text) then Ok full_text else Ok []).

Definition extract_text (self : ContractProcessor) (file_path : str) (clean : bool)
  : result str :=
  if negb (path_exists file_path)
  then Raise (Exn FileNotFoundError (py "File not found: " ++ file_path))
  else
    let file_extension := lower (path_suffix file_path) in
    if negb (mem file_extension (supported_formats self))
    then Raise (Exn ValueError (py "Unsupported file format: " ++ file_extension))
    else
      text ← (if str_eqb file_extension (py ".pdf")
              then _extract_from_pdf file_path
              else if mem file_extension [py ".docx"; py ".doc"]
              then _extract_from_docx file_path
              else Raise (Exn ValueError
                            (py "Handler not implemented for: " ++ file_extension)));
      if clean && normalize_text self
      then Ok (normalize text)
      else Ok text.

End WithWorld.

Section WithUnicode.
Context {U : UnicodeData}.

Definition validate_contract_text (text : str) (min_length : Z) : validation :=
  if (Z.of_nat (length text) <? min_length)%Z
  then {| is_valid := false; length_ok := false; has_contract_keywords := false;
          issues := [py "Text too short (" ++ str_of_Z (Z.of_nat (length text))
                     ++ py " chars, need " ++ str_of_Z min_length ++ py ")"];
          found_keywords := None |}
  else
    let text_lower := lower text in
    let found := List.filter (fun kw => contains kw text_lower) contract_keywords in
    if (length found <? 2)%nat
    then {| is_valid := false; length_ok := true; has_contract_keywords := false;
            issues := [py "Not enough contract keywords found"];
            found_keywords := None |}
    else {| is_valid := true; length_ok := true; has_contract_keywords := true;
            issues := []; found_keywords := Some found |}.

End WithUnicode.

Definition sum_len (ws : list str) : nat := foldr (fun w n => length w + n) 0 ws.

Definition get_text_stats (text : str) : result text_stats :=
  let ws := split_ws text in
  let ss := List.filter (fun s => nonempty (strip s)) (re_split_stops text) in
  let ps := List.filter (fun p => nonempty (strip p)) (split [LF; LF] text) in
  avg_w ← (if nonempty ws
           then q ← truediv (sum_len ws) (length ws); Ok (AvgRound1 q.1 q.2)
           else Ok AvgZero);
  avg_s ← (if nonempty ss
           then q ← truediv (length ws) (length ss); Ok (AvgRound1 q.1 q.2)
           else Ok AvgZero);
  Ok {| characters := length text; words := length ws; sentences := length ss;
        paragraphs := length ps; avg_word_length := avg_w;
        avg_sentence_length := avg_s |}.

(** [os.path.basename(p)]: what follows the last slash. *)
Definition basename (p : str) : str :=
  match rfind (py "/") p with
  | Some i => drop (S i) p
  | None => p
  end.

(** The dictionary [get_file_info] returns.  [size_mb] is
    [round(size_bytes / (1024 * 1024), 2)], computed in floating point: the
    quotient is kept symbolic, as its numerator and denominator. *)
Record file_info := {
  filename : str;
  extension : str;
  size_bytes : N;
  size_mb : N * N;
  is_supported : bool
}.

Section WithFiles.
Context {U : UnicodeData}.

(** [os.path.exists], [Path(p).suffix] and [os.stat(p).st_size]. *)
Variable path_exists : str -> bool.
Variable path_suffix : str -> str.
Variable st_size : str -> N.

Definition get_file_info (self : ContractProcessor) (file_path : str) : result file_info :=
  if negb (path_exists file_path)
  then Raise (Exn FileNotFoundError (py "File not found: " ++ file_path))
  else
    let file_extension := lower (path_suffix file_path) in
    Ok {| filename := basename file_path;
          extension := file_extension;
          size_bytes := st_size file_path;
          size_mb := (st_size file_path, (1024 * 1024)%N);
          is_supported := mem file_extension (supported_formats self) |}.

End WithFiles.

End Processor.

(** ** Python values and [json.loads] *)

Module Json.

(** The values [json.loads] builds.  A float is kept as the decimal it was
    read from: [PFloat neg m e] is the float nearest to [(-1)^neg * m * 10^e].
    A dictionary keeps its items in insertion order, each key once. *)
#[warnings="-register-all"]
Inductive pyval :=
  | PNone
  | PBool (b : bool)
  | PInt (z : Z)
  | PFloat (neg : bool) (m : N) (e : Z)
  | PNaN
  | PInf (neg : bool)
  | PStr (s : str)
  | PList (l : list pyval)
  | PDict (d : list (str * pyval)).

(** [d[k] = v] *)
Fixpoint dict_set (k : str) (v : pyval) (d : list (str * pyval)) : list (str * pyval) :=
  match d with
  | [] => [(k, v)]
  | (k', v') :: r =>
      if str_eqb k' k then (k', v) :: r else (k', v') :: dict_set k v r
  end.

(** [d.get(k)] on the items of a dictionary. *)
Fixpoint dict_lookup (k : str) (d : list (str * pyval)) : option pyval :=
  match d with
  | [] => None
  | (k', v) :: r => if str_eqb k' k then Some v else dict_lookup k r
  end.

#[global] Arguments dict_lookup : simpl never.

(** [dict(pairs)] *)
Definition dict_of_pairs (pairs : list (str * pyval)) : list (str * pyval) :=
  fold_left (fun d kv => dict_set kv.1 kv.2 d) pairs [].

(** [bool(v)].  A float is false when it is zero, which a decimal
    [m * 10^e] is when [m = 0] or when it rounds to zero, that is when
    [m * 10^e <= 2^-1075]. *)
Definition float_nonzero (m : N) (e : Z) : bool :=
  ((0 <? m)%N && ((0 <=? e) || (10 ^ (- e) <? Z.of_N m * 2 ^ 1075)))%Z.

Definition truthy (v : pyval) : bool :=
  match v with
  | PNone => false
  | PBool b => b
  | PInt z => negb (z =? 0)%Z
  | PFloat _ m e => float_nonzero m e
  | PNaN | PInf _ => true
  | PStr s => nonempty s
  | PList l => nonempty l
  | PDict d => nonempty d
  end.

(** The result of a scanner: a value and the rest of the input, a decoding
    error ([JSONDecodeError]), another exception raised while decoding, or
    not enough fuel. *)
Inductive parse (A : Type) :=
  | Parsed (a : A) (rest : str)
  | Invalid
  | Failed (e : exn)
  | OutOfFuel.
Arguments Parsed {A} a rest.
Arguments Invalid {A}.
Arguments Failed {A} e.
Arguments OutOfFuel {A}.

(** What the decoder meets of the interpreter it runs in:
    [sys.get_int_max_str_digits()] (4300 unless configured, 0 for no limit),
    the number of arrays and objects that may be open at once before the
    recursion limit is hit, and the text [str(e)] of the [JSONDecodeError]
    that [json.loads] raises on a document it rejects (it names what was
    expected, and where). *)
Class Interpreter := {
  int_max_str_digits : nat;
  recursion_room : nat;
  decode_error_msg : str -> str
}.

(** [int(s)] refuses a literal of more digits than the limit (the limit
    applies to literals of more than 640 digits). *)
Definition int_too_long (limit digits : nat) : bool :=
  (640 <? digits)%nat && ((0 <? limit)%nat && (limit <? digits)%nat).

Definition int_digits_error (limit digits : nat) : exn :=
  Exn ValueError
    (py "Exceeds the limit (" ++ str_of_N (N.of_nat limit)
     ++ py " digits) for integer string conversion: value has "
     ++ str_of_N (N.of_nat digits)
     ++ py " digits; use sys.set_int_max_str_digits() to increase the limit").

Definition recursion_error (what : string) : exn :=
  Exn RecursionError
    (py "maximum recursion depth exceeded while decoding a JSON " ++ py what
     ++ py " from a unicode string").

Definition is_ws (c : N) : bool := eqc c 32 || eqc c 9 || eqc c 10 || eqc c 13.

Fixpoint skip_ws (s : str) : str :=
  match s with
  | c :: t => if is_ws c then skip_ws t else s
  | [] => []
  end.

Definition is_digit (c : N) : bool := ((48 <=? c) && (c <=? 57))%N.

Definition hex_val (c : N) : option N :=
  if ((48 <=? c) && (c <=? 57))%N then Some (c - 48)%N
  else if ((97 <=? c) && (c <=? 102))%N then Some (c - 87)%N
  else if ((65 <=? c) && (c <=? 70))%N then Some (c - 55)%N
  else None.

Definition hex4 (a b c d : N) : option N :=
  match hex_val a, hex_val b, hex_val c, hex_val d with
  | Some x, Some y, Some z, Some w => Some (((x * 16 + y) * 16 + z) * 16 + w)%N
  | _, _, _, _ => None
  end.

(** The one-letter escapes. *)
Definition unescape (c : N) : option N :=
  if eqc c 34 then Some 34%N
  else if eqc c 92 then Some 92%N
  else if eqc c 47 then Some 47%N
  else if eqc c 98 then Some 8%N
  else if eqc c 102 then Some 12%N
  else if eqc c 110 then Some 10%N
  else if eqc c 114 then Some 13%N
  else if eqc c 116 then Some 9%N
  else None.

Definition is_high_surrogate (u : N) : bool := ((55296 <=? u) && (u <=? 56319))%N.
Definition is_low_surrogate (u : N) : bool := ((56320 <=? u) && (u <=? 57343))%N.
Definition join_surrogates (hi lo : N) : N :=
  (65536 + ((hi - 55296) * 1024 + (lo - 56320)))%N.

(** The body of a string after its opening quote, up to the closing quote
    (strict mode: a control character is an error).  [acc] is the decoded
    text so far, reversed. *)
Fixpoint scanstring (s : str) (acc : str) : option (str * str) :=
  match s with
  | [] => None
  | c :: t =>
      if eqc c 34 then Some (rev acc, t)
      else if eqc c 92 then
        match t with
        | [] => None
        | e :: t1 =>
            if eqc e 117 then
              match t1 with
              | h1 :: h2 :: h3 :: h4 :: t2 =>
                  match hex4 h1 h2 h3 h4 with
                  | None => None
                  | Some u =>
                      if is_high_surrogate u then
                        match t2 with
                        | b :: x :: l1 :: l2 :: l3 :: l4 :: t3 =>
                            if eqc b 92 && eqc x 117 then
                              match hex4 l1 l2 l3 l4 with
                              | None => None
                              | Some u2 =>
                                  if is_low_surrogate u2
                                  then scanstring t3 (join_surrogates u u2 :: acc)
                                  else scanstring t2 (u :: acc)
                              end
                            else scanstring t2 (u :: acc)
                        | _ => scanstring t2 (u :: acc)
                        end
                      else scanstring t2 (u :: acc)
                  end
              | _ => None
              end
            else
              match unescape e with
              | Some x => scanstring t1 (x :: acc)
              | None => None
              end
        end
      else if (c <? 32)%N then None
      else scanstring t (c :: acc)
  end.

Fixpoint span_digits (s : str) : str * str :=
  match s with
  | c :: t =>
      if is_digit c then let '(d, r) := span_digits t in (c :: d, r)
      else ([], s)
  | [] => ([], [])
  end.

#[global] Arguments span_digits : simpl never.

Definition digits_value (d : str) : N :=
  fold_left (fun acc c => (acc * 10 + (c - 48))%N) d 0%N.

(** The number pattern at the head of [s]: an optional minus sign, then [0]
    or a digit run not starting with [0]; optionally a dot and a digit run;
    optionally [e] or [E], an optional sign and a digit run.  The value is an
    integer when neither fraction nor exponent is there, else a float. *)
Definition scan_sign (s : str) : bool * str :=
  match s with
  | c :: t => if eqc c 45 then (true, t) else (false, s)
  | [] => (false, s)
  end.

Definition scan_integer (s : str) : option (str * str) :=
  match s with
  | c :: t =>
      if eqc c 48 then Some ([c], t)
      else if is_digit c then Some (span_digits s)
      else None
  | [] => None
  end.

Definition scan_fraction (s : str) : option str * str :=
  match s with
  | c :: t =>
      if eqc c 46
      then let '(d, r) := span_digits t in
           if nonempty d then (Some d, r) else (None, s)
      else (None, s)
  | [] => (None, s)
  end.

Definition scan_exp_sign (s : str) : bool * str :=
  match s with
  | x :: t =>
      if eqc x 45 then (true, t)
      else if eqc x 43 then (false, t)
      else (false, s)
  | [] => (false, s)
  end.

Definition scan_exponent (s : str) : option Z * str :=
  match s with
  | c :: t =>
      if eqc c 101 || eqc c 69
      then let '(eneg, t') := scan_exp_sign t in
           let '(d, r) := span_digits t' in
           if nonempty d
           then (Some (if eneg then (- Z.of_N (digits_value d))%Z
                       else Z.of_N (digits_value d)), r)
           else (None, s)
      else (None, s)
  | [] => (None, s)
  end.

Section WithInterpreter.
Context {Py : Interpreter}.

Definition match_number (s : str) : parse pyval :=
  let '(neg, s1) := scan_sign s in
  match scan_integer s1 with
  | None => Invalid
  | Some (int_digits, s2) =>
      let '(frac, s3) := scan_fraction s2 in
      let '(exp, s4) := scan_exponent s3 in
      match frac, exp with
      | None, None =>
          if int_too_long int_max_str_digits (length int_digits)
          then Failed (int_digits_error int_max_str_digits (length int_digits))
          else
            let n := Z.of_N (digits_value int_digits) in
            Parsed (PInt (if neg then (- n)%Z else n)) s4
      | _, _ =>
          let fd := default [] frac in
          Parsed (PFloat neg (digits_value (int_digits ++ fd))
                    (default 0%Z exp - Z.of_nat (length fd))%Z) s4
      end
  end.

(** A literal at the head of the input. *)
Definition literal (w : string) (v : pyval) (s : str) : option (pyval * str) :=
  if startswith (py w) s then Some (v, drop (length (py w)) s) else None.

(** The scanner: one value at the head of [s].  [parse_items] reads the
    elements of an array after its bracket, [parse_members] the members of an
    object after its brace; both are entered at the first element.  [room]
    is the number of arrays and objects that may still be entered: entering
    one when there is no room raises [RecursionError]. *)
Fixpoint parse_value (fuel : nat) (room : nat) (s : str) : parse pyval :=
  match fuel with
  | O => OutOfFuel
  | S f =>
      match s with
      | [] => Invalid
      | c :: t =>
          if eqc c 34 then
            match scanstring t [] with
            | Some (x, r) => Parsed (PStr x) r
            | None => Invalid
            end
          else if eqc c 123 then
            match room with
            | O => Failed (recursion_error "object")
            | S room' =>
                match skip_ws t with
                | c' :: t' =>
                    if eqc c' 125 then Parsed (PDict []) t'
                    else parse_members f room' (c' :: t') []
                | [] => Invalid
                end
            end
          else if eqc c 91 then
            match room with
            | O => Failed (recursion_error "array")
            | S room' =>
                match skip_ws t with
                | c' :: t' =>
                    if eqc c' 93 then Parsed (PList []) t'
                    else parse_items f room' (c' :: t') []
                | [] => Invalid
                end
            end
          else
            match
              (if eqc c 110 then literal "null" PNone s
               else if eqc c 116 then literal "true" (PBool true) s
               else if eqc c 102 then literal "false" (PBool false) s
               else if eqc c 78 then literal "NaN" PNaN s
               else if eqc c 73 then literal "Infinity" (PInf false) s
               else if eqc c 45 then literal "-Infinity" (PInf true) s
               else None)
            with
            | Some (v, r) => Parsed v r
            | None => match_number s
            end
      end
  end
with parse_items (fuel : nat) (room : nat) (s : str) (acc : list pyval) : parse pyval :=
  match fuel with
  | O => OutOfFuel
  | S f =>
      match parse_value f room s with
      | Parsed v r =>
          match skip_ws r with
          | c :: t =>
              if eqc c 93 then Parsed (PList (rev (v :: acc))) t
              else if eqc c 44 then parse_items f room (skip_ws t) (v :: acc)
              else Invalid
          | [] => Invalid
          end
      | Invalid => Invalid
      | Failed e => Failed e
      | OutOfFuel => OutOfFuel
      end
  end
with parse_members (fuel : nat) (room : nat) (s : str) (acc : list (str * pyval))
  : parse pyval :=
  match fuel with
  | O => OutOfFuel
  | S f =>
      match s with
      | q :: t =>
          if eqc q 34 then
            match scanstring t [] with
            | Some (key, r) =>
                match skip_ws r with
                | c :: t1 =>
                    if eqc c 58 then
                      match parse_value f room (skip_ws t1) with
                      | Parsed v r2 =>
                          match skip_ws r2 with
                          | c2 :: t2 =>
                              if eqc c2 125
                              then Parsed (PDict (dict_of_pairs (rev ((key, v) :: acc)))) t2
                              else if eqc c2 44
                              then parse_members f room (skip_ws t2) ((key, v) :: acc)
                              else Invalid
                          | [] => Invalid
                          end
                      | Invalid => Invalid
                      | Failed e => Failed e
                      | OutOfFuel => OutOfFuel
                      end
                    else Invalid
                | [] => Invalid
                end
            | None => Invalid
            end
          else Invalid
      | [] => Invalid
      end
  end.

(** Fuel that no input of the given length exhausts. *)
Definition enough_fuel (s : str) : nat := 2 * length s + 3.

(** The [JSONDecodeError] that [json.loads] raises on [s]. *)
Definition decode_error (s : str) : exn := Exn JSONDecodeError (decode_error_msg s).

(** [json.loads(s)].  The whole input must be one value between optional
    whitespace, or [JSONDecodeError] is raised; an integer literal of more
    digits than the interpreter converts raises [ValueError], and nesting
    deeper than the interpreter has room for raises [RecursionError]. *)
Definition json_loads (s : str) : result pyval :=
  match parse_value (enough_fuel s) recursion_room (skip_ws s) with
  | Parsed v r => match skip_ws r with [] => Ok v | _ => Raise (decode_error s) end
  | Invalid => Raise (decode_error s)
  | Failed e => Raise e
  | OutOfFuel => Raise (decode_error s)
  end.

End WithInterpreter.

(** Test inputs are written with an apostrophe for each double quote. *)
Definition js (s : string) : str :=
  List.map (fun c => if eqc c SQUOTE then DQUOTE else c) (py s).

End Json.
Export Json.

(** ** analyzer.py *)

Module Analyzer.

Inductive RiskLevel := LOW | MEDIUM | HIGH.

(** [level.value] *)
Definition value (r : RiskLevel) : str :=
  match r with
  | LOW => py "low"
  | MEDIUM => py "medium"
  | HIGH => py "high"
  end.

(** [RiskLevel._value2member_map_] *)
Definition _value2member_map_ : list (str * RiskLevel) :=
  [(value LOW, LOW); (value MEDIUM, MEDIUM); (value HIGH, HIGH)].

Fixpoint member (s : str) (m : list (str * RiskLevel)) : option RiskLevel :=
  match m with
  | (k, r) :: rest => if str_eqb k s then Some r else member s rest
  | [] => None
  end.

#[global] Arguments member : simpl never.

(** [RiskLevel(s)] *)
Definition RiskLevel_call (s : str) : result RiskLevel :=
  match member s _value2member_map_ with
  | Some r => Ok r
  | None => Raise (Exn ValueError (py "'" ++ s ++ py "' is not a valid RiskLevel"))
  end.

(** The dataclasses.  Fields read from the model's output hold whatever value
    was there. *)
Record RedFlag := {
  clause_text : pyval;
  risk_type : pyval;
  explanation : pyval;
  why_risky : pyval;
  suggested_alternative : pyval;
  severity : RiskLevel
}.

Record RiskScore := {
  financial_risk : RiskLevel;
  legal_exposure : RiskLevel;
  fairness : RiskLevel;
  missing_clauses : RiskLevel;
  overall_score : RiskLevel
}.

Record ContractAnalysis := {
  summary : pyval;
  key_terms : pyval;
  red_flags : list RedFlag;
  risk_score : RiskScore;
  recommendations : pyval;
  processing_time : Q
}.

Definition set_processing_time (a : ContractAnalysis) (t : Q) : ContractAnalysis :=
  {| summary := summary a; key_terms := key_terms a; red_flags := red_flags a;
     risk_score := risk_score a; recommendations := recommendations a;
     processing_time := t |}.

(** An analyzer.  Its [client] is [OpenAI(api_key=...)], known by the key it
    was built from. *)
Record ContractAnalyzer := {
  client : str;
  model_name : str;
  timeout_seconds : Z
}.

(** [ContractAnalyzer.__init__] *)
Definition init (api_key model : str) (timeout_seconds : Z) : result ContractAnalyzer :=
  if nonempty api_key
  then Ok {| client := api_key; model_name := model;
             timeout_seconds := timeout_seconds |}
  else Raise (Exn ValueError (py "api_key is required to initialize ContractAnalyzer")).

(** The request [client.responses.create] is called with. *)
Record request := {
  req_model : str;
  req_input : list (str * str);
  max_output_tokens : nat
}.

(** What the code reads off the response envelope: its [output_text]
    (empty when missing), the text the inspection of [response.output]
    collects (the parts joined by line feeds and stripped; empty when there is
    none or the inspection fails), and [json.dumps] of its [body] or [raw]
    attribute (empty when neither is there). *)
Record response := {
  output_text : str;
  output_fallback : str;
  raw_dump : str
}.

Definition type_name (v : pyval) : str :=
  match v with
  | PNone => py "NoneType"
  | PBool _ => py "bool"
  | PInt _ => py "int"
  | PFloat _ _ _ | PNaN | PInf _ => py "float"
  | PStr _ => py "str"
  | PList _ => py "list"
  | PDict _ => py "dict"
  end.

Definition attribute_error (v : pyval) (attr : string) : exn :=
  Exn AttributeError
    (py "'" ++ type_name v ++ py "' object has no attribute '" ++ py attr ++ py "'").

(** [v.get(k, dflt)] *)
Definition get (v : pyval) (k : string) (dflt : pyval) : result pyval :=
  match v with
  | PDict d => Ok (default dflt (dict_lookup (py k) d))
  | _ => Raise (attribute_error v "get")
  end.

(** [a or b] *)
Definition or_else (a b : pyval) : pyval := if truthy a then a else b.

(** [for x in v]: the values the loop visits. *)
Definition iterate (v : pyval) : result (list pyval) :=
  match v with
  | PList l => Ok l
  | PDict d => Ok (List.map (fun kv => PStr kv.1) d)
  | PStr s => Ok (List.map (fun c => PStr [c]) s)
  | _ => Raise (Exn TypeError (py "'" ++ type_name v ++ py "' object is not iterable"))
  end.

Definition fence : str := py "```".
Definition LBRACE : str := py "{".
Definition RBRACE : str := py "}".

(** The fence step of [_parse_response]: when the text begins with a fence,
    the first piece between fences that begins with a brace once stripped,
    if there is one. *)
Definition strip_fence (text_stripped : str) : str :=
  if startswith fence text_stripped
  then match List.find (fun p => startswith LBRACE (strip p)) (split fence text_stripped) with
       | Some p => strip p
       | None => text_stripped
       end
  else text_stripped.

Definition no_output : exn := Exn RuntimeError (py "AI returned no output.").

(** The failure raised in the handler of the first decode error [e], which
    is its context. *)
Definition parse_failed (e : exn) : exn :=
  ExnIn RuntimeError (py "Failed to parse AI response as JSON.") e.

(** [except json.JSONDecodeError] *)
Definition is_decode_error (e : exn) : bool :=
  match exn_cls e with
  | JSONDecodeError => true
  | _ => false
  end.

(** An exception raised while [handled] is being handled. *)
Definition raised_in (handled : exn) (e : exn) : exn :=
  match e with
  | Exn cls msg => ExnIn cls msg handled
  | ExnIn _ _ _ => e
  end.

(** The fallback of [_extract_text_from_response] from the point where
    [output] is in hand (a truthy value): the parts its items contribute,
    joined by line feeds and stripped.  An entry of a content list gives its
    ["text"], or else its ["content"] when that is a string; an item gives
    the parts of its content list and then its own ["text"].  Joining raises
    [TypeError] when a part is not a string, and every exception is answered
    with the empty string. *)
Definition content_parts (c : pyval) : list pyval :=
  match c with
  | PDict d =>
      match dict_lookup (py "text") d with
      | Some t => [t]
      | None =>
          match dict_lookup (py "content") d with
          | Some (PStr s) => [PStr s]
          | _ => []
          end
      end
  | _ => []
  end.

Definition item_parts (item : pyval) : list pyval :=
  match item with
  | PDict d =>
      match dict_lookup (py "content") d with
      | Some (PList content_list) => flat_map content_parts content_list
      | _ => []
      end
      ++ match dict_lookup (py "text") d with
         | Some t => [t]
         | None => []
         end
  | _ => []
  end.

(** [sep.join(parts)] on values: every part must be a string; [i] is the
    index of the first part. *)
Fixpoint join_values (i : N) (parts : list pyval) : result (list str) :=
  match parts with
  | [] => Ok []
  | PStr s :: rest => ps ← join_values (i + 1) rest; Ok (s :: ps)
  | v :: _ =>
      Raise (Exn TypeError (py "sequence item " ++ str_of_N i
                            ++ py ": expected str instance, "
                            ++ type_name v ++ py " found"))
  end.

Definition aggregate_output (output : pyval) : str :=
  match (items ← iterate output;
         parts ← join_values 0 (flat_map item_parts items);
         Ok (strip (join [LF] parts))) with
  | Ok text => text
  | Raise _ => []
  end.

Definition _extract_text_from_response (r : response) : str :=
  if nonempty (output_text r) then output_text r else output_fallback r.

Section WithInterpreter.
Context {Py : Interpreter}.

(** [_parse_response] from the point where the text is in hand.  Only
    [JSONDecodeError] is caught; any other exception of [json.loads] passes
    through. *)
Definition parse_text (text : str) : result pyval :=
  if negb (nonempty text) then Raise no_output
  else
    let text_stripped := strip_fence (strip text) in
    match json_loads text_stripped with
    | Ok data => Ok data
    | Raise e =>
        if is_decode_error e then
          match find LBRACE text_stripped, rfind RBRACE text_stripped with
          | Some start, Some end_ =>
              if (start <? end_)%nat
              then match json_loads (slice start (end_ + 1) text_stripped) with
                   | Ok data => Ok data
                   | Raise e' =>
                       if is_decode_error e' then Raise (parse_failed e)
                       else Raise (raised_in e e')
                   end
              else Raise (parse_failed e)
          | _, _ => Raise (parse_failed e)
          end
        else Raise e
    end.

Definition _parse_response (r : response) : result pyval :=
  let text := _extract_text_from_response r in
  let text := if nonempty text then text else raw_dump r in
  parse_text text.

End WithInterpreter.

Definition _build_system_prompt : str :=
  py "You are an expert contract reviewer and legal analyst specializing in identifying risks, "
  ++ py "unfair terms, and red flags in legal agreements. Use plain English and provide actionable suggestions.".

Section WithUnicode.
Context {U : UnicodeData} {Py : Interpreter}.

(** [v.lower()] *)
Definition lower_of (v : pyval) : result str :=
  match v with
  | PStr s => Ok (lower s)
  | _ => Raise (attribute_error v "lower")
  end.

(** [RiskLevel(raw if raw in RiskLevel._value2member_map_ else dflt)] for
    [raw = (d.get(key, dflt) or dflt).lower()] *)
Definition coerce (d : pyval) (key : string) (dflt : string) : result RiskLevel :=
  v ← get d key (PStr (py dflt));
  raw ← lower_of (or_else v (PStr (py dflt)));
  RiskLevel_call (match member raw _value2member_map_ with
                  | Some _ => raw
                  | None => py dflt
                  end).

(** The body of the [try] in the red-flag loop. *)
Definition make_red_flag (flag_data : pyval) : result RedFlag :=
  severity ← coerce flag_data "severity" "medium";
  clause_text ← get flag_data "clause_text" (PStr []);
  risk_type ← get flag_data "risk_type" (PStr []);
  explanation ← get flag_data "explanation" (PStr []);
  why_risky ← get flag_data "why_risky" (PStr []);
  suggested_alternative ← get flag_data "suggested_alternative" (PStr []);
  Ok {| clause_text := clause_text; risk_type := risk_type;
        explanation := explanation; why_risky := why_risky;
        suggested_alternative := suggested_alternative; severity := severity |}.

(** The red-flag loop: an entry whose body raises is skipped. *)
Fixpoint collect_red_flags (entries : list pyval) : list RedFlag :=
  match entries with
  | [] => []
  | flag_data :: rest =>
      match make_red_flag flag_data with
      | Ok flag => flag :: collect_red_flags rest
      | Raise _ => collect_red_flags rest
      end
  end.

Definition parse_risk_field (risk_data : pyval) (key : string) (dflt : string)
  : result RiskLevel :=
  coerce risk_data key dflt.

Definition _create_analysis_object (data : pyval) : result ContractAnalysis :=
  flags ← get data "red_flags" (PList []);
  entries ← iterate flags;
  let red_flags := collect_red_flags entries in
  risk_data ← get data "risk_score" (PDict []);
  financial_risk ← parse_risk_field risk_data "financial_risk" "medium";
  legal_exposure ← parse_risk_field risk_data "legal_exposure" "medium";
  fairness ← parse_risk_field risk_data "fairness" "medium";
  missing_clauses ← parse_risk_field risk_data "missing_clauses" "medium";
  overall_score ← parse_risk_field risk_data "overall_score" "medium";
  summary ← get data "summary" (PStr []);
  key_terms ← get data "key_terms" (PDict []);
  recommendations ← get data "recommendations" (PList []);
  Ok {| summary := summary; key_terms := key_terms; red_flags := red_flags;
        risk_score := {| financial_risk := financial_risk;
                         legal_exposure := legal_exposure;
                         fairness := fairness;
                         missing_clauses := missing_clauses;
                         overall_score := overall_score |};
        recommendations := recommendations; processing_time := 0 |}.

(** The remote service and the clock: what [client.responses.create] does
    with a request, for the client built from a key, and the two readings of
    [time.time()].  The text of the user prompt around the contract is
    [user_prompt_head] and [user_prompt_tail]. *)
Variable create : str -> request -> result response.
Variables start_time end_time : Q.
Variables user_prompt_head user_prompt_tail : str.

Definition _build_user_prompt (contract_text : str) : str :=
  user_prompt_head ++ contract_text ++ user_prompt_tail.

Definition responses_request (self : ContractAnalyzer) (system_prompt user_prompt : str)
  : request :=
  {| req_model := model_name self;
     req_input := [(py "system", system_prompt); (py "user", user_prompt)];
     max_output_tokens := 1200 |}.

Definition _call_gpt (self : ContractAnalyzer) (system_prompt user_prompt : str)
  : result response :=
  reraise RuntimeError (py "AI analysis failed: ")
    (create (client self) (responses_request self system_prompt user_prompt)).

Definition analyze (self : ContractAnalyzer) (contract_text : str)
  : result ContractAnalysis :=
  let system_prompt := _build_system_prompt in
  let user_prompt := _build_user_prompt contract_text in
  raw_response ← _call_gpt self system_prompt user_prompt;
  parsed ← _parse_response raw_response;
  analysis ← _create_analysis_object parsed;
  Ok (set_processing_time analysis (end_time - start_time)).

End WithUnicode.



End Analyzer.

(** ** analyzer.py: [to_dict], on a store of objects *)

(** [to_dict] copies the analysis with [dataclasses.asdict] and then updates
    the copy in place.  Dataclass instances, lists and dictionaries are
    objects in a store and are referred to by location; strings, numbers,
    [None] and enumeration members are immutable and are values. *)
Module Store.
Import Analyzer.

Abbreviation loc := positive.

Inductive atom :=
  | ANone
  | ABool (b : bool)
  | AInt (z : Z)
  | AFloat (neg : bool) (m : N) (e : Z)
  | ANaN
  | AInf (neg : bool)
  | ASeconds (q : Q)
  | AStr (s : str)
  | AEnum (r : RiskLevel).

Inductive val :=
  | VAtom (a : atom)
  | VRef (l : loc).

Inductive obj :=
  | OInst (cls : string) (fields : list (string * val))
  | OList (items : list val)
  | ODict (items : list (str * val)).

Abbreviation heap := (gmap loc obj).

(** The outcome of a computation on the store.  [Stuck] is a reference to
    no object, which no program reaches. *)
Inductive outcome (A : Type) :=
  | Done (a : A) (h : heap)
  | Raised (e : exn) (h : heap)
  | Stuck.
Arguments Done {A} a h.
Arguments Raised {A} e h.
Arguments Stuck {A}.

Definition M (A : Type) : Type := heap -> outcome A.

Definition ret {A} (a : A) : M A := fun h => Done a h.
Definition bind {A B} (m : M A) (f : A -> M B) : M B := fun h =>
  match m h with
  | Done a h' => f a h'
  | Raised e h' => Raised e h'
  | Stuck => Stuck
  end.
Definition raise {A} (e : exn) : M A := fun h => Raised e h.

#[global] Instance M_ret : MRet M := @ret.
#[global] Instance M_bind : MBind M := fun A B f m => bind m f.

(** A new object. *)
Definition alloc (o : obj) : M val := fun h =>
  let l := fresh (dom h) in Done (VRef l) (<[l := o]> h).

Definition load (l : loc) : M obj := fun h =>
  match h !! l with
  | Some o => Done o h
  | None => Stuck
  end.

Definition store (l : loc) (o : obj) : M unit := fun h => Done tt (<[l := o]> h).

Fixpoint mapM {A B} (f : A -> M B) (l : list A) : M (list B) :=
  match l with
  | [] => ret []
  | x :: r => y ← f x; ys ← mapM f r; ret (y :: ys)
  end.

Fixpoint forM_ {A} (l : list A) (f : A -> M unit) : M unit :=
  match l with
  | [] => ret tt
  | x :: r => f x;; forM_ r f
  end.

Definition obj_children (o : obj) : list val :=
  match o with
  | OInst _ fields => List.map snd fields
  | OList items => items
  | ODict items => List.map snd items
  end.

(** What [_asdict_inner] builds from an object and its converted children:
    a dictionary keyed by the field names for a dataclass instance, a list
    for a list, a dictionary with the same keys for a dictionary. *)
Definition asdict_build (o : obj) (children : list val) : obj :=
  match o with
  | OInst _ fields => ODict (zip (List.map (fun f => py f.1) fields) children)
  | OList _ => OList children
  | ODict items => ODict (zip (List.map fst items) children)
  end.

(** [dataclasses._asdict_inner]; an immutable value is its own deep copy.
    [depth] is the interpreter's recursion limit. *)
Fixpoint _asdict_inner (depth : nat) (v : val) : M val :=
  match depth with
  | O => raise (Exn RecursionError (py "maximum recursion depth exceeded"))
  | S d =>
      match v with
      | VAtom _ => ret v
      | VRef l =>
          o ← load l;
          children ← mapM (_asdict_inner d) (obj_children o);
          alloc (asdict_build o children)
      end
  end.

Definition type_error (msg : string) : exn := Exn TypeError (py msg).

(** [dataclasses.asdict] *)
Definition asdict (depth : nat) (v : val) : M val :=
  match v with
  | VRef l =>
      o ← load l;
      match o with
      | OInst _ _ => _asdict_inner depth v
      | _ => raise (type_error "asdict() should be called on dataclass instances")
      end
  | VAtom _ => raise (type_error "asdict() should be called on dataclass instances")
  end.

Fixpoint assoc_get (k : str) (items : list (str * val)) : option val :=
  match items with
  | [] => None
  | (k', v) :: r => if str_eqb k' k then Some v else assoc_get k r
  end.

Fixpoint assoc_set (k : str) (v : val) (items : list (str * val)) : list (str * val) :=
  match items with
  | [] => [(k, v)]
  | (k', v') :: r =>
      if str_eqb k' k then (k', v) :: r else (k', v') :: assoc_set k v r
  end.

#[global] Arguments assoc_get : simpl never.
#[global] Arguments assoc_set : simpl never.

(** The items of the dictionary [d] refers to; any other value has none of
    the dictionary methods. *)
Definition dict_items (d : val) (method : string) : M (list (str * val)) :=
  match d with
  | VRef l =>
      o ← load l;
      match o with
      | ODict items => ret items
      | _ => raise (Exn AttributeError (py "object has no attribute '" ++ py method ++ py "'"))
      end
  | VAtom _ => raise (Exn AttributeError (py "object has no attribute '" ++ py method ++ py "'"))
  end.

(** [d[k]] *)
Definition getitem (d : val) (k : string) : M val :=
  match d with
  | VRef l =>
      o ← load l;
      match o with
      | ODict items =>
          match assoc_get (py k) items with
          | Some v => ret v
          | None => raise (Exn KeyError (py k))
          end
      | _ => raise (type_error "object is not subscriptable")
      end
  | VAtom _ => raise (type_error "object is not subscriptable")
  end.

(** [d[k] = v] *)
Definition setitem (d : val) (k : string) (v : val) : M unit :=
  match d with
  | VRef l =>
      o ← load l;
      match o with
      | ODict items => store l (ODict (assoc_set (py k) v items))
      | _ => raise (type_error "object does not support item assignment")
      end
  | VAtom _ => raise (type_error "object does not support item assignment")
  end.

(** [d.get(k, dflt)] *)
Definition get (d : val) (k : string) (dflt : val) : M val :=
  items ← dict_items d "get";
  ret (default dflt (assoc_get (py k) items)).

(** [for x in v] *)
Definition iterate (v : val) : M (list val) :=
  match v with
  | VRef l =>
      o ← load l;
      match o with
      | OList items => ret items
      | ODict items => ret (List.map (fun kv => VAtom (AStr kv.1)) items)
      | OInst _ _ => raise (type_error "object is not iterable")
      end
  | VAtom (AStr s) => ret (List.map (fun c => VAtom (AStr [c])) s)
  | VAtom _ => raise (type_error "object is not iterable")
  end.

(** [getattr(v, "value", v)]: only an enumeration member has the attribute
    among the values a converted analysis holds. *)
Definition value_or_self (v : val) : val :=
  match v with
  | VAtom (AEnum r) => VAtom (AStr (value r))
  | _ => v
  end.

(** [isinstance(v, Enum)] *)
Definition is_enum (v : val) : bool :=
  match v with
  | VAtom (AEnum _) => true
  | _ => false
  end.

(** The body of the loop over the converted red flags. *)
Definition render_severity (flag : val) : M unit :=
  severity ← get flag "severity" (VAtom ANone);
  if is_enum severity
  then severity ← getitem flag "severity";
       setitem flag "severity" (value_or_self severity)
  else ret tt.

Definition to_dict (depth : nat) (analysis : val) : M val :=
  result ← asdict depth analysis;
  risk_score ← getitem result "risk_score";
  items ← dict_items risk_score "items";
  rendered ← alloc (ODict (List.map (fun kv => (kv.1, value_or_self kv.2)) items));
  setitem result "risk_score" rendered;;
  empty ← alloc (OList []);
  flags ← get result "red_flags" empty;
  flags ← iterate flags;
  forM_ flags render_severity;;
  ret result.

(** *** Objects as trees *)

(** The value a location stands for, when the objects reachable from it are
    read as a tree. *)
#[warnings="-register-all"]
Inductive tree :=
  | TAtom (a : atom)
  | TInst (cls : string) (fields : list (string * tree))
  | TList (items : list tree)
  | TDict (items : list (str * tree)).

Definition tree_children (t : tree) : list tree :=
  match t with
  | TAtom _ => []
  | TInst _ fields => List.map snd fields
  | TList items => items
  | TDict items => List.map snd items
  end.

(** The object has the constructor and the keys of the tree's root. *)
Definition matches (o : obj) (t : tree) : Prop :=
  match o, t with
  | OInst c fields, TInst c' tfields => c = c' /\ List.map fst fields = List.map fst tfields
  | OList _, TList _ => True
  | ODict items, TDict titems => List.map fst items = List.map fst titems
  | _, _ => False
  end.

(** [repr h v t]: in [h], [v] stands for [t] (objects may be shared). *)
#[warnings="-register-all"]
Inductive repr (h : heap) : val -> tree -> Prop :=
  | repr_atom a : repr h (VAtom a) (TAtom a)
  | repr_node l o t :
      h !! l = Some o -> matches o t ->
      Forall2 (repr h) (obj_children o) (tree_children t) ->
      repr h (VRef l) t.

(** [own h v t F]: in [h], [v] stands for [t], and the objects it reaches are
    the locations [F], each reached once. *)
Inductive own (h : heap) : val -> tree -> gset loc -> Prop :=
  | own_atom a : own h (VAtom a) (TAtom a) ∅
  | own_node l o t F :
      h !! l = Some o -> matches o t ->
      owns h (obj_children o) (tree_children t) F -> l ∉ F ->
      own h (VRef l) t ({[l]} ∪ F)
with owns (h : heap) : list val -> list tree -> gset loc -> Prop :=
  | owns_nil : owns h [] [] ∅
  | owns_cons v t vs ts F1 F2 :
      own h v t F1 -> owns h vs ts F2 -> F1 ## F2 ->
      owns h (v :: vs) (t :: ts) (F1 ∪ F2).

Scheme own_mut := Minimality for own Sort Prop
  with owns_mut := Minimality for owns Sort Prop.
Combined Scheme own_owns_ind from own_mut, owns_mut.

(** The tree [asdict] copies: an instance becomes a dictionary keyed by its
    field names. *)
Fixpoint asdict_tree (t : tree) : tree :=
  match t with
  | TAtom a => TAtom a
  | TInst _ fields => TDict (List.map (fun f => (py f.1, asdict_tree f.2)) fields)
  | TList items => TList (List.map asdict_tree items)
  | TDict items => TDict (List.map (fun kv => (kv.1, asdict_tree kv.2)) items)
  end.

Fixpoint tree_depth (t : tree) : nat :=
  match t with
  | TAtom _ => 0
  | TInst _ fields => S (list_max (List.map (fun f => tree_depth f.2) fields))
  | TList items => S (list_max (List.map tree_depth items))
  | TDict items => S (list_max (List.map (fun kv => tree_depth kv.2) items))
  end.

Fixpoint tree_of_pyval (p : pyval) : tree :=
  match p with
  | PNone => TAtom ANone
  | PBool b => TAtom (ABool b)
  | PInt z => TAtom (AInt z)
  | PFloat neg m e => TAtom (AFloat neg m e)
  | PNaN => TAtom ANaN
  | PInf neg => TAtom (AInf neg)
  | PStr s => TAtom (AStr s)
  | PList l => TList (List.map tree_of_pyval l)
  | PDict d => TDict (List.map (fun kv => (kv.1, tree_of_pyval kv.2)) d)
  end.

(** The analysis as the dataclasses hold it. *)
Definition tree_of_flag (f : RedFlag) : tree :=
  TInst "RedFlag"
    [("clause_text", tree_of_pyval (clause_text f));
     ("risk_type", tree_of_pyval (risk_type f));
     ("explanation", tree_of_pyval (explanation f));
     ("why_risky", tree_of_pyval (why_risky f));
     ("suggested_alternative", tree_of_pyval (suggested_alternative f));
     ("severity", TAtom (AEnum (severity f)))]%string.

Definition tree_of_score (s : RiskScore) : tree :=
  TInst "RiskScore"
    [("financial_risk", TAtom (AEnum (financial_risk s)));
     ("legal_exposure", TAtom (AEnum (legal_exposure s)));
     ("fairness", TAtom (AEnum (fairness s)));
     ("missing_clauses", TAtom (AEnum (missing_clauses s)));
     ("overall_score", TAtom (AEnum (overall_score s)))]%string.

Definition tree_of_analysis (a : ContractAnalysis) : tree :=
  TInst "ContractAnalysis"
    [("summary", tree_of_pyval (summary a));
     ("key_terms", tree_of_pyval (key_terms a));
     ("red_flags", TList (List.map tree_of_flag (red_flags a)));
     ("risk_score", tree_of_score (risk_score a));
     ("recommendations", tree_of_pyval (recommendations a));
     ("processing_time", TAtom (ASeconds (processing_time a)))]%string.

(** The mapping [to_dict] returns: plain dictionaries and lists, every risk
    level as its lowercase string. *)
Definition dict_of_flag (f : RedFlag) : tree :=
  TDict
    [(py "clause_text", tree_of_pyval (clause_text f));
     (py "risk_type", tree_of_pyval (risk_type f));
     (py "explanation", tree_of_pyval (explanation f));
     (py "why_risky", tree_of_pyval (why_risky f));
     (py "suggested_alternative", tree_of_pyval (suggested_alternative f));
     (py "severity", TAtom (AStr (value (severity f))))].

Definition dict_of_score (s : RiskScore) : tree :=
  TDict
    [(py "financial_risk", TAtom (AStr (value (financial_risk s))));
     (py "legal_exposure", TAtom (AStr (value (legal_exposure s))));
     (py "fairness", TAtom (AStr (value (fairness s))));
     (py "missing_clauses", TAtom (AStr (value (missing_clauses s))));
     (py "overall_score", TAtom (AStr (value (overall_score s))))].

Definition dict_of_analysis (a : ContractAnalysis) : tree :=
  TDict
    [(py "summary", tree_of_pyval (summary a));
     (py "key_terms", tree_of_pyval (key_terms a));
     (py "red_flags", TList (List.map dict_of_flag (red_flags a)));
     (py "risk_score", dict_of_score (risk_score a));
     (py "recommendations", tree_of_pyval (recommendations a));
     (py "processing_time", TAtom (ASeconds (processing_time a)))].

(** The five ratings of a score, in field order. *)
Definition score_levels (s : RiskScore) : list RiskLevel :=
  [financial_risk s; legal_exposure s; fairness s; missing_clauses s; overall_score s].

Definition score_keys : list str :=
  [py "financial_risk"; py "legal_exposure"; py "fairness"; py "missing_clauses";
   py "overall_score"].

(** [_asdict_inner] builds, in fresh locations, an owned copy of what it is
    given, and changes no object of the store it starts from. *)
Definition asdict_copies (t : tree) : Prop :=
  forall v (h : heap) d, repr h v t -> (tree_depth t < d)%nat ->
  exists v' h' F, _asdict_inner d v h = Done v' h' /\ h ⊆ h'
                  /\ own h' v' (asdict_tree t) F /\ F ## dom h.

(** The mapping [to_dict] returns, as the value a caller reads it back as
    (what [json.loads(json.dumps(...))] gives); [seconds] is the processing
    time. *)
Definition pyval_of_flag (f : RedFlag) : pyval :=
  PDict
    [(py "clause_text", clause_text f);
     (py "risk_type", risk_type f);
     (py "explanation", explanation f);
     (py "why_risky", why_risky f);
     (py "suggested_alternative", suggested_alternative f);
     (py "severity", PStr (value (severity f)))].

Definition pyval_of_score (s : RiskScore) : pyval :=
  PDict (zip score_keys (List.map (fun l => PStr (value l)) (score_levels s))).

Definition pyval_of_analysis (a : ContractAnalysis) (seconds : pyval) : pyval :=
  PDict
    [(py "summary", summary a);
     (py "key_terms", key_terms a);
     (py "red_flags", PList (List.map pyval_of_flag (red_flags a)));
     (py "risk_score", pyval_of_score (risk_score a));
     (py "recommendations", recommendations a);
     (py "processing_time", seconds)].

End Store.

(** ** Worlds used in the examples *)

Module Fixtures.
Import Analyzer.

(** A PDF of three pages, the second of which yields no text. *)
Definition three_pages : str -> result (list (result str)) :=
  fun _ => Ok (List.map Ok [py "First  page"; []; py "Third page"]).



Definition answers_prose : str -> request -> result response :=
  fun _ _ => Ok {| output_text := py "I am unable to help."; output_fallback := [];
                   raw_dump := [] |}.

(** An interpreter with the default limit on integer literals and room for
    990 nested containers.  Its decode message is the one for a document that
    is empty or whose first character begins no value; the examples use it
    on such documents only. *)
Definition an_interpreter : Interpreter :=
  {| int_max_str_digits := 4300;
     recursion_room := 990;
     decode_error_msg := fun _ => py "Expecting value: line 1 column 1 (char 0)" |}.


Definition an_analyzer : ContractAnalyzer :=
  {| client := py "sk-test"; model_name := py "gpt-4.1"; timeout_seconds := 60 |}.

(** An analysis with one red flag, and a store that holds it at location
    [1]. *)
Definition an_analysis : ContractAnalysis :=
  {| summary := PStr (py "A licence.");
     key_terms := PDict [(py "parties", PStr (py "TechCorp and Client"))];
     red_flags :=
       [ {| clause_text := PStr (py "10% per day"); risk_type := PStr (py "Penalty");
            explanation := PStr []; why_risky := PStr [];
            suggested_alternative := PStr []; severity := HIGH |} ];
     risk_score := {| financial_risk := HIGH; legal_exposure := MEDIUM;
                      fairness := LOW; missing_clauses := MEDIUM;
                      overall_score := HIGH |};
     recommendations := PList [PStr (py "Negotiate.")];
     processing_time := 3 # 2 |}.

Definition a_store : Store.heap :=
  let s (x : string) := Store.VAtom (Store.AStr (py x)) in
  let e r := Store.VAtom (Store.AEnum r) in
  list_to_map
    [(1%positive,
      Store.OInst "ContractAnalysis"
        [("summary", s "A licence."%string); ("key_terms", Store.VRef 2);
         ("red_flags", Store.VRef 3); ("risk_score", Store.VRef 5);
         ("recommendations", Store.VRef 6);
         ("processing_time", Store.VAtom (Store.ASeconds (3 # 2)))]%string);
     (2%positive, Store.ODict [(py "parties", s "TechCorp and Client"%string)]);
     (3%positive, Store.OList [Store.VRef 4]);
     (4%positive,
      Store.OInst "RedFlag"
        [("clause_text", s "10% per day"%string); ("risk_type", s "Penalty"%string);
         ("explanation", s ""%string); ("why_risky", s ""%string);
         ("suggested_alternative", s ""%string); ("severity", e HIGH)]%string);
     (5%positive,
      Store.OInst "RiskScore"
        [("financial_risk", e HIGH); ("legal_exposure", e MEDIUM);
         ("fairness", e LOW); ("missing_clauses", e MEDIUM);
         ("overall_score", e HIGH)]%string);
     (6%positive, Store.OList [s "Negotiate."%string])].

End Fixtures.

(** * Properties *)

(** ** Evaluation of the string operations *)

Example split_fence : split (py "```") (py "```json{}```x") = [[]; py "json{}"; py "x"].
Proof. reflexivity. Qed.

Example strip_ex : strip (py "  a b  ") = py "a b".
Proof. reflexivity. Qed.

Example find_ex : find (py "{") (py "ab{c}{") = Some 2 /\ rfind (py "{") (py "ab{c}{") = Some 5.
Proof. split; reflexivity. Qed.

Example split_ws_ex : split_ws (py " a  bc ") = [py "a"; py "bc"].
Proof. reflexivity. Qed.

Example re_split_ex : re_split_stops (py "a.b!?c.") = [py "a"; py "b"; py "c"; []].
Proof. reflexivity. Qed.

Example str_of_Z_ex : str_of_Z 100 = py "100" /\ str_of_Z 0 = py "0" /\ str_of_Z 4305 = py "4305".
Proof. repeat split; reflexivity. Qed.

Example nfkc_compose_ex : UcdExcerpt.nfkc_excerpt [101; 769]%N = [233]%N.
Proof. reflexivity. Qed.

Example nfkc_blocked_ex : UcdExcerpt.nfkc_excerpt [101; 8203; 769]%N = [101; 8203; 769]%N.
Proof. reflexivity. Qed.

Example nfkc_nbsp_ex : UcdExcerpt.nfkc_excerpt [97; 160; 201; 769]%N = [97; 32; 201; 769]%N.
Proof. reflexivity. Qed.

Example lower_ex : UcdExcerpt.lower_excerpt (py "URGENT Case") = py "urgent case"
  /\ UcdExcerpt.lower_excerpt [7728; 201]%N = [7729; 233]%N.
Proof. split; reflexivity. Qed.

Example normalize_ex :
  @TextNormalizer.normalize UcdExcerpt.ucd
    (py "  SOFTWARE    LICENSE " ++ [CR; LF; LF; LF; LF; 8222] ++ py "x  " ++ [LF])%N
  = py "SOFTWARE LICENSE" ++ [LF; LF; DQUOTE] ++ py "x".
Proof. reflexivity. Qed.

(** ** TextNormalizer *)

Module NormalizerFacts.
Import TextNormalizer NormalForm.

Ltac eqc_case a b :=
  unfold eqc in *; destruct (N.eqb_spec a b); subst; simpl in *;
  try discriminate; try congruence.

Lemma head_is_true x s : head_is x s = true -> exists t, s = x :: t.
Proof.
  destruct s as [|c t]; simpl; [discriminate|].
  unfold eqc. intros H%N.eqb_eq. subst. eauto.
Qed.

Lemma head_is_app x p w : head_is x p = true -> head_is x (p ++ w) = true.
Proof. destruct p; simpl; [discriminate|auto]. Qed.

Lemma spaces_then_lf_app p w :
  spaces_then_lf p = true -> spaces_then_lf (p ++ w) = true.
Proof.
  induction p as [|c p IH]; simpl; [discriminate|].
  destruct (eqc c SP); auto.
Qed.

(** *** The substitutions only delete or rename code points *)

Section Deleting.
Context (P : N -> Prop).

Lemma Forall_collapse_spaces s : Forall P s -> Forall P (collapse_spaces s).
Proof.
  induction 1 as [|c t Hc Ht IH]; simpl; [constructor|].
  destruct (eqc c SP && head_is SP t); auto.
Qed.

Lemma Forall_crlf_to_lf s : Forall P s -> Forall P (crlf_to_lf s).
Proof.
  induction 1 as [|c t Hc Ht IH]; simpl; [constructor|].
  destruct (eqc c CR && head_is LF t); auto.
Qed.

Lemma Forall_strip_trailing_spaces s :
  Forall P s -> Forall P (strip_trailing_spaces s).
Proof.
  induction 1 as [|c t Hc Ht IH]; simpl; [constructor|].
  destruct (eqc c SP && spaces_then_lf t); auto.
Qed.

Lemma Forall_collapse_newlines s : Forall P s -> Forall P (collapse_newlines s).
Proof.
  induction 1 as [|c t Hc Ht IH]; simpl; [constructor|].
  destruct (eqc c LF && head_is LF t && head_is LF (tail t)); auto.
Qed.

End Deleting.

Lemma lstrip_suffix s : exists w, s = w ++ lstrip s.
Proof.
  induction s as [|c t [w Hw]]; simpl; [by exists []|].
  destruct (isspace c); [|by exists []].
  exists (c :: w). simpl. by f_equal.
Qed.

Lemma rstrip_prefix s : exists w, s = rstrip s ++ w.
Proof.
  induction s as [|c t [w Hw]]; simpl; [by exists []|].
  destruct (rstrip t) as [|d r] eqn:E.
  - destruct (isspace c); [by exists (c :: t)|].
    exists w. simpl in *. by f_equal.
  - exists w. simpl in *. by f_equal.
Qed.

Lemma strip_infix s : exists w1 w2, s = w1 ++ strip s ++ w2.
Proof.
  unfold strip. destruct (lstrip_suffix s) as [w1 H1].
  destruct (rstrip_prefix (lstrip s)) as [w2 H2].
  exists w1, w2. by rewrite <- H2.
Qed.

Lemma Forall_strip (P : N -> Prop) s : Forall P s -> Forall P (strip s).
Proof.
  destruct (strip_infix s) as (w1 & w2 & E). intros H. rewrite E in H.
  apply Forall_app in H as [_ H]. by apply Forall_app in H as [H _].
Qed.

(** *** What follows the head of a rewritten text *)

Lemma head_collapse_spaces x s : head_is x (collapse_spaces s) = head_is x s.
Proof.
  induction s as [|c t IH]; simpl; [done|].
  destruct (eqc c SP && head_is SP t) eqn:E; [|done].
  apply andb_true_iff in E as [Hc Ht].
  apply head_is_true in Ht as [t' ->]. rewrite IH. simpl.
  unfold eqc in *. apply N.eqb_eq in Hc. by subst.
Qed.

Lemma head_crlf_to_lf x s :
  head_is x (crlf_to_lf s) = true -> head_is x s = true \/ x = LF.
Proof.
  induction s as [|c t IH]; simpl; [discriminate|].
  destruct (eqc c CR && head_is LF t) eqn:E; [|by left].
  apply andb_true_iff in E as [Hc Ht]. intros H.
  destruct (IH H) as [H'|H']; [|by right].
  apply head_is_true in Ht as [t' ->]. simpl in H'.
  unfold eqc in H'. apply N.eqb_eq in H'. by right.
Qed.

Lemma head_strip_trailing_spaces x s :
  head_is x (strip_trailing_spaces s) = true -> head_is x s = true \/ x = LF.
Proof.
  induction s as [|c t IH]; simpl; [discriminate|].
  destruct (eqc c SP && spaces_then_lf t) eqn:E; [|by left].
  apply andb_true_iff in E as [Hc Ht]. intros H.
  destruct (IH H) as [H'|H']; [|by right].
  apply head_is_true in H' as [t' ->]. simpl in Ht.
  destruct (eqc x SP) eqn:Ex.
  - left. unfold eqc in *. apply N.eqb_eq in Hc, Ex. subst. apply N.eqb_refl.
  - right. unfold eqc in Ht. by apply N.eqb_eq in Ht.
Qed.

Lemma take2_collapse_newlines s : take 2 (collapse_newlines s) = take 2 s.
Proof.
  induction s as [|c t IH]; simpl; [done|].
  destruct (eqc c LF && head_is LF t && head_is LF (tail t)) eqn:E.
  - apply andb_true_iff in E as [E H3]. apply andb_true_iff in E as [Hc H2].
    apply head_is_true in H2 as [t' ->]. simpl in H3.
    apply head_is_true in H3 as [t'' ->]. rewrite IH.
    unfold eqc in Hc. apply N.eqb_eq in Hc. by subst.
  - simpl. f_equal.
    assert (H : take 1 (take 2 (collapse_newlines t)) = take 1 (take 2 t))
      by (by rewrite IH).
    by rewrite !take_take in H.
Qed.

Lemma head_is_take2 x s : head_is x (take 2 s) = head_is x s.
Proof. by destruct s. Qed.

Lemma two_lf_take2 s : two_lf (take 2 s) = two_lf s.
Proof. by destruct s as [|a [|b t]]. Qed.

Lemma head_collapse_newlines x s : head_is x (collapse_newlines s) = head_is x s.
Proof. by rewrite <- head_is_take2, take2_collapse_newlines, head_is_take2. Qed.

Lemma two_lf_collapse_newlines s : two_lf (collapse_newlines s) = two_lf s.
Proof. by rewrite <- two_lf_take2, take2_collapse_newlines, two_lf_take2. Qed.

Lemma spaces_then_lf_strip_trailing s :
  spaces_then_lf (strip_trailing_spaces s) = spaces_then_lf s.
Proof.
  induction s as [|c t IH]; simpl; [done|].
  destruct (eqc c SP) eqn:Ec; simpl.
  - destruct (spaces_then_lf t) eqn:Et; simpl; [by rewrite IH|].
    by rewrite Ec, IH.
  - by rewrite Ec.
Qed.

Lemma spaces_then_lf_collapse_newlines s :
  spaces_then_lf (collapse_newlines s) = spaces_then_lf s.
Proof.
  induction s as [|c t IH]; simpl; [done|].
  destruct (eqc c LF && head_is LF t && head_is LF (tail t)) eqn:E.
  - apply andb_true_iff in E as [E H3]. apply andb_true_iff in E as [Hc H2].
    unfold eqc in Hc. apply N.eqb_eq in Hc. subst c.
    apply head_is_true in H2 as [t' ->]. rewrite IH. reflexivity.
  - simpl. by rewrite IH.
Qed.

(** *** Texts the substitutions leave unchanged *)

Lemma collapse_spaces_fix s : has_double_space s = false -> collapse_spaces s = s.
Proof.
  induction s as [|c t IH]; simpl; [done|].
  intros [H1 H2]%orb_false_iff. rewrite H1. f_equal. auto.
Qed.

Lemma strip_trailing_spaces_fix s :
  has_trailing_space s = false -> strip_trailing_spaces s = s.
Proof.
  induction s as [|c t IH]; simpl; [done|].
  intros [H1 H2]%orb_false_iff. rewrite H1. f_equal. auto.
Qed.

Lemma collapse_newlines_fix s : has_triple_lf s = false -> collapse_newlines s = s.
Proof.
  induction s as [|c t IH]; simpl; [done|].
  intros [H1 H2]%orb_false_iff. rewrite H1. f_equal. auto.
Qed.

Lemma crlf_to_lf_fix s : Forall no_cr s -> crlf_to_lf s = s.
Proof.
  induction 1 as [|c t Hc Ht IH]; simpl; [done|].
  unfold eqc at 1. destruct (N.eqb_spec c CR) as [->|_]; [done|].
  simpl. by f_equal.
Qed.

Lemma cr_to_lf_fix s : Forall no_cr s -> cr_to_lf s = s.
Proof.
  induction 1 as [|c t Hc Ht IH]; simpl; [done|].
  unfold eqc at 1. destruct (N.eqb_spec c CR) as [->|_]; [done|].
  by f_equal.
Qed.

Lemma fix_quotes_fix s : Forall no_low_quote s -> fix_quotes s = s.
Proof.
  unfold fix_quotes.
  induction 1 as [|c t [H1 H2] Ht IH]; simpl; [done|].
  f_equal; [|done]. unfold fix_single, fix_double, eqc.
  destruct (N.eqb_spec c LOW9); [done|].
  destruct (N.eqb_spec c DQUOTE); [done|].
  by destruct (N.eqb_spec c LOW99).
Qed.

Lemma rstrip_idem s : rstrip (rstrip s) = rstrip s.
Proof.
  induction s as [|c t IH]; simpl; [done|].
  destruct (rstrip t) as [|d r] eqn:E.
  - destruct (isspace c) eqn:Ec; simpl; [done|]. by rewrite Ec.
  - simpl in *. by rewrite IH.
Qed.

Lemma rstrip_head s :
  match s with c :: _ => isspace c = false | [] => True end ->
  match rstrip s with c :: _ => isspace c = false | [] => True end.
Proof.
  destruct s as [|c t]; simpl; [done|]. intros Hc.
  destruct (rstrip t); [by rewrite Hc|done].
Qed.

Lemma lstrip_head s :
  match lstrip s with c :: _ => isspace c = false | [] => True end.
Proof.
  induction s as [|c t IH]; simpl; [done|].
  by destruct (isspace c) eqn:E.
Qed.

Lemma strip_idem s : strip (strip s) = strip s.
Proof.
  unfold strip.
  pose proof (rstrip_head _ (lstrip_head s)) as H.
  destruct (rstrip (lstrip s)) as [|c r] eqn:E; [done|].
  simpl lstrip. rewrite H. by rewrite <- E, rstrip_idem.
Qed.

Section WithUnicode.
Context {U : UnicodeData}.

Lemma strip_control_fix s :
  Forall (fun c => keep c = true) s -> strip_control s = s.
Proof.
  unfold strip_control.
  induction 1 as [|c t Hc Ht IH]; simpl; [done|]. rewrite Hc. by f_equal.
Qed.

Lemma keep_strip_control s : Forall (fun c => keep c = true) (strip_control s).
Proof.
  unfold strip_control. induction s as [|c t IH]; simpl; [constructor|].
  destruct (keep c) eqn:E; [by constructor|done].
Qed.

Lemma keep_cr_to_lf s :
  Forall (fun c => keep c = true) s -> Forall (fun c => keep c = true) (cr_to_lf s).
Proof.
  induction 1 as [|c t Hc Ht IH]; simpl; constructor; [|done].
  unfold eqc at 1. destruct (N.eqb_spec c CR); [|done].
  unfold keep. by rewrite orb_true_r.
Qed.

Lemma keep_fix_quotes s :
  category_C SQUOTE = false -> category_C DQUOTE = false ->
  Forall (fun c => keep c = true) s -> Forall (fun c => keep c = true) (fix_quotes s).
Proof.
  intros Hs Hd. unfold fix_quotes.
  induction 1 as [|c t Hc Ht IH]; simpl; constructor; [|done].
  unfold fix_single, fix_double, eqc.
  destruct (N.eqb_spec c LOW9) as [->|_].
  - simpl. unfold keep. by rewrite Hs.
  - destruct (N.eqb_spec c DQUOTE); simpl; [unfold keep; by rewrite Hd|].
    destruct (N.eqb_spec c LOW99); simpl; [unfold keep; by rewrite Hd|done].
Qed.

End WithUnicode.

(** *** What each substitution leaves nothing of *)

Lemma no_double_space_collapse s : has_double_space (collapse_spaces s) = false.
Proof.
  induction s as [|c t IH]; simpl; [done|].
  destruct (eqc c SP && head_is SP t) eqn:E; [done|].
  simpl. by rewrite head_collapse_spaces, E, IH.
Qed.

Lemma no_trailing_space_strip s :
  has_trailing_space (strip_trailing_spaces s) = false.
Proof.
  induction s as [|c t IH]; simpl; [done|].
  destruct (eqc c SP && spaces_then_lf t) eqn:E; [done|].
  simpl. by rewrite spaces_then_lf_strip_trailing, E, IH.
Qed.

Lemma no_triple_lf_collapse s : has_triple_lf (collapse_newlines s) = false.
Proof.
  induction s as [|c t IH]; simpl; [done|].
  destruct (eqc c LF && head_is LF t && head_is LF (tail t)) eqn:E; [done|].
  simpl. rewrite IH, orb_false_r.
  pose proof (two_lf_collapse_newlines t) as H. unfold two_lf in H.
  by rewrite <- andb_assoc, H, andb_assoc.
Qed.

Lemma no_cr_cr_to_lf s : Forall no_cr (cr_to_lf s).
Proof.
  induction s as [|c t IH]; simpl; constructor; [|done].
  unfold no_cr, eqc. by destruct (N.eqb_spec c CR).
Qed.

Lemma no_low_quote_fix_quotes s : Forall no_low_quote (fix_quotes s).
Proof.
  unfold fix_quotes. induction s as [|c t IH]; simpl; constructor; [|done].
  unfold no_low_quote, fix_single, fix_double, eqc.
  destruct (N.eqb_spec c LOW9) as [->|?]; [done|].
  destruct (N.eqb_spec c DQUOTE) as [->|?]; [done|].
  by destruct (N.eqb_spec c LOW99) as [->|?].
Qed.

(** *** Each shape survives the later substitutions *)

Section Renaming.
Context (f : N -> N).
Hypothesis Hsp : forall c, eqc (f c) SP = eqc c SP.
Hypothesis Hlf : forall c, eqc (f c) LF = eqc c LF.

Lemma head_is_sp_map s : head_is SP (List.map f s) = head_is SP s.
Proof. destruct s; simpl; [done|apply Hsp]. Qed.

Lemma head_is_lf_map s : head_is LF (List.map f s) = head_is LF s.
Proof. destruct s; simpl; [done|apply Hlf]. Qed.

Lemma has_double_space_map s :
  has_double_space (List.map f s) = has_double_space s.
Proof.
  induction s as [|c t IH]; simpl; [done|].
  by rewrite Hsp, head_is_sp_map, IH.
Qed.

Lemma spaces_then_lf_map s : spaces_then_lf (List.map f s) = spaces_then_lf s.
Proof.
  induction s as [|c t IH]; simpl; [done|]. by rewrite Hsp, Hlf, IH.
Qed.

Lemma has_trailing_space_map s :
  has_trailing_space (List.map f s) = has_trailing_space s.
Proof.
  induction s as [|c t IH]; simpl; [done|].
  by rewrite Hsp, spaces_then_lf_map, IH.
Qed.

Lemma has_triple_lf_map s : has_triple_lf (List.map f s) = has_triple_lf s.
Proof.
  induction s as [|c t IH]; simpl; [done|].
  rewrite Hlf, head_is_lf_map, IH. do 2 f_equal.
  destruct t as [|a t']; simpl; [done|]. apply head_is_lf_map.
Qed.

End Renaming.

Lemma cr_to_lf_sp c : eqc (if eqc c CR then LF else c) SP = eqc c SP.
Proof. unfold eqc. by destruct (N.eqb_spec c CR) as [->|?]. Qed.

Lemma fix_single_sp c : eqc (fix_single c) SP = eqc c SP.
Proof. unfold fix_single, eqc. by destruct (N.eqb_spec c LOW9) as [->|?]. Qed.

Lemma fix_single_lf c : eqc (fix_single c) LF = eqc c LF.
Proof. unfold fix_single, eqc. by destruct (N.eqb_spec c LOW9) as [->|?]. Qed.

Lemma fix_double_sp c : eqc (fix_double c) SP = eqc c SP.
Proof.
  unfold fix_double, eqc. destruct (N.eqb_spec c DQUOTE) as [->|?]; [done|].
  by destruct (N.eqb_spec c LOW99) as [->|?].
Qed.

Lemma fix_double_lf c : eqc (fix_double c) LF = eqc c LF.
Proof.
  unfold fix_double, eqc. destruct (N.eqb_spec c DQUOTE) as [->|?]; [done|].
  by destruct (N.eqb_spec c LOW99) as [->|?].
Qed.

Lemma no_cr_fix_quotes s : Forall no_cr s -> Forall no_cr (fix_quotes s).
Proof.
  unfold fix_quotes. induction 1 as [|c t Hc Ht IH]; simpl; constructor; [|done].
  unfold no_cr, fix_single, fix_double, eqc in *.
  destruct (N.eqb_spec c LOW9) as [->|?]; [done|].
  destruct (N.eqb_spec c DQUOTE) as [->|?]; [done|].
  by destruct (N.eqb_spec c LOW99) as [->|?].
Qed.

Lemma no_double_space_crlf s :
  has_double_space s = false -> has_double_space (crlf_to_lf s) = false.
Proof.
  induction s as [|c t IH]; simpl; [done|].
  intros [H1 H2]%orb_false_iff.
  destruct (eqc c CR && head_is LF t) eqn:E; [auto|].
  simpl. rewrite IH, orb_false_r by done.
  destruct (eqc c SP); [simpl in *|done].
  destruct (head_is SP (crlf_to_lf t)) eqn:Eh; [|done].
  apply head_crlf_to_lf in Eh as [Eh|Eh]; [congruence|discriminate].
Qed.

Lemma no_double_space_strip_trailing s :
  has_double_space s = false -> has_double_space (strip_trailing_spaces s) = false.
Proof.
  induction s as [|c t IH]; simpl; [done|].
  intros [H1 H2]%orb_false_iff.
  destruct (eqc c SP && spaces_then_lf t) eqn:E; [auto|].
  simpl. rewrite IH, orb_false_r by done.
  destruct (eqc c SP); [simpl in *|done].
  destruct (head_is SP (strip_trailing_spaces t)) eqn:Eh; [|done].
  apply head_strip_trailing_spaces in Eh as [Eh|Eh]; [congruence|discriminate].
Qed.

Lemma no_double_space_collapse_newlines s :
  has_double_space s = false -> has_double_space (collapse_newlines s) = false.
Proof.
  induction s as [|c t IH]; simpl; [done|].
  intros [H1 H2]%orb_false_iff.
  destruct (eqc c LF && head_is LF t && head_is LF (tail t)); [auto|].
  simpl. by rewrite head_collapse_newlines, H1, IH.
Qed.

Lemma no_trailing_space_collapse_newlines s :
  has_trailing_space s = false -> has_trailing_space (collapse_newlines s) = false.
Proof.
  induction s as [|c t IH]; simpl; [done|].
  intros [H1 H2]%orb_false_iff.
  destruct (eqc c LF && head_is LF t && head_is LF (tail t)); [auto|].
  simpl. by rewrite spaces_then_lf_collapse_newlines, H1, IH.
Qed.

(** The shapes are inherited by every contiguous part of a text. *)

Lemma has_double_space_infix w1 s w2 :
  has_double_space (w1 ++ s ++ w2) = false -> has_double_space s = false.
Proof.
  induction w1 as [|c w1 IH]; simpl.
  - induction s as [|c t IH]; simpl; [done|].
    intros [H1 H2]%orb_false_iff. rewrite IH, orb_false_r by done.
    destruct (eqc c SP); [simpl in *|done].
    destruct (head_is SP t) eqn:E; [|done].
    by rewrite (head_is_app _ _ w2 E) in H1.
  - intros [_ H]%orb_false_iff. auto.
Qed.

Lemma has_trailing_space_infix w1 s w2 :
  has_trailing_space (w1 ++ s ++ w2) = false -> has_trailing_space s = false.
Proof.
  induction w1 as [|c w1 IH]; simpl.
  - induction s as [|c t IH]; simpl; [done|].
    intros [H1 H2]%orb_false_iff. rewrite IH, orb_false_r by done.
    destruct (eqc c SP); [simpl in *|done].
    destruct (spaces_then_lf t) eqn:E; [|done].
    by rewrite (spaces_then_lf_app _ w2 E) in H1.
  - intros [_ H]%orb_false_iff. auto.
Qed.

Lemma has_triple_lf_infix w1 s w2 :
  has_triple_lf (w1 ++ s ++ w2) = false -> has_triple_lf s = false.
Proof.
  induction w1 as [|c w1 IH]; simpl.
  - induction s as [|c t IH]; simpl; [done|].
    intros [H1 H2]%orb_false_iff. rewrite IH, orb_false_r by done.
    destruct (eqc c LF); [simpl in *|done].
    destruct t as [|a [|b t']]; simpl in *; [done|by rewrite andb_false_r|done].
  - intros [_ H]%orb_false_iff. auto.
Qed.

(** *** The shape of a normalized text *)

Section WithUnicode.
Context {U : UnicodeData}.

Lemma normalize_normal (T : str) :
  category_C SQUOTE = false -> category_C DQUOTE = false ->
  normal (normalize T).
Proof.
  intros Hs Hd. destruct T as [|c0 T0].
  { by split. }
  unfold normalize. set (s0 := nfkc (c0 :: T0)).
  set (s5 := collapse_newlines _).
  assert (K : Forall (fun c => keep c = true) s5).
  { apply Forall_collapse_newlines, Forall_strip_trailing_spaces, keep_cr_to_lf,
      Forall_crlf_to_lf, Forall_collapse_spaces, keep_strip_control. }
  assert (D : has_double_space s5 = false).
  { apply no_double_space_collapse_newlines, no_double_space_strip_trailing.
    unfold cr_to_lf. rewrite has_double_space_map by apply cr_to_lf_sp.
    apply no_double_space_crlf, no_double_space_collapse. }
  assert (C : Forall no_cr s5).
  { apply Forall_collapse_newlines, Forall_strip_trailing_spaces, no_cr_cr_to_lf. }
  assert (S5 : has_trailing_space s5 = false).
  { apply no_trailing_space_collapse_newlines, no_trailing_space_strip. }
  assert (N5 : has_triple_lf s5 = false) by apply no_triple_lf_collapse.
  set (s6 := fix_quotes s5).
  assert (D6 : has_double_space s6 = false).
  { unfold s6, fix_quotes.
    rewrite (has_double_space_map _ fix_double_sp).
    by rewrite (has_double_space_map _ fix_single_sp). }
  assert (S6 : has_trailing_space s6 = false).
  { unfold s6, fix_quotes.
    rewrite (has_trailing_space_map _ fix_double_sp fix_double_lf).
    by rewrite (has_trailing_space_map _ fix_single_sp fix_single_lf). }
  assert (N6 : has_triple_lf s6 = false).
  { unfold s6, fix_quotes. rewrite (has_triple_lf_map _ fix_double_lf).
    by rewrite (has_triple_lf_map _ fix_single_lf). }
  destruct (strip_infix s6) as (w1 & w2 & E).
  split.
  - by apply Forall_strip, keep_fix_quotes.
  - apply (has_double_space_infix w1 _ w2). by rewrite <- E.
  - by apply Forall_strip, no_cr_fix_quotes.
  - apply (has_trailing_space_infix w1 _ w2). by rewrite <- E.
  - apply (has_triple_lf_infix w1 _ w2). by rewrite <- E.
  - apply Forall_strip, no_low_quote_fix_quotes.
  - apply strip_idem.
Qed.

Lemma normalize_fix (R : str) : normal R -> nfkc R = R -> normalize R = R.
Proof.
  intros [K D C S5 N5 Q St] Hn. destruct R as [|c0 R0]; [done|].
  unfold normalize. rewrite Hn.
  rewrite (strip_control_fix _ K), (collapse_spaces_fix _ D).
  rewrite (crlf_to_lf_fix _ C), (cr_to_lf_fix _ C).
  rewrite (strip_trailing_spaces_fix _ S5), (collapse_newlines_fix _ N5).
  by rewrite (fix_quotes_fix _ Q).
Qed.

(** C5 (as amended).  [normalize] is idempotent on every text whose
    normalized form is stable under NFKC, in a Unicode database where the two
    straight quotes are not of category C: for such a text [T],
    [normalize(normalize(T)) == normalize(T)].  Every step after the first
    leaves a normalized text unchanged; only the NFKC step, which runs before
    the control and format characters are removed, can change it again. *)
Theorem normalize_idempotent_if_nfkc_stable (T : str) :
  category_C SQUOTE = false -> category_C DQUOTE = false ->
  nfkc (normalize T) = normalize T ->
  normalize (normalize T) = normalize T.
Proof.
  intros Hs Hd Hn. apply normalize_fix; [by apply normalize_normal|done].
Qed.

End WithUnicode.

Lemma normalize_idempotent_if_nfkc_stable_witness :
  let T := (py "  This  agreement   is " ++ [CR; LF; LF; LF; 8222; 233])%N in
  @normalize UcdExcerpt.ucd (@normalize UcdExcerpt.ucd T) = @normalize UcdExcerpt.ucd T.
Proof.
  intros T.
  apply (@normalize_idempotent_if_nfkc_stable UcdExcerpt.ucd T); reflexivity.
Defined.

(** C5 (as stated) fails: U+200B ZERO WIDTH SPACE (category Cf) keeps
    NFKC from composing [e] with U+0301; the first pass removes it, and the
    second pass composes the two into U+00E9. *)
Lemma normalize_not_idempotent :
  let T := [101; 8203; 769]%N in
  @normalize UcdExcerpt.ucd T = [101; 769]%N /\
  @normalize UcdExcerpt.ucd (@normalize UcdExcerpt.ucd T) = [233]%N /\
  @normalize UcdExcerpt.ucd (@normalize UcdExcerpt.ucd T) <> @normalize UcdExcerpt.ucd T.
Proof. repeat split. discriminate. Qed.

End NormalizerFacts.

(** ** ContractProcessor *)

Module ProcessorFacts.
Import TextNormalizer Processor Fixtures.

Lemma nonempty_false {A} (l : list A) : nonempty l = false -> l = [].
Proof. by destruct l. Qed.

(** *** PDF extraction *)

(** The text the page loop accumulates: every non-empty page text followed
    by a line feed. *)
Lemma pdf_loop_ok (texts : list str) (acc : str) :
  pdf_loop (List.map Ok texts) acc
  = Ok (acc ++ concat (List.map (fun t => t ++ [LF]) (List.filter nonempty texts))).
Proof.
  revert acc. induction texts as [|t texts IH]; intros acc; simpl.
  - by rewrite app_nil_r.
  - destruct (nonempty t) eqn:E; simpl.
    + rewrite IH. by rewrite <- !app_assoc.
    + apply IH.
Qed.

Lemma concat_terminated (parts : list str) :
  parts <> [] ->
  concat (List.map (fun t => t ++ [LF]) parts) = join [LF] parts ++ [LF].
Proof.
  induction parts as [|p [|q rest] IH]; intros Hne; [done|simpl|].
  - by rewrite app_nil_r.
  - change (concat (List.map (fun t => t ++ [LF]) (p :: q :: rest)))
      with ((p ++ [LF]) ++ concat (List.map (fun t => t ++ [LF]) (q :: rest))).
    rewrite IH by done.
    change (join [LF] (p :: q :: rest)) with (p ++ [LF] ++ join [LF] (q :: rest)).
    by rewrite <- !app_assoc.
Qed.

Section WithWorld.
Context {U : UnicodeData}.
Variable path_exists : str -> bool.
Variable path_suffix : str -> str.
Variable pdf_pages : str -> result (list (result str)).
Variable docx_paragraphs : str -> result (list str).

(** C7 (as amended).  When every page of the PDF is read, the extraction
    appends each non-empty page text followed by a line feed, skipping the
    pages that yield no text: the result is the non-empty page texts joined
    by line feeds and followed by one more line feed.  When that text is
    empty or all whitespace (in particular when no page yields text) the
    result is the empty string, and nothing is raised. *)
Theorem extract_from_pdf_pages (file_path : str) (texts : list str) :
  pdf_pages file_path = Ok (List.map Ok texts) ->
  let yielded := List.filter nonempty texts in
  let body := concat (List.map (fun t => t ++ [LF]) yielded) in
  _extract_from_pdf pdf_pages file_path
    = Ok (if nonempty (strip body) then body else [])
  /\ (yielded <> [] -> body = join [LF] yielded ++ [LF])
  /\ (yielded = [] -> _extract_from_pdf pdf_pages file_path = Ok []).
Proof.
  intros Hp yielded body.
  assert (E : _extract_from_pdf pdf_pages file_path
              = Ok (if nonempty (strip body) then body else [])).
  { unfold _extract_from_pdf. rewrite Hp. simpl.
    rewrite pdf_loop_ok. simpl. fold yielded. fold body.
    by destruct (nonempty (strip body)). }
  split; [done|]. split.
  - apply concat_terminated.
  - intros Hy. rewrite E. unfold body. by rewrite Hy.
Qed.

(** C6.  For a file that exists and has a supported extension, and whose
    extractor ([_extract_from_pdf] for [.pdf], [_extract_from_docx] for
    [.docx] and [.doc]) returns the text [raw]: [extract_text] called with
    [clean = True] on a processor built with [normalize_text = True] returns
    [raw] passed through [TextNormalizer.normalize]; on a processor built
    with [normalize_text = False] it returns [raw] itself, the flag having
    disabled the cleanup; and with [clean = False] it returns [raw] whatever
    the flag. *)
Theorem extract_text_clean (file_path raw : str) :
  path_exists file_path = true ->
  (lower (path_suffix file_path) = py ".pdf"
   /\ _extract_from_pdf pdf_pages file_path = Ok raw)
  \/ ((lower (path_suffix file_path) = py ".docx"
       \/ lower (path_suffix file_path) = py ".doc")
      /\ _extract_from_docx docx_paragraphs file_path = Ok raw) ->
  extract_text path_exists path_suffix pdf_pages docx_paragraphs
    (init true) file_path true = Ok (normalize raw)
  /\ extract_text path_exists path_suffix pdf_pages docx_paragraphs
       (init false) file_path true = Ok raw
  /\ (forall b,
        extract_text path_exists path_suffix pdf_pages docx_paragraphs
          (init b) file_path false = Ok raw).
Proof.
  intros He Hx. unfold extract_text, init.
  cbn [supported_formats normalize_text]. rewrite He. cbn [negb].
  destruct Hx as [[-> Hr]|[[-> | ->] Hr]]; simpl; rewrite Hr; done.
Qed.

End WithWorld.

Lemma extract_from_pdf_pages_witness :
  _extract_from_pdf three_pages (py "c.pdf")
  = Ok (py "First  page" ++ [LF] ++ py "Third page" ++ [LF]).
Proof.
  exact (proj1 (extract_from_pdf_pages three_pages (py "c.pdf")
                  [py "First  page"; []; py "Third page"] eq_refl)).
Defined.

(** C7 (as stated) fails: the result is not the page texts joined with a
    line-feed separator, a line feed follows the last page as well. *)
Lemma extract_from_pdf_not_joined :
  _extract_from_pdf three_pages (py "c.pdf")
    = Ok (py "First  page" ++ [LF] ++ py "Third page" ++ [LF])
  /\ _extract_from_pdf three_pages (py "c.pdf")
     <> Ok (join [LF] [py "First  page"; py "Third page"]).
Proof. split; [reflexivity|discriminate]. Qed.

Lemma extract_text_clean_witness :
  extract_text (U := UcdExcerpt.ucd) (fun _ => true) (fun _ => py ".PDF") three_pages
    (fun _ => Ok []) (init true) (py "C.PDF") true
  = Ok (py "First page" ++ [LF] ++ py "Third page")
  /\ extract_text (U := UcdExcerpt.ucd) (fun _ => true) (fun _ => py ".PDF") three_pages
       (fun _ => Ok []) (init false) (py "C.PDF") true
     = Ok (py "First  page" ++ [LF] ++ py "Third page" ++ [LF]).
Proof.
  destruct (extract_text_clean (U := UcdExcerpt.ucd) (fun _ => true) (fun _ => py ".PDF")
              three_pages (fun _ => Ok []) (py "C.PDF")
              (py "First  page" ++ [LF] ++ py "Third page" ++ [LF])
              eq_refl (or_introl (conj eq_refl eq_refl))) as (H1 & H2 & _).
  split; [exact H1|exact H2].
Defined.

Example extract_text_flag_off :
  extract_text (U := UcdExcerpt.ucd) (fun _ => true) (fun _ => py ".pdf") three_pages
    (fun _ => Ok []) (init false) (py "c.pdf") true
  = Ok (py "First  page" ++ [LF] ++ py "Third page" ++ [LF]).
Proof. reflexivity. Qed.

(** *** Validation *)

Lemma contract_keywords_distinct : List.NoDup contract_keywords.
Proof. apply NoDup_ListNoDup. apply (bool_decide_unpack _). by vm_compute. Qed.

Lemma filter_two {A} (p : A -> bool) (l : list A) :
  List.NoDup l ->
  (2 <= length (List.filter p l))%nat <->
  exists a b, a <> b /\ In a l /\ In b l /\ p a = true /\ p b = true.
Proof.
  intros Hnd. pose proof (List.NoDup_filter p Hnd) as Hf. split.
  - destruct (List.filter p l) as [|a [|b r]] eqn:E; simpl; [lia|lia|]. intros _.
    assert (Ha : In a (List.filter p l)) by (rewrite E; simpl; auto).
    assert (Hb : In b (List.filter p l)) by (rewrite E; simpl; auto).
    apply filter_In in Ha as [Ha1 Ha2]. apply filter_In in Hb as [Hb1 Hb2].
    exists a, b. repeat split; try done.
    intros ->. apply List.NoDup_cons_iff in Hf as [Hf _]. apply Hf. by left.
  - intros (a & b & Hab & Ha & Hb & Hpa & Hpb).
    assert (Ha' : In a (List.filter p l)) by (by apply filter_In).
    assert (Hb' : In b (List.filter p l)) by (by apply filter_In).
    destruct (List.filter p l) as [|x [|y r]]; simpl in *; [done| |lia].
    destruct Ha' as [<-|[]], Hb' as [<-|[]]. done.
Qed.

(** C8.  A text shorter than [min_length] is rejected on its length alone:
    the result records the length issue only, whatever the text contains and
    whatever the Unicode database says (the keyword scan is not reached).  A
    text of sufficient length is valid exactly when two distinct keywords of
    the fixed list occur in its lower-cased form.  The function is total: it
    returns a result for every text and every threshold. *)
Theorem validate_contract_text_spec (U : UnicodeData) (T : str) (min_length : Z) :
  ((Z.of_nat (length T) < min_length)%Z ->
     validate_contract_text T min_length
     = {| is_valid := false; length_ok := false; has_contract_keywords := false;
          issues := [py "Text too short (" ++ str_of_Z (Z.of_nat (length T))
                     ++ py " chars, need " ++ str_of_Z min_length ++ py ")"];
          found_keywords := None |})
  /\ ((min_length <= Z.of_nat (length T))%Z ->
      length_ok (validate_contract_text T min_length) = true
      /\ (is_valid (validate_contract_text T min_length) = true <->
          exists k1 k2, k1 <> k2 /\ In k1 contract_keywords /\ In k2 contract_keywords
                        /\ contains k1 (lower T) = true /\ contains k2 (lower T) = true)).
Proof.
  unfold validate_contract_text. split; intros Hlen.
  - apply Z.ltb_lt in Hlen. by rewrite Hlen.
  - apply Z.ltb_ge in Hlen. rewrite Hlen.
    set (p := fun kw => contains kw (lower T)).
    pose proof (filter_two p contract_keywords contract_keywords_distinct) as Hft.
    destruct (length (List.filter p contract_keywords) <? 2)%nat eqn:E; simpl.
    + apply Nat.ltb_lt in E. split; [done|]. split; [done|].
      intros H. apply Hft in H. lia.
    + apply Nat.ltb_ge in E. split; [done|]. split; [|done].
      intros _. by apply Hft.
Qed.

Lemma validate_contract_text_spec_witness :
  is_valid (validate_contract_text (U := UcdExcerpt.ucd) (py "This Agreement binds the parties.") 100)
    = false
  /\ is_valid (validate_contract_text (U := UcdExcerpt.ucd) (py "This Agreement binds the PARTIES.") 20)
    = true.
Proof.
  split.
  - rewrite (proj1 (validate_contract_text_spec UcdExcerpt.ucd
                      (py "This Agreement binds the parties.") 100)); [done|].
    vm_compute. reflexivity.
  - apply (proj2 (validate_contract_text_spec UcdExcerpt.ucd
                    (py "This Agreement binds the PARTIES.") 20)).
    + vm_compute. discriminate.
    + exists (py "agreement"), (py "parties").
      repeat split; try (vm_compute; tauto). vm_compute. discriminate.
Defined.

(** *** Statistics *)

(** C9.  [get_text_stats] raises for no text: both divisions are guarded by
    the list they divide by.  An average is the integer [0] exactly when there
    are no words (respectively no sentences), and a rounded quotient with a
    non-zero denominator otherwise.  On the empty string every count and both
    averages are zero. *)
Theorem get_text_stats_total (text : str) :
  (exists st, get_text_stats text = Ok st
     /\ characters st = length text
     /\ (words st = 0%nat -> avg_word_length st = AvgZero)
     /\ (sentences st = 0%nat -> avg_sentence_length st = AvgZero)
     /\ (forall n d, avg_word_length st = AvgRound1 n d -> d = words st /\ d <> 0%nat)
     /\ (forall n d, avg_sentence_length st = AvgRound1 n d ->
                      n = words st /\ d = sentences st /\ d <> 0%nat))
  /\ get_text_stats []
     = Ok {| characters := 0; words := 0; sentences := 0; paragraphs := 0;
             avg_word_length := AvgZero; avg_sentence_length := AvgZero |}.
Proof.
  split; [|reflexivity].
  unfold get_text_stats.
  set (ws := split_ws text).
  set (ss := List.filter _ (re_split_stops text)).
  set (ps := List.filter _ (split _ text)).
  destruct ws as [|w ws']; destruct ss as [|s ss']; simpl;
    eexists; (split; [reflexivity|]); simpl;
    repeat split; try done; by simplify_eq.
Qed.

Example get_text_stats_ex :
  get_text_stats (py "Hi there. Bye!" ++ [LF; LF] ++ py "ok")
  = Ok {| characters := 18; words := 4; sentences := 3; paragraphs := 2;
          avg_word_length := AvgRound1 14 4; avg_sentence_length := AvgRound1 4 3 |}.
Proof. reflexivity. Qed.

Example get_text_stats_dots :
  get_text_stats (py "...")
  = Ok {| characters := 3; words := 1; sentences := 0; paragraphs := 1;
          avg_word_length := AvgRound1 3 1; avg_sentence_length := AvgZero |}.
Proof. reflexivity. Qed.

End ProcessorFacts.

(** ** json.loads *)

Module JsonFacts.

Import Fixtures.

Example loads_object :
  json_loads (Py := an_interpreter)
    (js "{'summary': 'ok', 'red_flags': [], 'n': [1, -2.50e1, null, true]}")
  = Ok (PDict [(py "summary", PStr (py "ok")); (py "red_flags", PList []);
               (py "n", PList [PInt 1; PFloat true 250 (-1); PNone; PBool true])]).
Proof. reflexivity. Qed.

Example loads_scalar :
  let loads := json_loads (Py := an_interpreter) in
  let rejected s := exists e, loads s = Raise e /\ exn_cls e = JSONDecodeError in
  loads (py "123") = Ok (PInt 123)
  /\ loads (py " [1] ") = Ok (PList [PInt 1])
  /\ rejected (py "01") /\ rejected (py "1.") /\ rejected (py "[1,]")
  /\ rejected (py "garbage")
  /\ loads (js "{'a':1,'a':2,'b':'\u00e9\n'}")
     = Ok (PDict [(py "a", PInt 2); (py "b", PStr [233; 10]%N)])
  /\ loads (js "'\ud83d\ude00'") = Ok (PStr [128512]%N).
Proof. repeat split; try reflexivity; by eexists. Qed.

(** An integer literal of 4300 digits is converted, one of 4301 digits
    raises [ValueError]; a float of as many digits is converted. *)
Example loads_long_integer :
  let loads := json_loads (Py := an_interpreter) in
  loads (List.repeat 49%N 4300) = Ok (PInt (Z.of_N (digits_value (List.repeat 49%N 4300))))
  /\ loads (List.repeat 49%N 4301)
     = Raise (Exn ValueError
                (py "Exceeds the limit (4300 digits) for integer string conversion: "
                 ++ py "value has 4301 digits; use sys.set_int_max_str_digits() "
                 ++ py "to increase the limit"))
  /\ loads (45%N :: List.repeat 49%N 4301)
     = Raise (int_digits_error 4300 4301)
  /\ exists m e, loads (List.repeat 49%N 4301 ++ py ".5") = Ok (PFloat false m e).
Proof.
  repeat split; try (vm_compute; reflexivity).
  eexists _, _. vm_compute. reflexivity.
Qed.

(** Nesting deeper than the interpreter has room for raises
    [RecursionError]. *)
Example loads_deep_nesting :
  let tight := {| int_max_str_digits := 4300; recursion_room := 2;
                  decode_error_msg := fun _ => [] |} in
  json_loads (Py := tight) (js "[{'a': 1}]") = Ok (PList [PDict [(py "a", PInt 1)]])
  /\ json_loads (Py := tight) (js "[{'a': [1]}]")
     = Raise (Exn RecursionError
                (py "maximum recursion depth exceeded while decoding a JSON array "
                 ++ py "from a unicode string")).
Proof. split; reflexivity. Qed.

Example truthy_underflow :
  truthy (PFloat false 1 (-400)) = false /\ truthy (PFloat false 1 (-300)) = true.
Proof. split; vm_compute; reflexivity. Qed.

(** *** The scanner never runs out of fuel *)

Lemma skip_ws_length s : (length (skip_ws s) <= length s)%nat.
Proof.
  induction s as [|c t IH]; simpl; [lia|].
  destruct (is_ws c); simpl; lia.
Qed.

Lemma scanstring_length n : forall s acc x r,
  (length s <= n)%nat -> scanstring s acc = Some (x, r) ->
  (length r < length s)%nat.
Proof.
  induction n as [|n IH]; intros s acc x r Hn H;
    destruct s as [|c t]; simpl in H; try done; cbn [length] in *; [lia|].
  repeat case_match; simplify_eq; cbn [length] in *; try lia;
    match goal with
    | H : scanstring _ _ = Some _ |- _ => apply IH in H; cbn [length] in *; lia
    end.
Qed.

Lemma span_digits_nil : span_digits [] = ([], []).
Proof. reflexivity. Qed.

Lemma span_digits_cons c t :
  span_digits (c :: t)
  = if is_digit c then let '(d, r) := span_digits t in (c :: d, r) else ([], c :: t).
Proof. reflexivity. Qed.

Lemma span_digits_length s d r :
  span_digits s = (d, r) -> (length r <= length s)%nat.
Proof.
  revert d r. induction s as [|c t IH]; intros d r;
    rewrite ?span_digits_nil, ?span_digits_cons.
  - intros [= <- <-]. simpl. lia.
  - destruct (is_digit c).
    + destruct (span_digits t) as [d' r'] eqn:E. intros [= <- <-].
      specialize (IH _ _ eq_refl). simpl. lia.
    + intros [= <- <-]. simpl. lia.
Qed.

Lemma span_digits_nonempty s d r :
  span_digits s = (d, r) -> nonempty d = true -> (length r < length s)%nat.
Proof.
  destruct s as [|c t]; rewrite ?span_digits_nil, ?span_digits_cons.
  - by intros [= <- <-].
  - destruct (is_digit c).
    + destruct (span_digits t) as [d' r'] eqn:E. intros [= <- <-] _.
      apply span_digits_length in E. simpl. lia.
    + by intros [= <- <-].
Qed.

Lemma scan_sign_length s neg s1 :
  scan_sign s = (neg, s1) -> (length s1 <= length s)%nat.
Proof.
  unfold scan_sign. intros H.
  repeat case_match; simplify_eq; simpl; lia.
Qed.

Lemma scan_integer_length s d s2 :
  scan_integer s = Some (d, s2) -> (length s2 < length s)%nat.
Proof.
  unfold scan_integer. destruct s as [|c t]; [done|].
  destruct (eqc c 48); [intros [= <- <-]; simpl; lia|].
  destruct (is_digit c) eqn:Ed; [|done].
  rewrite span_digits_cons, Ed.
  destruct (span_digits t) as [d' r'] eqn:Es. intros [= <- <-].
  apply span_digits_length in Es. simpl. lia.
Qed.

Lemma scan_fraction_length s f s3 :
  scan_fraction s = (f, s3) -> (length s3 <= length s)%nat.
Proof.
  unfold scan_fraction. destruct s as [|c t]; [by intros [= <- <-]|].
  destruct (eqc c 46); [|by intros [= <- <-]].
  destruct (span_digits t) as [d' r'] eqn:Es. apply span_digits_length in Es.
  destruct (nonempty d'); intros [= <- <-]; simpl; lia.
Qed.

Lemma scan_exp_sign_length s neg t :
  scan_exp_sign s = (neg, t) -> (length t <= length s)%nat.
Proof.
  unfold scan_exp_sign. intros H.
  repeat case_match; simplify_eq; simpl; lia.
Qed.

Lemma scan_exponent_length s e s4 :
  scan_exponent s = (e, s4) -> (length s4 <= length s)%nat.
Proof.
  unfold scan_exponent. destruct s as [|c t]; [by intros [= <- <-]|].
  destruct (eqc c 101 || eqc c 69); [|by intros [= <- <-]].
  destruct (scan_exp_sign t) as [eneg t'] eqn:E1. apply scan_exp_sign_length in E1.
  destruct (span_digits t') as [d' r'] eqn:Es. apply span_digits_length in Es.
  destruct (nonempty d'); intros [= <- <-]; simpl; lia.
Qed.

Section WithInterpreter.
Context {Py : Interpreter}.

Lemma match_number_length s v r :
  match_number s = Parsed v r -> (length r < length s)%nat.
Proof.
  unfold match_number.
  destruct (scan_sign s) as [neg s1] eqn:E1. apply scan_sign_length in E1.
  destruct (scan_integer s1) as [[d s2]|] eqn:E2; [|done].
  apply scan_integer_length in E2.
  destruct (scan_fraction s2) as [f s3] eqn:E3. apply scan_fraction_length in E3.
  destruct (scan_exponent s3) as [e s4] eqn:E4. apply scan_exponent_length in E4.
  destruct f, e; try (intros [= <- <-]; lia).
  destruct (int_too_long _ _); [done|]. intros [= <- <-]. lia.
Qed.

Lemma match_number_fuel s : match_number s <> OutOfFuel.
Proof.
  unfold match_number. repeat case_match; done.
Qed.


Lemma literal_length w v s v' r :
  w <> EmptyString -> literal w v s = Some (v', r) -> (length r < length s)%nat.
Proof.
  unfold literal. intros Hw. destruct (startswith (py w) s) eqn:E; [|done].
  intros [= <- <-]. destruct w as [|a w]; [done|].
  destruct s as [|c t]; [done|]. simpl. rewrite length_drop. lia.
Qed.

Lemma parse_fuel fuel : forall room s,
  (forall v r, parse_value fuel room s = Parsed v r -> (length r < length s)%nat)
  /\ ((2 * length s + 1 <= fuel)%nat -> parse_value fuel room s <> OutOfFuel)
  /\ (forall acc v r, parse_items fuel room s acc = Parsed v r -> (length r < length s)%nat)
  /\ ((2 * length s + 2 <= fuel)%nat -> forall acc, parse_items fuel room s acc <> OutOfFuel)
  /\ (forall acc v r, parse_members fuel room s acc = Parsed v r ->
        (length r < length s)%nat)
  /\ ((2 * length s + 2 <= fuel)%nat ->
      forall acc, parse_members fuel room s acc <> OutOfFuel).
Proof.
  induction fuel as [|f IH]; intros room s.
  { simpl. repeat split; try done; lia. }
  assert (IHv : forall room s v r, parse_value f room s = Parsed v r ->
                                   (length r < length s)%nat)
    by (intros room' s'; apply (IH room' s')).
  assert (IHvf : forall room s, (2 * length s + 1 <= f)%nat ->
                                parse_value f room s <> OutOfFuel)
    by (intros room' s'; apply (IH room' s')).
  assert (IHi : forall room s acc v r, parse_items f room s acc = Parsed v r ->
                                       (length r < length s)%nat)
    by (intros room' s'; apply (IH room' s')).
  assert (IHif : forall room s, (2 * length s + 2 <= f)%nat ->
                                forall acc, parse_items f room s acc <> OutOfFuel)
    by (intros room' s'; apply (IH room' s')).
  assert (IHm : forall room s acc v r, parse_members f room s acc = Parsed v r ->
                                       (length r < length s)%nat)
    by (intros room' s'; apply (IH room' s')).
  assert (IHmf : forall room s, (2 * length s + 2 <= f)%nat ->
                                forall acc, parse_members f room s acc <> OutOfFuel)
    by (intros room' s'; apply (IH room' s')).
  clear IH.
  repeat split.
  - (* parse_value: the rest is shorter *)
    intros v r. simpl. destruct s as [|c t]; [done|].
    intros H. repeat case_match; simplify_eq; simpl in *;
      repeat match goal with
        | H : scanstring _ _ = Some _ |- _ => apply (scanstring_length _ _ _ _ _ (le_n _)) in H
        | H : skip_ws ?t = _ :: _ |- _ =>
            let L := fresh in pose proof (skip_ws_length t) as L; rewrite H in L; clear H
        | H : parse_items f _ _ _ = Parsed _ _ |- _ => apply IHi in H
        | H : parse_members f _ _ _ = Parsed _ _ |- _ => apply IHm in H
        | H : literal _ _ _ = Some _ |- _ => apply literal_length in H; [|done]
        | H : match_number _ = Parsed _ _ |- _ => apply match_number_length in H
        end; simpl in *; lia.
  - (* parse_value: enough fuel *)
    simpl. destruct s as [|c t]; [done|]. intros Hf.
    repeat case_match; simplify_eq; try done; try apply match_number_fuel;
      match goal with
      | H : skip_ws ?t = _ :: _ |- _ =>
          let L := fresh in pose proof (skip_ws_length t) as L; rewrite H in L
      end;
      [ eapply IHmf | eapply IHif ]; simpl in *; lia.
  - (* parse_items: the rest is shorter *)
    intros acc v r. simpl. intros H.
    repeat case_match; simplify_eq; simpl in *;
      repeat match goal with
        | H : parse_value f _ _ = Parsed _ _ |- _ => apply IHv in H
        | H : skip_ws ?t = _ :: _ |- _ =>
            let L := fresh in pose proof (skip_ws_length t) as L; rewrite H in L; clear H
        | H : parse_items f _ (skip_ws ?t) _ = Parsed _ _ |- _ =>
            apply IHi in H; pose proof (skip_ws_length t)
        end; simpl in *; lia.
  - (* parse_items: enough fuel *)
    intros Hf acc. simpl.
    destruct (parse_value f room s) as [v r| | |] eqn:E; [|done|done|].
    + apply IHv in E.
      repeat case_match; simplify_eq; try done.
      match goal with
      | H : skip_ws ?t = _ :: _ |- _ =>
          let L := fresh in pose proof (skip_ws_length t) as L; rewrite H in L
      end.
      apply IHif. match goal with |- context [skip_ws ?t] => pose proof (skip_ws_length t) end.
      simpl in *. lia.
    + exfalso. revert E. apply IHvf. lia.
  - (* parse_members: the rest is shorter *)
    intros acc v r. simpl. intros H.
    repeat case_match; simplify_eq; simpl in *;
      repeat match goal with
        | H : scanstring _ _ = Some _ |- _ => apply (scanstring_length _ _ _ _ _ (le_n _)) in H
        | H : parse_value f _ (skip_ws ?t) = Parsed _ _ |- _ =>
            apply IHv in H; pose proof (skip_ws_length t)
        | H : parse_members f _ (skip_ws ?t) _ = Parsed _ _ |- _ =>
            apply IHm in H; pose proof (skip_ws_length t)
        | H : skip_ws ?t = _ :: _ |- _ =>
            let L := fresh in pose proof (skip_ws_length t) as L; rewrite H in L; clear H
        end; simpl in *; lia.
  - (* parse_members: enough fuel *)
    intros Hf acc. simpl.
    repeat case_match; simplify_eq; try done;
      repeat match goal with
        | H : scanstring _ _ = Some _ |- _ => apply (scanstring_length _ _ _ _ _ (le_n _)) in H
        | H : parse_value f _ (skip_ws ?t) = _ |- _ =>
            first [ apply IHv in H; pose proof (skip_ws_length t)
                  | exfalso; revert H; apply IHvf; pose proof (skip_ws_length t) ]
        | H : skip_ws ?t = _ :: _ |- _ =>
            let L := fresh in pose proof (skip_ws_length t) as L; rewrite H in L; clear H
        end; simpl in *; try lia.
    apply IHmf. match goal with |- context [skip_ws ?t] => pose proof (skip_ws_length t) end.
    simpl in *. lia.
Qed.

(** The fuel [json_loads] gives the scanner is never used up. *)
Lemma json_loads_fuel s :
  parse_value (enough_fuel s) recursion_room (skip_ws s) <> OutOfFuel.
Proof.
  apply parse_fuel. pose proof (skip_ws_length s). unfold enough_fuel. lia.
Qed.



End WithInterpreter.

End JsonFacts.
(** ** ContractAnalyzer *)

Module AnalyzerFacts.
Import Analyzer Fixtures.

Example parse_fenced :
  parse_text (Py := an_interpreter) (js "```json
{'summary':'ok','red_flags':[]}
```")
  = Ok (PDict [(py "summary", PStr (py "ok")); (py "red_flags", PList [])]).
Proof. reflexivity. Qed.

Example parse_embedded :
  parse_text (Py := an_interpreter) (js "Here is the result: {'summary':'x'} Thanks!")
  = Ok (PDict [(py "summary", PStr (py "x"))]).
Proof. reflexivity. Qed.

(** The form feed is stripped by [str.strip] but is no JSON whitespace: what
    is parsed is the stripped text. *)
Example parse_form_feed :
  json_loads (Py := an_interpreter) (12%N :: py "123")
  = Raise (decode_error (Py := an_interpreter) (12%N :: py "123"))
  /\ parse_text (Py := an_interpreter) (12%N :: py "123") = Ok (PInt 123).
Proof. split; reflexivity. Qed.

Example create_defaults :
  _create_analysis_object (U := UcdExcerpt.ucd)
    (PDict [(py "summary", PStr (py "ok"));
            (py "red_flags", PList [PDict [(py "severity", PStr (py "URGENT"))];
                                    PInt 3;
                                    PDict [(py "severity", PStr (py "High"));
                                           (py "risk_type", PStr (py "Penalty"))]])])
  = Ok {| summary := PStr (py "ok"); key_terms := PDict [];
          red_flags :=
            [ {| clause_text := PStr []; risk_type := PStr []; explanation := PStr [];
                 why_risky := PStr []; suggested_alternative := PStr [];
                 severity := MEDIUM |};
              {| clause_text := PStr []; risk_type := PStr (py "Penalty");
                 explanation := PStr []; why_risky := PStr [];
                 suggested_alternative := PStr []; severity := HIGH |} ];
          risk_score := {| financial_risk := MEDIUM; legal_exposure := MEDIUM;
                           fairness := MEDIUM; missing_clauses := MEDIUM;
                           overall_score := MEDIUM |};
          recommendations := PList []; processing_time := 0 |}.
Proof. reflexivity. Qed.

(** *** Response parsing *)

Lemma split_aux_Forall (P : N -> Prop) sep : forall s k cur,
  Forall P s -> Forall P cur -> Forall (Forall P) (split_aux sep k cur s).
Proof.
  induction s as [|c t IH]; intros k cur Hs Hcur; simpl.
  - constructor; [|constructor]. by apply Forall_rev.
  - apply Forall_cons_1 in Hs as [Hc Ht]. destruct k as [|k]; [|by apply IH].
    destruct (startswith sep (c :: t)).
    + constructor; [by apply Forall_rev|]. apply IH; [done|constructor].
    + apply IH; [done|by constructor].
Qed.

Lemma split_Forall (P : N -> Prop) sep s :
  Forall P s -> Forall (Forall P) (split sep s).
Proof. intros H. apply split_aux_Forall; [done|constructor]. Qed.

Lemma startswith_absent c s :
  Forall (fun x => x <> c) s -> startswith [c] s = false.
Proof.
  destruct s as [|x t]; simpl; [done|]. intros [Hx _]%Forall_cons_1.
  unfold eqc. destruct (N.eqb_spec c x); [by subst|done].
Qed.

Lemma find_absent c s : Forall (fun x => x <> c) s -> find [c] s = None.
Proof.
  induction 1 as [|x t Hx Ht IH].
  - reflexivity.
  - change (find [c] (x :: t))
      with (if startswith [c] (x :: t) then Some 0%nat else S <$> find [c] t).
    rewrite startswith_absent by (by constructor). by rewrite IH.
Qed.

Lemma find_first_none {A} (p : A -> bool) l :
  Forall (fun x => p x = false) l -> List.find p l = None.
Proof. induction 1 as [|x t Hx Ht IH]; simpl; [done|]. by rewrite Hx. Qed.

(** A text without an opening brace is left alone by the fence step. *)
Lemma strip_fence_no_brace ts :
  Forall (fun x => x <> 123%N) ts -> strip_fence ts = ts.
Proof.
  intros H. unfold strip_fence. destruct (startswith fence ts); [|done].
  rewrite find_first_none; [done|].
  eapply Forall_impl; [apply (split_Forall _ fence _ H)|].
  intros p Hp. apply (startswith_absent 123%N).
  by apply NormalizerFacts.Forall_strip.
Qed.

Lemma nonempty_cons {A} (l : list A) : l <> [] -> nonempty l = true.
Proof. by destruct l. Qed.

Section WithInterpreter.
Context {Py : Interpreter}.

(** A text with no opening brace gives what the parse of its stripped form
    gives, a decoding error being turned into the parse failure. *)
Lemma parse_text_no_brace (text : str) :
  text <> [] -> Forall (fun c => c <> 123%N) text ->
  parse_text text
  = match json_loads (strip text) with
    | Ok data => Ok data
    | Raise e => if is_decode_error e then Raise (parse_failed e) else Raise e
    end.
Proof.
  intros Ht Hb. unfold parse_text. rewrite (nonempty_cons _ Ht). cbn [negb].
  assert (Hs : Forall (fun c => c <> 123%N) (strip text))
    by (by apply NormalizerFacts.Forall_strip).
  rewrite (strip_fence_no_brace _ Hs).
  destruct (json_loads (strip text)) as [data|e]; [done|].
  destruct (is_decode_error e); [|done].
  change LBRACE with [123%N]. by rewrite (find_absent 123%N _ Hs).
Qed.

(** X19.  The ordered fallback of [_parse_response], on the text it has
    extracted.  An empty text raises [RuntimeError] (no output).  Otherwise
    the text is stripped and, when it begins with a fence, replaced by the
    first piece between fences that begins with a brace once stripped.  That
    text is parsed: the value of the direct parse is returned, whatever it
    is, and an exception of the parse that is not a decoding error passes
    through.  On a decoding error the part from the first opening brace to
    the last closing brace is parsed instead: its value is returned, an
    exception that is not a decoding error passes through (with the first
    decoding error as context), and a second decoding error, or the absence
    of such a part, raises [RuntimeError] (the parse failure) with the first
    decoding error as context.  In particular a text with no opening brace
    gives what the parse of its stripped form gives, a decoding error being
    turned into the parse failure. *)
Theorem parse_text_fallback (text : str) :
  (text = [] -> parse_text text = Raise no_output)
  /\ (forall ts p, startswith fence ts = true ->
        List.find (fun p => startswith LBRACE (strip p)) (split fence ts) = Some p ->
        strip_fence ts = strip p
        /\ In p (split fence ts) /\ startswith LBRACE (strip p) = true)
  /\ (text <> [] ->
      let t := strip_fence (strip text) in
      (forall data, json_loads t = Ok data -> parse_text text = Ok data)
      /\ (forall e, json_loads t = Raise e -> is_decode_error e = false ->
          parse_text text = Raise e)
      /\ (forall e, json_loads t = Raise e -> is_decode_error e = true ->
          forall i j, find LBRACE t = Some i -> rfind RBRACE t = Some j ->
          (i < j)%nat ->
          parse_text text
          = match json_loads (slice i (j + 1) t) with
            | Ok data => Ok data
            | Raise e' =>
                if is_decode_error e' then Raise (parse_failed e)
                else Raise (raised_in e e')
            end)
      /\ (forall e, json_loads t = Raise e -> is_decode_error e = true ->
          find LBRACE t = None \/ rfind RBRACE t = None
          \/ (exists i j, find LBRACE t = Some i /\ rfind RBRACE t = Some j /\ (j <= i)%nat) ->
          parse_text text = Raise (parse_failed e)))
  /\ (text <> [] -> Forall (fun c => c <> 123%N) text ->
      parse_text text
      = match json_loads (strip text) with
        | Ok data => Ok data
        | Raise e => if is_decode_error e then Raise (parse_failed e) else Raise e
        end).
Proof.
  split; [by intros ->|]. split.
  { intros ts p Hf Hp. unfold strip_fence. rewrite Hf, Hp.
    apply find_some in Hp as [? ?]. done. }
  split.
  - intros Ht t. unfold parse_text. rewrite (nonempty_cons _ Ht). cbn [negb]. fold t.
    split; [|split; [|split]].
    + by intros data ->.
    + by intros e -> ->.
    + intros e -> -> i j -> -> Hij. apply Nat.ltb_lt in Hij. by rewrite Hij.
    + intros e -> -> [->|[->|(i & j & -> & -> & Hij)]]; [done|by destruct (find _ _)|].
      apply Nat.ltb_ge in Hij. by rewrite Hij.
  - apply parse_text_no_brace.
Qed.





End WithInterpreter.

Lemma parse_text_fallback_witness :
  parse_text (Py := an_interpreter) (py "Sorry, I cannot analyze this contract.")
  = Raise (parse_failed (decode_error (Py := an_interpreter)
                           (py "Sorry, I cannot analyze this contract."))).
Proof.
  rewrite (proj2 (proj2 (proj2 (parse_text_fallback (Py := an_interpreter)
             (py "Sorry, I cannot analyze this contract."))))).
  - reflexivity.
  - discriminate.
  - apply (bool_decide_unpack _). by vm_compute.
Defined.

(** *** Structuring *)

Section WithUnicode.
Context {U : UnicodeData}.

(** What [coerce] yields on a dictionary, by the value under the key. *)
Lemma coerce_dict d key :
  lower (py "medium") = py "medium" ->
  coerce (PDict d) key "medium"
  = match dict_lookup (py key) d with
    | None => Ok MEDIUM
    | Some v =>
        if truthy v
        then raw ← lower_of v;
             Ok (default MEDIUM (member raw _value2member_map_))
        else Ok MEDIUM
    end.
Proof.
  intros Hm. unfold coerce, get, or_else. simpl.
  destruct (dict_lookup (py key) d) as [v|]; simpl.
  - destruct (truthy v); simpl.
    + destruct (lower_of v) as [raw|e]; simpl; [|done].
      unfold RiskLevel_call.
      destruct (member raw _value2member_map_) as [r|] eqn:E; [by rewrite E|done].
    + by rewrite Hm.
  - by rewrite Hm.
Qed.

Lemma make_red_flag_dict d :
  make_red_flag (PDict d)
  = (sev ← coerce (PDict d) "severity" "medium";
     Ok {| clause_text := default (PStr []) (dict_lookup (py "clause_text") d);
           risk_type := default (PStr []) (dict_lookup (py "risk_type") d);
           explanation := default (PStr []) (dict_lookup (py "explanation") d);
           why_risky := default (PStr []) (dict_lookup (py "why_risky") d);
           suggested_alternative :=
             default (PStr []) (dict_lookup (py "suggested_alternative") d);
           severity := sev |}).
Proof. reflexivity. Qed.

Lemma collect_red_flags_app l1 l2 :
  collect_red_flags (l1 ++ l2) = collect_red_flags l1 ++ collect_red_flags l2.
Proof.
  induction l1 as [|x l1 IH]; simpl; [done|].
  destruct (make_red_flag x); simpl; by rewrite IH.
Qed.

(** A risk field that is absent, falsy or a string is read without error. *)
Lemma coerce_field rd key :
  lower (py "medium") = py "medium" ->
  match dict_lookup (py key) rd with
  | Some v => truthy v = false \/ exists s, v = PStr s
  | None => True
  end ->
  exists r, coerce (PDict rd) key "medium" = Ok r
    /\ match dict_lookup (py key) rd with
       | Some (PStr (c :: s)) => r = default MEDIUM (member (lower (c :: s)) _value2member_map_)
       | _ => r = MEDIUM
       end.
Proof.
  intros Hm Hv. rewrite (coerce_dict _ _ Hm).
  destruct (dict_lookup (py key) rd) as [v|]; [|by exists MEDIUM].
  destruct Hv as [Hf|[s ->]].
  - rewrite Hf. exists MEDIUM. split; [done|].
    destruct v as [| | | | | |[|c s]| |]; try done.
  - destruct s as [|c s]; simpl; [by exists MEDIUM|]. by eexists.
Qed.

(** The structuring succeeds when [red_flags] is absent or a list and
    [risk_score] is absent or an object whose ratings are absent, falsy or
    strings; the analysis holds the flags the loop collects. *)
Lemma create_analysis_ok (d rd : list (str * pyval)) (entries : list pyval) :
  lower (py "medium") = py "medium" ->
  default (PList []) (dict_lookup (py "red_flags") d) = PList entries ->
  default (PDict []) (dict_lookup (py "risk_score") d) = PDict rd ->
  Forall (fun k => match dict_lookup k rd with
                   | Some v => truthy v = false \/ exists s, v = PStr s
                   | None => True
                   end) Store.score_keys ->
  exists a, _create_analysis_object (PDict d) = Ok a
    /\ summary a = default (PStr []) (dict_lookup (py "summary") d)
    /\ key_terms a = default (PDict []) (dict_lookup (py "key_terms") d)
    /\ recommendations a = default (PList []) (dict_lookup (py "recommendations") d)
    /\ processing_time a = 0%Q
    /\ red_flags a = collect_red_flags entries
    /\ Forall2 (fun k r =>
                  match dict_lookup k rd with
                  | Some (PStr (c :: s)) =>
                      r = default MEDIUM (member (lower (c :: s)) _value2member_map_)
                  | _ => r = MEDIUM
                  end) Store.score_keys (Store.score_levels (risk_score a)).
Proof.
  intros Hm Hf Hr Hk.
  unfold Store.score_keys in Hk.
  apply Forall_cons_1 in Hk as [H1 Hk]. apply Forall_cons_1 in Hk as [H2 Hk].
  apply Forall_cons_1 in Hk as [H3 Hk]. apply Forall_cons_1 in Hk as [H4 Hk].
  apply Forall_cons_1 in Hk as [H5 _].
  destruct (coerce_field rd "financial_risk" Hm H1) as (r1 & E1 & V1).
  destruct (coerce_field rd "legal_exposure" Hm H2) as (r2 & E2 & V2).
  destruct (coerce_field rd "fairness" Hm H3) as (r3 & E3 & V3).
  destruct (coerce_field rd "missing_clauses" Hm H4) as (r4 & E4 & V4).
  destruct (coerce_field rd "overall_score" Hm H5) as (r5 & E5 & V5).
  unfold _create_analysis_object, parse_risk_field, Analyzer.get.
  cbn [mbind result_bind]. rewrite Hf. cbn [Analyzer.iterate mbind result_bind].
  rewrite Hr, E1. cbn [mbind result_bind]. rewrite E2. cbn [mbind result_bind].
  rewrite E3. cbn [mbind result_bind]. rewrite E4. cbn [mbind result_bind].
  rewrite E5. cbn [mbind result_bind].
  eexists. split; [reflexivity|].
  cbn [summary key_terms recommendations processing_time red_flags risk_score].
  do 5 (split; [done|]).
  unfold Store.score_keys, Store.score_levels.
  cbn [financial_risk legal_exposure fairness missing_clauses overall_score].
  repeat constructor; done.
Qed.

Lemma collect_red_flags_length entries :
  (length (collect_red_flags entries) <= length entries)%nat.
Proof.
  induction entries as [|e es IH]; simpl; [done|].
  destruct (make_red_flag e); simpl; lia.
Qed.

(** C2.  For a parsed answer whose [red_flags] is the list [entries] (and
    whose risk score does not stop the structuring), the analysis that
    [_create_analysis_object] returns holds one red flag for each entry that
    can be constructed, in order, and none for the others.  For an entry that
    is an object: a missing severity, or a severity that is an unrecognized
    string, gives [MEDIUM] and no error; a recognized one (after
    lower-casing) gives its level; every other field that is absent is the
    empty string.  An entry that cannot be constructed (one that is not an
    object, or whose severity is a truthy value that is not a string) is
    skipped, and the flags of the entries before and after it are kept.  No
    entry of a list of objects with absent or string severities is lost. *)
Theorem red_flag_tolerance (d rd : list (str * pyval)) (entries : list pyval) :
  lower (py "medium") = py "medium" ->
  dict_lookup (py "red_flags") d = Some (PList entries) ->
  default (PDict []) (dict_lookup (py "risk_score") d) = PDict rd ->
  Forall (fun k => match dict_lookup k rd with
                   | Some v => truthy v = false \/ exists s, v = PStr s
                   | None => True
                   end) Store.score_keys ->
  exists a, _create_analysis_object (PDict d) = Ok a
    /\ (forall l1 de l2, entries = l1 ++ PDict de :: l2 ->
        let field k := default (PStr []) (dict_lookup (py k) de) in
        let flag sev :=
          {| clause_text := field "clause_text"%string;
             risk_type := field "risk_type"%string;
             explanation := field "explanation"%string;
             why_risky := field "why_risky"%string;
             suggested_alternative := field "suggested_alternative"%string;
             severity := sev |} in
        (dict_lookup (py "severity") de = None ->
           red_flags a = collect_red_flags l1 ++ flag MEDIUM :: collect_red_flags l2)
        /\ (forall s, dict_lookup (py "severity") de = Some (PStr s) ->
              member (lower s) _value2member_map_ = None ->
              red_flags a = collect_red_flags l1 ++ flag MEDIUM :: collect_red_flags l2)
        /\ (forall s r, dict_lookup (py "severity") de = Some (PStr s) -> s <> [] ->
              member (lower s) _value2member_map_ = Some r ->
              red_flags a = collect_red_flags l1 ++ flag r :: collect_red_flags l2)
        /\ (forall v, dict_lookup (py "severity") de = Some v -> truthy v = true ->
              (forall s, v <> PStr s) ->
              red_flags a = collect_red_flags l1 ++ collect_red_flags l2))
    /\ (forall l1 entry l2, entries = l1 ++ entry :: l2 -> (forall de, entry <> PDict de) ->
        red_flags a = collect_red_flags l1 ++ collect_red_flags l2)
    /\ (length (red_flags a) <= length entries)%nat
    /\ (Forall (fun entry =>
                  exists de, entry = PDict de
                    /\ (dict_lookup (py "severity") de = None
                        \/ exists s, dict_lookup (py "severity") de = Some (PStr s)))
          entries ->
        length (red_flags a) = length entries).
Proof.
  intros Hm Hf Hr Hk.
  destruct (create_analysis_ok d rd entries Hm) as (a & Ha & _ & _ & _ & _ & Hfl & _);
    [by rewrite Hf|done|done|].
  exists a. split; [done|]. rewrite Hfl. split; [|split; [|split]].
  - intros l1 de l2 -> field flag. rewrite collect_red_flags_app. cbn [collect_red_flags].
    rewrite make_red_flag_dict, (coerce_dict _ _ Hm). repeat split.
    + by intros ->.
    + intros s -> Hn. simpl. destruct (nonempty s); simpl; [by rewrite Hn|done].
    + intros s r -> Hne Hsome. simpl. destruct s; [done|]. simpl. by rewrite Hsome.
    + intros v -> Hv Hs. rewrite Hv. destruct v; try done. by destruct (Hs s).
  - intros l1 entry l2 -> Hnd. rewrite collect_red_flags_app. cbn [collect_red_flags].
    destruct entry; try done. by destruct (Hnd d0).
  - apply collect_red_flags_length.
  - clear -Hm. induction 1 as [|entry es (de & -> & Hs) Hes IH]; [done|].
    cbn [collect_red_flags]. rewrite make_red_flag_dict.
    destruct (coerce_field de "severity" Hm) as (r & -> & _).
    { destruct Hs as [->|[s ->]]; [done|]. right. by eexists. }
    simpl. by rewrite IH.
Qed.

(** What the five risk fields are when the structuring succeeds on a
    [risk_score] object whose fields, where present, are strings or falsy. *)
Lemma parse_risk_field_string d key :
  lower (py "medium") = py "medium" ->
  (dict_lookup (py key) d = None \/
   (exists v, dict_lookup (py key) d = Some v /\ truthy v = false) \/
   (exists s, dict_lookup (py key) d = Some (PStr s))) ->
  exists r, parse_risk_field (PDict d) key "medium" = Ok r.
Proof.
  intros Hm H. unfold parse_risk_field. rewrite (coerce_dict _ _ Hm).
  destruct H as [->|[(v & -> & ->)|(s & ->)]]; [by eexists..|].
  destruct (truthy (PStr s)); simpl; by eexists.
Qed.

(** C3 fails on the code: a sub-field of [risk_score] that is a number is
    not defaulted to medium, the structuring raises [AttributeError] and no
    analysis is constructed. *)
Theorem risk_field_number_raises :
  _create_analysis_object
    (PDict [(py "summary", PStr (py "ok"));
            (py "risk_score", PDict [(py "financial_risk", PInt 5)])])
  = Raise (Exn AttributeError (py "'int' object has no attribute 'lower'")).
Proof. reflexivity. Qed.

(** The same happens when [risk_score] is not an object. *)
Lemma risk_score_null_raises :
  _create_analysis_object (PDict [(py "risk_score", PNone)])
  = Raise (Exn AttributeError (py "'NoneType' object has no attribute 'get'")).
Proof. reflexivity. Qed.

End WithUnicode.

(** C1 fails on the code.  A text without any brace that is valid JSON by
    itself is not refused: the direct parse returns its value, here the
    integer [123], which is no dictionary although [_parse_response] is
    documented and annotated to return one; the structuring that follows
    then raises [AttributeError]. *)
Theorem parse_response_not_a_dict (U : UnicodeData) (Py : Interpreter) :
  let r := {| output_text := py "123"; output_fallback := []; raw_dump := [] |} in
  Forall (fun c => c <> 123%N /\ c <> 125%N) (_extract_text_from_response r)
  /\ _parse_response r = Ok (PInt 123)
  /\ (forall d, PInt 123 <> PDict d)
  /\ _create_analysis_object (PInt 123)
     = Raise (Exn AttributeError (py "'int' object has no attribute 'get'")).
Proof.
  split; [apply (bool_decide_unpack _); by vm_compute|].
  split; [reflexivity|]. split; [done|reflexivity].
Qed.

Lemma red_flag_tolerance_witness :
  exists a,
    _create_analysis_object (U := UcdExcerpt.ucd)
      (PDict [(py "summary", PStr (py "ok"));
              (py "red_flags",
               PList [PDict [(py "risk_type", PStr (py "Penalty"));
                             (py "severity", PStr (py "URGENT"))];
                      PInt 3;
                      PDict [(py "severity", PStr (py "High"))]])]) = Ok a
    /\ red_flags a
       = [ {| clause_text := PStr []; risk_type := PStr (py "Penalty");
              explanation := PStr []; why_risky := PStr [];
              suggested_alternative := PStr []; severity := MEDIUM |};
           {| clause_text := PStr []; risk_type := PStr []; explanation := PStr [];
              why_risky := PStr []; suggested_alternative := PStr [];
              severity := HIGH |} ].
Proof.
  destruct (red_flag_tolerance (U := UcdExcerpt.ucd)
              [(py "summary", PStr (py "ok"));
               (py "red_flags",
                PList [PDict [(py "risk_type", PStr (py "Penalty"));
                              (py "severity", PStr (py "URGENT"))];
                       PInt 3;
                       PDict [(py "severity", PStr (py "High"))]])]
              [] _ eq_refl eq_refl eq_refl)
    as (a & Ha & _ & Hskip & _).
  - unfold Store.score_keys. repeat (apply List.Forall_cons); try apply List.Forall_nil; exact I.
  - exists a. split; [exact Ha|].
    rewrite (Hskip [PDict [(py "risk_type", PStr (py "Penalty"));
                           (py "severity", PStr (py "URGENT"))]]
               (PInt 3) [PDict [(py "severity", PStr (py "High"))]] eq_refl);
      [reflexivity|discriminate].
Defined.

(** *** Failures *)

Lemma mem_supported ext :
  Processor.mem ext [py ".pdf"; py ".docx"; py ".doc"] = true ->
  str_eqb ext (py ".pdf") = false ->
  Processor.mem ext [py ".docx"; py ".doc"] = true.
Proof. unfold Processor.mem. cbn [existsb]. intros H Hp. by rewrite Hp in H. Qed.

Section WithWorld.
Context {U : UnicodeData} {Py : Interpreter}.
Variable create : str -> request -> result response.
Variables start_time end_time : Q.
Variables user_prompt_head user_prompt_tail : str.
Variable path_exists : str -> bool.
Variable path_suffix : str -> str.
Variable pdf_pages : str -> result (list (result str)).
Variable docx_paragraphs : str -> result (list str).


End WithWorld.



End AnalyzerFacts.

(** ** to_dict *)

Module StoreFacts.
Import Analyzer Store Fixtures.

Example a_store_repr : repr a_store (VRef 1) (tree_of_analysis an_analysis).
Proof.
  repeat (first [ apply repr_atom | eapply repr_node; [reflexivity|done|simpl] | constructor ]).
Qed.

(** *** Induction on trees *)

Lemma tree_ind_children (P : tree -> Prop) :
  (forall t, Forall P (tree_children t) -> P t) -> forall t, P t.
Proof.
  intros H. fix IH 1. intros t. apply H.
  destruct t as [a|cls fields|items|items]; simpl.
  - constructor.
  - induction fields as [|[n c] fs IHf]; simpl; constructor; [apply IH|exact IHf].
  - induction items as [|c cs IHc]; simpl; constructor; [apply IH|exact IHc].
  - induction items as [|[k c] cs IHc]; simpl; constructor; [apply IH|exact IHc].
Qed.

Lemma tree_children_asdict t :
  tree_children (asdict_tree t) = List.map asdict_tree (tree_children t).
Proof.
  destruct t as [a|cls fields|items|items]; simpl; try done;
    rewrite !List.map_map; done.
Qed.

Lemma tree_depth_children t d :
  (tree_depth t < S d)%nat -> Forall (fun c => (tree_depth c < d)%nat) (tree_children t).
Proof.
  assert (Hmax : forall (l : list nat) n, (list_max l < n)%nat -> Forall (fun x => (x < n)%nat) l).
  { induction l as [|x l IHl]; simpl; intros n Hn; constructor; [lia|apply IHl; lia]. }
  destruct t as [a|cls fields|items|items]; simpl; intros H.
  - apply Forall_nil_2.
  - apply Forall_map.
    assert (H' := Hmax (List.map (fun f : string * tree => tree_depth f.2) fields) d
                    ltac:(lia)).
    by apply Forall_map in H'.
  - assert (H' := Hmax (List.map tree_depth items) d ltac:(lia)).
    by apply Forall_map in H'.
  - apply Forall_map.
    assert (H' := Hmax (List.map (fun kv : str * tree => tree_depth kv.2) items) d
                    ltac:(lia)).
    by apply Forall_map in H'.
Qed.

Lemma asdict_tree_pyval p : asdict_tree (tree_of_pyval p) = tree_of_pyval p.
Proof.
  revert p. fix IH 1. intros p. destruct p; simpl; try reflexivity.
  - f_equal. induction l as [|x l IHl]; simpl; [done|]. by rewrite IH, IHl.
  - f_equal. induction d as [|[k x] d IHd]; simpl; [done|]. by rewrite IH, IHd.
Qed.

(** *** Representation is stable under extension of the store *)

Lemma Forall2_Forall_r {A B} (R R' : A -> B -> Prop) l k :
  Forall (fun b => forall a, R a b -> R' a b) k -> Forall2 R l k -> Forall2 R' l k.
Proof.
  intros Hk H. induction H as [|a b l k Hab Hlk IH]; [constructor|].
  apply Forall_cons_1 in Hk as [Hb Hk]. constructor; auto.
Qed.

Lemma repr_weaken (h h' : heap) v t : h ⊆ h' -> repr h v t -> repr h' v t.
Proof.
  intros Hsub. revert v. induction t as [t IH] using tree_ind_children.
  intros v Hr. inversion Hr as [a|l o t' Hl Hm Hc]; subst; [constructor|].
  eapply repr_node; [by eapply lookup_weaken|done|].
  by eapply Forall2_Forall_r.
Qed.

(** *** Owned structures *)

Lemma own_dom_both (h : heap) :
  (forall v t F, own h v t F -> F ⊆ dom h)
  /\ (forall vs ts F, owns h vs ts F -> F ⊆ dom h).
Proof.
  apply own_owns_ind.
  - intros. apply empty_subseteq.
  - intros l o t F Hl _ _ IH _. apply elem_of_dom_2 in Hl.
    apply union_subseteq. split; [by apply singleton_subseteq_l|done].
  - apply empty_subseteq.
  - intros v t vs ts F1 F2 _ IH1 _ IH2 _. by apply union_subseteq.
Qed.

Lemma own_dom (h : heap) v t F : own h v t F -> F ⊆ dom h.
Proof. apply own_dom_both. Qed.

Lemma owns_dom (h : heap) vs ts F : owns h vs ts F -> F ⊆ dom h.
Proof. apply own_dom_both. Qed.

Lemma own_agree_both (h h' : heap) :
  (forall v t F, own h v t F -> (forall l, l ∈ F -> h' !! l = h !! l) -> own h' v t F)
  /\ (forall vs ts F, owns h vs ts F -> (forall l, l ∈ F -> h' !! l = h !! l) ->
        owns h' vs ts F).
Proof.
  apply own_owns_ind.
  - constructor.
  - intros l o t F Hl Hm _ IH Hnl Ha.
    eapply own_node; [rewrite Ha; [done|set_solver]|done| |done].
    apply IH. intros l' Hl'. apply Ha. set_solver.
  - constructor.
  - intros v t vs ts F1 F2 _ IH1 _ IH2 Hd Ha.
    constructor; [apply IH1|apply IH2|done]; intros l' Hl'; apply Ha; set_solver.
Qed.

Lemma own_agree (h h' : heap) v t F :
  own h v t F -> (forall l, l ∈ F -> h' !! l = h !! l) -> own h' v t F.
Proof. apply own_agree_both. Qed.

Lemma owns_agree (h h' : heap) vs ts F :
  owns h vs ts F -> (forall l, l ∈ F -> h' !! l = h !! l) -> owns h' vs ts F.
Proof. apply own_agree_both. Qed.

Lemma agree_weaken (h h' : heap) (F : gset loc) :
  h ⊆ h' -> F ⊆ dom h -> forall l, l ∈ F -> h' !! l = h !! l.
Proof.
  intros Hsub HF l Hl. assert (Hd : l ∈ dom h) by set_solver.
  apply elem_of_dom in Hd as [o Ho]. rewrite Ho. by eapply lookup_weaken.
Qed.

Lemma own_weaken (h h' : heap) v t F : h ⊆ h' -> own h v t F -> own h' v t F.
Proof.
  intros Hsub H. eapply own_agree; [done|].
  eapply agree_weaken; [done|by eapply own_dom].
Qed.

Lemma owns_weaken (h h' : heap) vs ts F : h ⊆ h' -> owns h vs ts F -> owns h' vs ts F.
Proof.
  intros Hsub H. eapply owns_agree; [done|].
  eapply agree_weaken; [done|by eapply owns_dom].
Qed.

Lemma owns_length (h : heap) vs ts F : owns h vs ts F -> length vs = length ts.
Proof. induction 1; simpl; auto. Qed.

Lemma own_repr_both (h : heap) :
  (forall v t F, own h v t F -> repr h v t)
  /\ (forall vs ts F, owns h vs ts F -> Forall2 (repr h) vs ts).
Proof.
  apply own_owns_ind.
  - constructor.
  - intros. by eapply repr_node.
  - constructor.
  - intros. by constructor.
Qed.

Lemma own_repr (h : heap) v t F : own h v t F -> repr h v t.
Proof. apply own_repr_both. Qed.

(** *** Running the store computations *)

Lemma bind_done {A B} (m : M A) (f : A -> M B) h a h1 :
  m h = Done a h1 -> (m ≫= f) h = f a h1.
Proof. unfold mbind, M_bind, bind. by intros ->. Qed.

Lemma load_done (h : heap) l o : h !! l = Some o -> load l h = Done o h.
Proof. unfold load. by intros ->. Qed.

Lemma alloc_done o (h : heap) :
  exists l, alloc o h = Done (VRef l) (<[l := o]> h) /\ (l ∉ dom h) /\ (h ⊆ <[l := o]> h).
Proof.
  exists (fresh (dom h)). pose proof (is_fresh (dom h)) as Hf.
  split; [done|]. split; [done|].
  apply insert_subseteq. by apply not_elem_of_dom.
Qed.

Lemma map_fst_zip {A B} (ks : list A) (vs : list B) :
  length ks = length vs -> List.map fst (zip ks vs) = ks.
Proof.
  revert vs. induction ks as [|k ks IH]; intros [|v vs]; simpl; try done.
  intros [= H]. by rewrite IH.
Qed.

Lemma map_snd_zip {A B} (ks : list A) (vs : list B) :
  length ks = length vs -> List.map snd (zip ks vs) = vs.
Proof.
  revert vs. induction ks as [|k ks IH]; intros [|v vs]; simpl; try done.
  intros [= H]. by rewrite IH.
Qed.

Lemma asdict_build_children o vs :
  length vs = length (obj_children o) -> obj_children (asdict_build o vs) = vs.
Proof.
  destruct o as [cls fields|items|items]; simpl; [|done|];
    rewrite !length_map; intros H; apply map_snd_zip; by rewrite length_map.
Qed.

Lemma asdict_build_matches o t vs :
  matches o t -> length vs = length (obj_children o) ->
  matches (asdict_build o vs) (asdict_tree t).
Proof.
  destruct o as [cls fields|items|items], t as [a|cls' tfields|titems|titems];
    simpl; try done; rewrite !length_map.
  - intros [_ Hk] Hl. rewrite map_fst_zip by (by rewrite length_map).
    rewrite List.map_map. simpl.
    rewrite <- (List.map_map fst py fields), Hk. by rewrite List.map_map.
  - intros Hk Hl. rewrite map_fst_zip by (by rewrite length_map).
    rewrite List.map_map. simpl. done.
Qed.

Lemma mapM_asdict ts : Forall asdict_copies ts ->
  forall vs (h : heap) d, Forall2 (repr h) vs ts ->
  Forall (fun t => (tree_depth t < d)%nat) ts ->
  exists vs' h' F, mapM (_asdict_inner d) vs h = Done vs' h' /\ h ⊆ h'
                   /\ owns h' vs' (List.map asdict_tree ts) F /\ F ## dom h.
Proof.
  induction 1 as [|t ts Ht Hts IH]; intros vs h d Hr Hd.
  - apply Forall2_nil_inv_r in Hr as ->. exists [], h, ∅.
    split; [done|]. split; [done|]. split; [constructor|set_solver].
  - apply Forall2_cons_inv_r in Hr as (v & vs0 & Hv & Hvs & ->).
    apply Forall_cons_1 in Hd as [Hdt Hdts].
    destruct (Ht v h d Hv Hdt) as (v' & h1 & F1 & E1 & S1 & O1 & D1).
    destruct (IH vs0 h1 d) as (vs' & h2 & F2 & E2 & S2 & O2 & D2); [|done|].
    { eapply Forall2_impl; [done|]. intros ? ?. by apply repr_weaken. }
    exists (v' :: vs'), h2, (F1 ∪ F2).
    split.
    { simpl. rewrite (bind_done _ _ _ _ _ E1). by rewrite (bind_done _ _ _ _ _ E2). }
    split; [by etrans|].
    pose proof (own_dom _ _ _ _ O1) as HF1.
    pose proof (subseteq_dom _ _ S1) as Hdom.
    split; [|set_solver].
    simpl. constructor; [by eapply own_weaken|done|set_solver].
Qed.

Lemma asdict_inner_copies t : asdict_copies t.
Proof.
  induction t as [t IH] using tree_ind_children.
  intros v h d Hr Hd. destruct d as [|d]; [lia|].
  inversion Hr as [a|l o t' Hl Hm Hc]; subst.
  { exists (VAtom a), h, ∅. split; [done|]. split; [done|]. split; [constructor|set_solver]. }
  destruct (mapM_asdict _ IH _ h d Hc (tree_depth_children _ _ Hd))
    as (vs' & h1 & F & E & S1 & O & D).
  destruct (alloc_done (asdict_build o vs') h1) as (l' & Ea & Hl' & S2).
  exists (VRef l'), (<[l' := asdict_build o vs']> h1), ({[l']} ∪ F).
  pose proof (owns_dom _ _ _ _ O) as HF.
  pose proof (subseteq_dom _ _ S1) as Hdom.
  assert (Hlen : length vs' = length (obj_children o)).
  { rewrite (owns_length _ _ _ _ O), length_map. symmetry. by eapply Forall2_length. }
  split.
  { simpl. rewrite (bind_done _ _ _ _ _ (load_done _ _ _ Hl)).
    by rewrite (bind_done _ _ _ _ _ E). }
  split; [by etrans|]. split; [|set_solver].
  eapply own_node.
  - apply lookup_insert_eq.
  - by apply asdict_build_matches.
  - rewrite asdict_build_children, tree_children_asdict by done.
    by eapply owns_weaken.
  - set_solver.
Qed.

(** *** Reading an owned structure *)

Lemma own_atom_inv (h : heap) v a F : own h v (TAtom a) F -> v = VAtom a /\ F = ∅.
Proof.
  inversion 1 as [|l o t F' Hl Hm Ho Hn]; subst; [done|].
  by destruct o.
Qed.

Lemma own_dict_inv (h : heap) v titems F :
  own h v (TDict titems) F ->
  exists l items Fc, v = VRef l /\ h !! l = Some (ODict items)
    /\ List.map fst items = List.map fst titems
    /\ owns h (List.map snd items) (List.map snd titems) Fc
    /\ (l ∉ Fc) /\ F = {[l]} ∪ Fc.
Proof.
  inversion 1 as [|l o t F' Hl Hm Ho Hn]; subst.
  destruct o as [cls fields|items|items]; try done.
  by exists l, items, F'.
Qed.

Lemma own_list_inv (h : heap) v ts F :
  own h v (TList ts) F ->
  exists l vs Fc, v = VRef l /\ h !! l = Some (OList vs)
    /\ owns h vs ts Fc /\ (l ∉ Fc) /\ F = {[l]} ∪ Fc.
Proof.
  inversion 1 as [|l o t F' Hl Hm Ho Hn]; subst.
  destruct o as [cls fields|items|items]; try done.
  by exists l, items, F'.
Qed.

Lemma owns_cons_inv (h : heap) vs t ts F :
  owns h vs (t :: ts) F ->
  exists v vs' F1 F2, vs = v :: vs' /\ own h v t F1 /\ owns h vs' ts F2
    /\ F1 ## F2 /\ F = F1 ∪ F2.
Proof. inversion 1; subst. by eexists _, _, _, _. Qed.

Lemma owns_nil_inv (h : heap) vs F : owns h vs [] F -> vs = [] /\ F = ∅.
Proof. by inversion 1. Qed.

(** *** The updates of the copy *)

Lemma dict_items_done (h : heap) l items m :
  h !! l = Some (ODict items) -> dict_items (VRef l) m h = Done items h.
Proof.
  intros Hl. unfold dict_items. by rewrite (bind_done _ _ _ _ _ (load_done _ _ _ Hl)).
Qed.

Lemma get_done (h : heap) l items k dflt :
  h !! l = Some (ODict items) ->
  get (VRef l) k dflt h = Done (default dflt (assoc_get (py k) items)) h.
Proof.
  intros Hl. unfold get. by rewrite (bind_done _ _ _ _ _ (dict_items_done _ _ _ _ Hl)).
Qed.

Lemma getitem_done (h : heap) l items k v :
  h !! l = Some (ODict items) -> assoc_get (py k) items = Some v ->
  getitem (VRef l) k h = Done v h.
Proof.
  intros Hl Hk. unfold getitem.
  rewrite (bind_done _ _ _ _ _ (load_done _ _ _ Hl)). by rewrite Hk.
Qed.

Lemma setitem_done (h : heap) l items k v :
  h !! l = Some (ODict items) ->
  setitem (VRef l) k v h = Done tt (<[l := ODict (assoc_set (py k) v items)]> h).
Proof.
  intros Hl. unfold setitem.
  by rewrite (bind_done _ _ _ _ _ (load_done _ _ _ Hl)).
Qed.

Lemma iterate_done (h : heap) l vs :
  h !! l = Some (OList vs) -> iterate (VRef l) h = Done vs h.
Proof.
  intros Hl. unfold iterate.
  by rewrite (bind_done _ _ _ _ _ (load_done _ _ _ Hl)).
Qed.

Lemma render_severity_enum (h : heap) l v1 v2 v3 v4 v5 s :
  h !! l = Some (ODict [(py "clause_text", v1); (py "risk_type", v2);
                        (py "explanation", v3); (py "why_risky", v4);
                        (py "suggested_alternative", v5);
                        (py "severity", VAtom (AEnum s))]) ->
  render_severity (VRef l) h
  = Done tt (<[l := ODict [(py "clause_text", v1); (py "risk_type", v2);
                           (py "explanation", v3); (py "why_risky", v4);
                           (py "suggested_alternative", v5);
                           (py "severity", VAtom (AStr (value s)))]]> h).
Proof.
  intros Hl. unfold render_severity.
  rewrite (bind_done _ _ _ _ _ (get_done _ _ _ _ _ Hl)).
  change (assoc_get (py "severity") _) with (Some (VAtom (AEnum s))).
  change (is_enum _) with true. cbv iota.
  rewrite (bind_done _ _ _ _ _
             (getitem_done _ _ _ "severity" (VAtom (AEnum s)) Hl eq_refl)).
  by rewrite (setitem_done _ _ _ _ _ Hl).
Qed.

Lemma map_fst_six {A} (items : list (str * A)) k1 k2 k3 k4 k5 k6 vs :
  List.map fst items = [k1; k2; k3; k4; k5; k6] ->
  List.map snd items = vs ->
  exists v1 v2 v3 v4 v5 v6,
    items = [(k1, v1); (k2, v2); (k3, v3); (k4, v4); (k5, v5); (k6, v6)]
    /\ vs = [v1; v2; v3; v4; v5; v6].
Proof.
  intros Hk Hv.
  do 6 (destruct items as [|[? ?] items]; [done|]; simpl in Hk; injection Hk as <- Hk).
  destruct items; [|done]. subst. by eexists _, _, _, _, _, _.
Qed.

(** The last of an owned list, when it is an immutable value, can be
    replaced by another one. *)
Lemma owns_last_atom (h : heap) vs : forall ts v a F,
  length vs = length ts ->
  owns h (vs ++ [v]) (ts ++ [TAtom a]) F ->
  v = VAtom a /\ forall b, owns h (vs ++ [VAtom b]) (ts ++ [TAtom b]) F.
Proof.
  induction vs as [|v0 vs IH]; intros [|t ts] v a F Hlen Ho; simplify_eq/=.
  - apply owns_cons_inv in Ho as (v' & vs' & F1 & F2 & [= <- <-] & Hv & Hn & Hd & ->).
    apply own_atom_inv in Hv as [-> ->]. apply owns_nil_inv in Hn as [_ ->].
    split; [done|]. intros b. constructor; [constructor|constructor|done].
  - apply owns_cons_inv in Ho as (v' & vs' & F1 & F2 & [= <- <-] & Hv & Hn & Hd & ->).
    destruct (IH ts v a F2 Hlen Hn) as [-> Hb].
    split; [done|]. intros b. by constructor.
Qed.

(** The loop renders the severity of every converted flag and touches no
    other object. *)
Lemma render_flags_spec flags : forall fvs (h : heap) F,
  owns h fvs (List.map (fun f => asdict_tree (tree_of_flag f)) flags) F ->
  exists h', forM_ fvs render_severity h = Done tt h'
    /\ owns h' fvs (List.map dict_of_flag flags) F
    /\ (forall l, l ∉ F -> h' !! l = h !! l).
Proof.
  induction flags as [|f flags IH]; intros fvs h F Ho; simpl in Ho.
  { apply owns_nil_inv in Ho as [-> ->]. exists h. repeat split; constructor. }
  apply owns_cons_inv in Ho as (v & vs & F1 & F2 & -> & Hv & Hvs & Hd & ->).
  rewrite !asdict_tree_pyval in Hv.
  apply own_dict_inv in Hv as (l & items & Fc & -> & Hl & Hk & Hc & Hn & ->).
  cbn [List.map fst snd] in Hk, Hc.
  destruct (map_fst_six _ _ _ _ _ _ _ _ Hk eq_refl)
    as (v1 & v2 & v3 & v4 & v5 & v6 & -> & Hvs6).
  rewrite Hvs6 in Hc. clear Hvs6 Hk.
  change [v1; v2; v3; v4; v5; v6] with ([v1; v2; v3; v4; v5] ++ [v6]) in Hc.
  match type of Hc with
  | owns _ _ [?t1; ?t2; ?t3; ?t4; ?t5; ?t6] _ =>
      change [t1; t2; t3; t4; t5; t6] with ([t1; t2; t3; t4; t5] ++ [t6]) in Hc
  end.
  apply owns_last_atom in Hc as [-> Hc]; [|done].
  specialize (Hc (AStr (value (severity f)))).
  pose proof (render_severity_enum h l v1 v2 v3 v4 v5 (severity f) Hl) as Hstep.
  match type of Hstep with _ = Done _ ?X => set (h1 := X) in * end.
  assert (HlF2 : l ∉ F2) by (clear -Hd; set_solver).
  assert (HcF2 : Fc ## F2) by (clear -Hd; set_solver).
  destruct (IH vs h1 F2) as (h' & Hrun & Hvs' & Hframe).
  { eapply owns_agree; [done|]. intros l' Hl'. unfold h1.
    apply lookup_insert_ne. intros ->. done. }
  assert (Hag : forall l', l' <> l -> l' ∉ F2 -> h' !! l' = h !! l').
  { intros l' H1 H2. rewrite Hframe by done. unfold h1. by apply lookup_insert_ne. }
  exists h'. split; [|split].
  - simpl. by rewrite (bind_done _ _ _ _ _ Hstep).
  - simpl. constructor; [|done|done].
    eapply own_node; [| | |done].
    + rewrite Hframe by done. unfold h1. apply lookup_insert_eq.
    + done.
    + eapply owns_agree; [exact Hc|]. intros l' Hl'.
      apply Hag; [by intros ->|]. clear -Hl' HcF2. set_solver.
  - intros l' Hl'. apply Hag; clear -Hl'; set_solver.
Qed.

Ltac split_sets :=
  repeat match goal with
    | H : _ ∪ _ ## _ |- _ => apply disjoint_union_l in H as [? ?]
    | H : _ ## _ ∪ _ |- _ => apply disjoint_union_r in H as [? ?]
    | H : _ ∉ _ ∪ _ |- _ => apply not_elem_of_union in H as [? ?]
    | H : _ ∪ _ ⊆ _ |- _ => apply union_subseteq in H as [? ?]
    end.

(** Keep the facts about sets of locations only. *)
Ltac drop_non_sets :=
  repeat match goal with
    | H : forall _, _ |- _ => clear H
    | H : own _ _ _ _ |- _ => clear H
    | H : owns _ _ _ _ |- _ => clear H
    | H : repr _ _ _ |- _ => clear H
    | H : _ !! _ = _ |- _ => clear H
    | H : _ = Done _ _ |- _ => clear H
    | H : _ ⊆ ∅ ∪ _ |- _ => clear H
    | H : ∅ ⊆ _ |- _ => clear H
    | H : ∅ ## _ |- _ => clear H
    | H : _ ## ∅ |- _ => clear H
    | H : _ ∉ ∅ |- _ => clear H
    end.
Ltac sets := drop_non_sets; set_solver.

Lemma owns_atoms_inv (h : heap) atoms : forall vs F,
  owns h vs (List.map TAtom atoms) F -> vs = List.map VAtom atoms /\ F = ∅.
Proof.
  induction atoms as [|a atoms IH]; intros vs F Ho; simpl in Ho.
  - by apply owns_nil_inv in Ho.
  - apply owns_cons_inv in Ho as (v & vs' & F1 & F2 & -> & Hv & Hn & Hd & ->).
    apply own_atom_inv in Hv as [-> ->]. destruct (IH _ _ Hn) as [-> ->].
    split; [done|]. apply union_empty_l_L.
Qed.

Lemma owns_atoms (h : heap) atoms :
  owns h (List.map VAtom atoms) (List.map TAtom atoms) ∅.
Proof.
  induction atoms as [|a atoms IH]; simpl; [constructor|].
  rewrite <- (union_empty_l_L (∅ : gset loc)).
  constructor; [constructor|done|set_solver].
Qed.

Lemma asdict_tree_analysis A :
  asdict_tree (tree_of_analysis A)
  = TDict
      [(py "summary", tree_of_pyval (summary A));
       (py "key_terms", tree_of_pyval (key_terms A));
       (py "red_flags",
        TList (List.map (fun f => asdict_tree (tree_of_flag f)) (red_flags A)));
       (py "risk_score", asdict_tree (tree_of_score (risk_score A)));
       (py "recommendations", tree_of_pyval (recommendations A));
       (py "processing_time", TAtom (ASeconds (processing_time A)))].
Proof.
  unfold tree_of_analysis. cbn [asdict_tree List.map fst snd].
  by rewrite !asdict_tree_pyval, List.map_map.
Qed.

Lemma zip_map_fst_snd {A B} (l : list (A * B)) :
  zip (List.map fst l) (List.map snd l) = l.
Proof. induction l as [|[a b] l IH]; simpl; [done|]. by rewrite IH. Qed.

(** What [to_dict] does on a store that holds an analysis: it returns a
    dictionary built in new locations, and every object that was there is
    still there, unchanged. *)
Lemma to_dict_spec (h : heap) (a : loc) (A : ContractAnalysis) (depth : nat) :
  repr h (VRef a) (tree_of_analysis A) ->
  (tree_depth (tree_of_analysis A) < depth)%nat ->
  exists r h' F,
    to_dict depth (VRef a) h = Done (VRef r) h'
    /\ h ⊆ h'
    /\ repr h' (VRef a) (tree_of_analysis A)
    /\ own h' (VRef r) (dict_of_analysis A) F
    /\ F ## dom h.
Proof.
  intros Hr Hdepth.
  assert (Hinst : exists cls fields, h !! a = Some (OInst cls fields)).
  { inversion Hr as [|l o t Hl Hm Hc]; subst. destruct o; try done. eauto. }
  destruct Hinst as (cls & fields & Ha).
  destruct (asdict_inner_copies _ _ h depth Hr Hdepth) as (v' & h1 & F1 & E1 & S1 & O1 & D1).
  pose proof (subseteq_dom _ _ S1) as Hdom.
  rewrite asdict_tree_analysis in O1.
  apply own_dict_inv in O1 as (r & items & Fc & -> & Hlr & Hk & Hc & Hnr & ->).
  pose proof (owns_dom _ _ _ _ Hc) as HFc.
  cbn [List.map fst snd] in Hk, Hc.
  destruct (map_fst_six _ _ _ _ _ _ _ _ Hk eq_refl)
    as (v1 & v2 & v3 & v4 & v5 & v6 & -> & Hvs6).
  rewrite Hvs6 in Hc. clear Hvs6 Hk.
  apply owns_cons_inv in Hc as (? & ? & Fa & Ra & [= <- <-] & Oa & Hc & Da & ->).
  apply owns_cons_inv in Hc as (? & ? & Fb & Rb & [= <- <-] & Ob & Hc & Db & ->).
  apply owns_cons_inv in Hc as (? & ? & Ffl & Rfl & [= <- <-] & Ofl & Hc & Dfl & ->).
  apply owns_cons_inv in Hc as (? & ? & Fs & Rs & [= <- <-] & Os & Hc & Ds & ->).
  apply owns_cons_inv in Hc as (? & ? & Fe & Re & [= <- <-] & Oe & Hc & De & ->).
  apply owns_cons_inv in Hc as (? & ? & Ft & Rt & [= <- <-] & Ot & Hc & Dt & ->).
  apply owns_nil_inv in Hc as [_ ->].
  apply own_atom_inv in Ot as [-> ->].
  (* the converted risk score and red flags *)
  change (asdict_tree (tree_of_score (risk_score A)))
    with (TDict (zip score_keys (List.map TAtom (List.map AEnum (score_levels (risk_score A))))))
    in Os.
  apply own_dict_inv in Os as (rs & items5 & Fs' & -> & Hlrs & Hk5 & Hc5 & Hnrs & ->).
  change (List.map snd (zip score_keys _))
    with (List.map TAtom (List.map AEnum (score_levels (risk_score A)))) in Hc5.
  apply owns_atoms_inv in Hc5 as [Hv5 ->].
  assert (Hitems5 : items5 = zip score_keys
                      (List.map VAtom (List.map AEnum (score_levels (risk_score A))))).
  { rewrite <- (zip_map_fst_snd items5), Hk5, Hv5. done. }
  subst items5. clear Hk5 Hv5.
  apply own_list_inv in Ofl as (fl & fvs & Ff & -> & Hlfl & Hfvs & Hnfl & ->).
  pose proof (owns_dom _ _ _ _ Hfvs) as HFf.
  assert (Hr_dom : r ∈ dom h1) by (by eapply elem_of_dom_2).
  assert (Hfl_dom : fl ∈ dom h1) by (by eapply elem_of_dom_2).
  split_sets.
  assert (Hrfl : r <> fl) by sets.
  assert (HrFf : r ∉ Ff) by done.
  (* the run *)
  set (rendered := ODict (zip score_keys
         (List.map VAtom (List.map (fun l => AStr (value l)) (score_levels (risk_score A)))))).
  destruct (alloc_done rendered h1) as (l2 & Ea2 & Hl2 & S2).
  set (h2 := <[l2 := rendered]> h1) in *.
  set (items' := [(py "summary", v1); (py "key_terms", v2); (py "red_flags", VRef fl);
                  (py "risk_score", VRef l2); (py "recommendations", v5);
                  (py "processing_time", VAtom (ASeconds (processing_time A)))]).
  set (h3 := <[r := ODict items']> h2).
  destruct (alloc_done (OList []) h3) as (l3 & Ea3 & Hl3 & S3).
  set (h4 := <[l3 := OList []]> h3) in *.
  assert (Hdom3 : dom h3 = {[r]} ∪ ({[l2]} ∪ dom h1)).
  { unfold h3, h2. by rewrite !dom_insert_L. }
  assert (Hl3' : l3 <> r /\ l3 <> l2 /\ l3 ∉ dom h1).
  { rewrite Hdom3 in Hl3. clear -Hl3. sets. }
  destruct Hl3' as (Hl3r & Hl32 & Hl31).
  assert (Hrl2 : r <> l2) by (intros ->; done).
  assert (Hsame4 : forall l, l <> r -> l ∈ dom h1 -> h4 !! l = h1 !! l).
  { intros l Hn1 Hl. unfold h4, h3, h2.
    rewrite lookup_insert_ne by (intros ->; done).
    rewrite lookup_insert_ne by done.
    rewrite lookup_insert_ne by (intros ->; done). done. }
  assert (Hres4 : h4 !! r = Some (ODict items')).
  { unfold h4, h3. rewrite lookup_insert_ne by done. apply lookup_insert_eq. }
  assert (Hrend4 : h4 !! l2 = Some rendered).
  { unfold h4, h3, h2. rewrite lookup_insert_ne by done.
    rewrite lookup_insert_ne by done. apply lookup_insert_eq. }
  assert (Hfl4 : h4 !! fl = Some (OList fvs)).
  { rewrite Hsame4; done. }
  destruct (render_flags_spec (red_flags A) fvs h4 Ff) as (h5 & Erun & Oflags & Hframe).
  { eapply owns_agree; [done|]. intros l Hl.
    apply Hsame4; [by intros ->|]. sets. }
  assert (Hsame5 : forall l, l <> r -> l ∈ dom h1 -> l ∉ Ff -> h5 !! l = h1 !! l).
  { intros l Hn1 Hl Hn2. rewrite Hframe by done. by apply Hsame4. }
  assert (Hh5 : h ⊆ h5).
  { apply map_subseteq_spec. intros l o Hl.
    assert (Hd : l ∈ dom h) by (by eapply elem_of_dom_2).
    rewrite Hsame5; [by eapply lookup_weaken| | |]; sets. }
  exists r, h5,
    ({[r]} ∪ (Fa ∪ (Fb ∪ (({[fl]} ∪ Ff) ∪ (({[l2]} ∪ ∅) ∪ (Fe ∪ (∅ ∪ ∅))))))).
  split; [|split; [done|split; [by eapply repr_weaken|split]]].
  - assert (Easd : asdict depth (VRef a) h = Done (VRef r) h1).
    { unfold asdict. by rewrite (bind_done _ _ _ _ _ (load_done _ _ _ Ha)). }
    unfold to_dict. rewrite (bind_done _ _ _ _ _ Easd).
    rewrite (bind_done _ _ _ _ _ (getitem_done _ _ _ "risk_score" (VRef rs) Hlr eq_refl)).
    rewrite (bind_done _ _ _ _ _ (dict_items_done _ _ _ _ Hlrs)).
    change (ODict (List.map _ (zip score_keys _))) with rendered.
    rewrite (bind_done _ _ _ _ _ Ea2).
    assert (Hlr2 : h2 !! r = Some (ODict [(py "summary", v1); (py "key_terms", v2);
                      (py "red_flags", VRef fl); (py "risk_score", VRef rs);
                      (py "recommendations", v5);
                      (py "processing_time", VAtom (ASeconds (processing_time A)))])).
    { unfold h2. by rewrite lookup_insert_ne. }
    rewrite (bind_done _ _ _ _ _ (setitem_done _ _ _ "risk_score" (VRef l2) Hlr2)).
    change (<[r := _]> h2) with h3.
    rewrite (bind_done _ _ _ _ _ Ea3).
    rewrite (bind_done _ _ _ _ _ (get_done _ _ _ "red_flags" (VRef l3) Hres4)).
    change (default (VRef l3) _) with (VRef fl).
    rewrite (bind_done _ _ _ _ _ (iterate_done _ _ _ Hfl4)).
    by rewrite (bind_done _ _ _ _ _ Erun).
  - unfold dict_of_analysis. eapply own_node; [| | |].
    + rewrite Hframe by done. exact Hres4.
    + done.
    + cbn [obj_children tree_children List.map fst snd items'].
      assert (Hag : forall F v t, own h1 v t F -> F ⊆ dom h1 -> r ∉ F -> F ## Ff ->
                                  own h5 v t F).
      { intros F v t Ho Hsub Hn Hdis. eapply own_agree; [done|].
        intros l Hl. apply Hsame5; sets. }
      constructor; [apply Hag; [done|done|done|sets]| |].
      * constructor; [apply Hag; [done|done|done|sets]| |].
        -- constructor; [| |].
           ++ eapply own_node; [rewrite Hframe by done; exact Hfl4|done|exact Oflags|done].
           ++ constructor; [| |].
              ** eapply own_node; [rewrite Hframe; [exact Hrend4|]|done| |sets].
                 { sets. }
                 apply (owns_atoms h5
                          (List.map (fun l => AStr (value l)) (score_levels (risk_score A)))).
              ** constructor; [apply Hag; [done|done|done|sets]| |].
                 --- constructor; [constructor|constructor|sets].
                 --- sets.
              ** sets.
           ++ sets.
        -- sets.
      * sets.
    + sets.
  - split_sets. repeat (apply disjoint_union_l; split); sets.
Qed.


(** X1.  [to_dict] leaves the store it starts from as it is: every object
    that existed before the call is unchanged after it, so the analysis still
    stands for the same value, its risk levels being [RiskLevel] members.
    The mapping it returns is made of new objects only, reached once each,
    and stands for the analysis with every risk level rendered as its
    lowercase string.  (The recursion limit must exceed the depth of the
    analysis.) *)
Theorem to_dict_frame (h : heap) (a : loc) (A : ContractAnalysis) (depth : nat) :
  repr h (VRef a) (tree_of_analysis A) ->
  (tree_depth (tree_of_analysis A) < depth)%nat ->
  exists r h' F,
    to_dict depth (VRef a) h = Done (VRef r) h'
    /\ h ⊆ h'
    /\ repr h' (VRef a) (tree_of_analysis A)
    /\ own h' (VRef r) (dict_of_analysis A) F
    /\ F ## dom h.
Proof. apply to_dict_spec. Qed.

(** C10.  [to_dict] does not mutate the analysis it serializes.  Called on
    a store in which [a] holds the analysis [A] (with a recursion limit above
    the depth of [A]), it returns; every object of the store is afterwards
    what it was before, so [a] still holds [A], the five ratings of its risk
    score and the severity of each red flag being [RiskLevel] members; and
    the mapping returned is a fresh structure, at a location that did not
    exist and made only of objects that did not exist, in which every rating
    and severity is the level's lowercase string. *)
Theorem to_dict_does_not_mutate (h : heap) (a : loc) (A : ContractAnalysis) (depth : nat) :
  repr h (VRef a) (tree_of_analysis A) ->
  (tree_depth (tree_of_analysis A) < depth)%nat ->
  exists r h',
    to_dict depth (VRef a) h = Done (VRef r) h'
    /\ (forall l o, h !! l = Some o -> h' !! l = Some o)
    /\ repr h' (VRef a) (tree_of_analysis A)
    /\ r ∉ dom h
    /\ repr h' (VRef r) (dict_of_analysis A)
    /\ exists F, own h' (VRef r) (dict_of_analysis A) F /\ r ∈ F /\ F ## dom h.
Proof.
  intros Hr Hd.
  destruct (to_dict_spec h a A depth Hr Hd) as (r & h' & F & Hrun & Hsub & Hsame & Hown & Hfresh).
  assert (HrF : r ∈ F).
  { apply own_dict_inv in Hown as (r' & items & Fc & [= <-] & _ & _ & _ & _ & ->).
    set_solver. }
  exists r, h'. split; [done|]. split.
  { intros l o Hl. by eapply lookup_weaken. }
  split; [done|]. split; [set_solver|]. split; [by eapply own_repr|].
  exists F. done.
Qed.

Lemma to_dict_frame_witness :
  exists r h' F,
    to_dict 10 (VRef 1) a_store = Done (VRef r) h'
    /\ a_store ⊆ h'
    /\ own h' (VRef r) (dict_of_analysis an_analysis) F
    /\ F ## dom a_store.
Proof.
  assert (Hd : (tree_depth (tree_of_analysis an_analysis) < 10)%nat)
    by (apply Nat.ltb_lt; reflexivity).
  destruct (to_dict_frame a_store 1 an_analysis 10 a_store_repr Hd)
    as (r & h' & F & H1 & H2 & _ & H4 & H5).
  exists r, h', F. split; [exact H1|]. split; [exact H2|]. split; [exact H4|exact H5].
Defined.

Lemma to_dict_does_not_mutate_witness :
  exists r h',
    to_dict 10 (VRef 1) a_store = Done (VRef r) h'
    /\ (forall l o, a_store !! l = Some o -> h' !! l = Some o)
    /\ repr h' (VRef 1) (tree_of_analysis an_analysis)
    /\ r ∉ dom a_store
    /\ repr h' (VRef r) (dict_of_analysis an_analysis).
Proof.
  assert (Hd : (tree_depth (tree_of_analysis an_analysis) < 10)%nat)
    by (apply Nat.ltb_lt; reflexivity).
  destruct (to_dict_does_not_mutate a_store 1 an_analysis 10 a_store_repr Hd)
    as (r & h' & H1 & H2 & H3 & H4 & H5 & _).
  exists r, h'. split; [exact H1|]. split; [exact H2|]. split; [exact H3|].
  split; [exact H4|exact H5].
Defined.

End StoreFacts.

(** ** More about the normalizer *)

Module NormalizerProps.
Import TextNormalizer NormalForm NormalizerFacts.

Lemma has_double_space_mid p q : has_double_space (p ++ [SP; SP] ++ q) = true.
Proof.
  induction p as [|c p IH]; [reflexivity|].
  change (has_double_space (c :: (p ++ [SP; SP] ++ q)) = true).
  cbn [has_double_space]. rewrite IH. apply orb_true_r.
Qed.

Lemma has_trailing_space_mid p q : has_trailing_space (p ++ [SP; LF] ++ q) = true.
Proof.
  induction p as [|c p IH]; [reflexivity|].
  change (has_trailing_space (c :: (p ++ [SP; LF] ++ q)) = true).
  cbn [has_trailing_space]. rewrite IH. apply orb_true_r.
Qed.

Lemma has_triple_lf_mid p q : has_triple_lf (p ++ [LF; LF; LF] ++ q) = true.
Proof.
  induction p as [|c p IH]; [reflexivity|].
  change (has_triple_lf (c :: (p ++ [LF; LF; LF] ++ q)) = true).
  cbn [has_triple_lf]. rewrite IH. apply orb_true_r.
Qed.

(** Each deleting step yields a subsequence of what it is given. *)
Lemma collapse_spaces_sublist s : sublist (collapse_spaces s) s.
Proof.
  induction s as [|c t IH]; simpl; [done|].
  destruct (eqc c SP && head_is SP t); by constructor.
Qed.

Lemma crlf_to_lf_sublist s : sublist (crlf_to_lf s) s.
Proof.
  induction s as [|c t IH]; simpl; [done|].
  destruct (eqc c CR && head_is LF t); by constructor.
Qed.

Lemma strip_trailing_spaces_sublist s : sublist (strip_trailing_spaces s) s.
Proof.
  induction s as [|c t IH]; simpl; [done|].
  destruct (eqc c SP && spaces_then_lf t); by constructor.
Qed.

Lemma collapse_newlines_sublist s : sublist (collapse_newlines s) s.
Proof.
  induction s as [|c t IH]; [done|]. cbn [collapse_newlines].
  destruct (eqc c LF && head_is LF t && head_is LF (tail t)); by constructor.
Qed.

Lemma filter_sublist {A} (p : A -> bool) (s : list A) : sublist (List.filter p s) s.
Proof.
  induction s as [|c t IH]; simpl; [done|]. destruct (p c); by constructor.
Qed.

Lemma map_sublist (f : N -> N) s t :
  sublist s t -> sublist (List.map f s) (List.map f t).
Proof. induction 1; simpl; by constructor. Qed.

Lemma strip_sublist s : sublist (strip s) s.
Proof.
  destruct (strip_infix s) as (w1 & w2 & E). rewrite E at 2.
  apply sublist_inserts_l, sublist_inserts_r. done.
Qed.

Section WithUnicode.
Context {U : UnicodeData}.

(** X2.  The layout of a normalized text, in every Unicode database: it
    holds no carriage return, no two spaces in a row, no space right before a
    line feed, no three line feeds in a row, neither of the low quotes U+201A
    and U+201E, and no whitespace at either end. *)
Theorem normalize_layout (T : str) :
  let s := normalize T in
  (CR ∉ s) /\ (LOW9 ∉ s) /\ (LOW99 ∉ s)
  /\ (forall p q, s <> p ++ [SP; SP] ++ q)
  /\ (forall p q, s <> p ++ [SP; LF] ++ q)
  /\ (forall p q, s <> p ++ [LF; LF; LF] ++ q)
  /\ strip s = s.
Proof.
  destruct T as [|c0 T0].
  { simpl. repeat split; try (by intros ?%elem_of_nil);
      by intros [|? ?] ? ?. }
  intros s. unfold normalize in s. set (s0 := nfkc (c0 :: T0)) in s.
  set (s5 := collapse_newlines _) in s.
  assert (D : has_double_space s5 = false).
  { apply no_double_space_collapse_newlines, no_double_space_strip_trailing.
    unfold cr_to_lf. rewrite has_double_space_map by apply cr_to_lf_sp.
    apply no_double_space_crlf, no_double_space_collapse. }
  assert (C : Forall no_cr s5).
  { apply Forall_collapse_newlines, Forall_strip_trailing_spaces, no_cr_cr_to_lf. }
  assert (S5 : has_trailing_space s5 = false).
  { apply no_trailing_space_collapse_newlines, no_trailing_space_strip. }
  assert (N5 : has_triple_lf s5 = false) by apply no_triple_lf_collapse.
  set (s6 := fix_quotes s5) in s.
  assert (D6 : has_double_space s6 = false).
  { unfold s6, fix_quotes.
    rewrite (has_double_space_map _ fix_double_sp).
    by rewrite (has_double_space_map _ fix_single_sp). }
  assert (S6 : has_trailing_space s6 = false).
  { unfold s6, fix_quotes.
    rewrite (has_trailing_space_map _ fix_double_sp fix_double_lf).
    by rewrite (has_trailing_space_map _ fix_single_sp fix_single_lf). }
  assert (N6 : has_triple_lf s6 = false).
  { unfold s6, fix_quotes. rewrite (has_triple_lf_map _ fix_double_lf).
    by rewrite (has_triple_lf_map _ fix_single_lf). }
  assert (C6 : Forall no_cr (strip s6)) by by apply Forall_strip, no_cr_fix_quotes.
  assert (Q6 : Forall no_low_quote (strip s6))
    by apply Forall_strip, no_low_quote_fix_quotes.
  destruct (strip_infix s6) as (w1 & w2 & E).
  subst s. repeat split.
  - intros Hin. by apply (proj1 (Forall_forall _ _) C6) in Hin.
  - intros Hin. by apply (proj1 (Forall_forall _ _) Q6) in Hin as [? _].
  - intros Hin. by apply (proj1 (Forall_forall _ _) Q6) in Hin as [_ ?].
  - intros p q Hs.
    assert (has_double_space (strip s6) = false) as Hd
      by (apply (has_double_space_infix w1 _ w2); by rewrite <- E).
    by rewrite Hs, has_double_space_mid in Hd.
  - intros p q Hs.
    assert (has_trailing_space (strip s6) = false) as Hd
      by (apply (has_trailing_space_infix w1 _ w2); by rewrite <- E).
    by rewrite Hs, has_trailing_space_mid in Hd.
  - intros p q Hs.
    assert (has_triple_lf (strip s6) = false) as Hd
      by (apply (has_triple_lf_infix w1 _ w2); by rewrite <- E).
    by rewrite Hs, has_triple_lf_mid in Hd.
  - apply strip_idem.
Qed.

(** X3.  Normalization adds nothing: apart from rewriting each carriage
    return to a line feed and the low quotes to straight ones, its result is a
    subsequence of the NFKC form of the text (so it is never longer). *)
Theorem normalize_only_deletes (T : str) :
  sublist (normalize T) (fix_quotes (cr_to_lf (nfkc T)))
  /\ (length (normalize T) <= length (nfkc T))%nat.
Proof.
  assert (H : T <> [] -> sublist (normalize T) (fix_quotes (cr_to_lf (nfkc T)))).
  { destruct T as [|c0 T0]; [done|]. intros _. unfold normalize.
    etrans; [apply strip_sublist|].
    unfold fix_quotes. do 2 apply map_sublist.
    etrans; [apply collapse_newlines_sublist|].
    etrans; [apply strip_trailing_spaces_sublist|].
    unfold cr_to_lf. apply map_sublist.
    etrans; [apply crlf_to_lf_sublist|].
    etrans; [apply collapse_spaces_sublist|].
    apply filter_sublist. }
  destruct T as [|c0 T0].
  { split; [apply sublist_nil_l|simpl; lia]. }
  split; [by apply H|].
  specialize (H ltac:(done)). apply sublist_length in H.
  unfold fix_quotes, cr_to_lf in H. by rewrite !length_map in H.
Qed.

(** X4.  No control or format character is left: in a Unicode database
    where the two straight quotes are not of category C, every code point of a
    normalized text is outside category C, or is a line feed or a tab. *)
Theorem normalize_no_control (T : str) :
  category_C SQUOTE = false -> category_C DQUOTE = false ->
  Forall (fun c => category_C c = false \/ c = LF \/ c = TAB) (normalize T).
Proof.
  intros Hs Hd.
  destruct (normalize_normal T Hs Hd) as [K _ C _ _ _ _].
  apply Forall_forall. intros c Hc.
  apply (proj1 (Forall_forall _ _) K) in Hc as Hk.
  apply (proj1 (Forall_forall _ _) C) in Hc as Hcr.
  unfold keep in Hk. unfold no_cr in Hcr.
  destruct (category_C c); [right|by left].
  simpl in Hk. unfold eqc in Hk.
  destruct (N.eqb_spec c LF); [by left|].
  destruct (N.eqb_spec c CR); [done|].
  destruct (N.eqb_spec c TAB); [by right|done].
Qed.

End WithUnicode.

Lemma normalize_no_control_witness :
  Forall (fun c => UcdExcerpt.category_C_excerpt c = false \/ c = LF \/ c = TAB)
    (@normalize UcdExcerpt.ucd (py "a" ++ [0; 8203; TAB; CR] ++ py "b")%N).
Proof.
  apply (@normalize_no_control UcdExcerpt.ucd); reflexivity.
Defined.

End NormalizerProps.

(** ** More about the processor *)

Module ProcessorProps.
Import TextNormalizer Processor Fixtures NormalizerFacts ProcessorFacts.

(** *** Blank strings *)

Lemma lstrip_blank s : Forall (fun c => isspace c = true) s <-> lstrip s = [].
Proof.
  induction s as [|c t IH]; simpl; [done|]. split.
  - intros [Hc Ht]%Forall_cons_1. rewrite Hc. by apply IH.
  - destruct (isspace c) eqn:E; [|done]. intros Ht. constructor; [done|by apply IH].
Qed.

Lemma strip_blank s : Forall (fun c => isspace c = true) s <-> strip s = [].
Proof.
  rewrite lstrip_blank. unfold strip. split; [by intros ->|].
  pose proof (lstrip_head s) as Hh.
  destruct (lstrip s) as [|c r]; [done|]. simpl.
  destruct (rstrip r); [by rewrite Hh|done].
Qed.

Lemma nonempty_strip_blank s :
  nonempty (strip s) = false <-> Forall (fun c => isspace c = true) s.
Proof.
  rewrite strip_blank. destruct (strip s); simpl; split; done.
Qed.

Lemma join_head sep p rest : exists w, join sep (p :: rest) = p ++ w.
Proof.
  destruct rest as [|q rest]; simpl; [exists []; by rewrite app_nil_r|by eexists].
Qed.

(** Joined paragraphs of which the first is not blank are not blank. *)
Lemma join_not_blank sep p rest :
  nonempty (strip p) = true -> nonempty (strip (join sep (p :: rest))) = true.
Proof.
  intros Hp. destruct (nonempty (strip (join sep (p :: rest)))) eqn:E; [done|].
  apply nonempty_strip_blank in E. destruct (join_head sep p rest) as [w Hw].
  rewrite Hw in E. apply Forall_app in E as [E _].
  apply nonempty_strip_blank in E. congruence.
Qed.

Lemma str_eqb_eq a b : str_eqb a b = true <-> a = b.
Proof.
  revert b. induction a as [|x a IH]; intros [|y b]; simpl; try done.
  unfold eqc. rewrite andb_true_iff, IH, N.eqb_eq. split; [by intros [-> ->]|].
  by intros [= -> ->].
Qed.

Lemma str_eqb_refl a : str_eqb a a = true.
Proof. by apply str_eqb_eq. Qed.

Lemma str_eqb_neq a b : a <> b -> str_eqb a b = false.
Proof.
  intros H. destruct (str_eqb a b) eqn:E; [|done]. by apply str_eqb_eq in E.
Qed.

(** What follows the last occurrence of a code point holds none. *)
Lemma rfind_last c s :
  match rfind [c] s with
  | Some i => Forall (fun x => x <> c) (drop (S i) s)
  | None => Forall (fun x => x <> c) s
  end.
Proof.
  induction s as [|x t IH]; [by constructor|].
  cbn [rfind]. destruct (rfind [c] t) as [i|]; [done|].
  cbn [startswith]. unfold eqc. destruct (N.eqb_spec c x) as [->|Hne]; simpl.
  - by rewrite drop_0.
  - constructor; [congruence|done].
Qed.

Section WithWorld.
Context {U : UnicodeData}.
Variable path_exists : str -> bool.
Variable path_suffix : str -> str.
Variable pdf_pages : str -> result (list (result str)).
Variable docx_paragraphs : str -> result (list str).
Variable st_size : str -> N.

(** X5.  When the document is read, the DOCX extraction returns exactly
    the paragraphs that are not blank, in order, joined by line feeds; it is
    the empty string only when every paragraph is blank.  (The whitespace
    guard on the joined text never discards a paragraph that was kept.) *)
Theorem extract_from_docx_joins (file_path : str) (paragraphs : list str) :
  docx_paragraphs file_path = Ok paragraphs ->
  _extract_from_docx docx_paragraphs file_path
    = Ok (join [LF] (List.filter (fun p => nonempty (strip p)) paragraphs))
  /\ (_extract_from_docx docx_paragraphs file_path = Ok [] <->
      Forall (fun p => Forall (fun c => isspace c = true) p) paragraphs).
Proof.
  intros Hd. unfold _extract_from_docx. rewrite Hd. simpl.
  set (kept := List.filter _ paragraphs).
  assert (Hk : Forall (fun p => nonempty (strip p) = true) kept).
  { apply List.Forall_forall. intros p Hp. by apply filter_In in Hp as [_ Hp]. }
  assert (Hblank : kept = [] <->
                   Forall (fun p => Forall (fun c => isspace c = true) p) paragraphs).
  { subst kept. clear. induction paragraphs as [|p ps IH]; simpl; [done|].
    destruct (nonempty (strip p)) eqn:E.
    - split; [done|]. intros [Hp _]%Forall_cons_1.
      apply nonempty_strip_blank in Hp. congruence.
    - rewrite IH. split.
      + intros Hps. constructor; [by apply nonempty_strip_blank|done].
      + by intros [_ ?]%Forall_cons_1. }
  destruct kept as [|p rest] eqn:Ek.
  - simpl. split; [done|]. split; [intros _; by apply Hblank|done].
  - apply Forall_cons_1 in Hk as [Hp _].
    rewrite (join_not_blank [LF] p rest Hp). cbv iota. split; [done|].
    split.
    + intros [= Hj]. change (join [LF] (p :: rest) = []) in Hj.
      destruct (join_head [LF] p rest) as [w Hw]. rewrite Hw in Hj. apply app_eq_nil in Hj as [-> _]. done.
    + intros Hb. by apply Hblank in Hb.
Qed.

(** X6.  A processor built by [__init__] accepts exactly the three
    extensions [.pdf], [.docx] and [.doc] (after lower-casing): the first is
    read by the PDF extractor and the other two by the DOCX extractor, the
    text being normalized afterwards exactly when [clean] and the processor's
    flag are both set, and an extractor's failure being passed on as it is.
    Any other extension is refused as unsupported.  The last branch of the
    dispatch is never taken: no call raises "Handler not implemented". *)
Theorem extract_text_dispatch (b clean : bool) (file_path : str) :
  let ext := lower (path_suffix file_path) in
  let run := extract_text path_exists path_suffix pdf_pages docx_paragraphs
               (init b) file_path clean in
  let post (r : result str) :=
    text ← r; Ok (if clean && b then normalize text else text) in
  (path_exists file_path = true -> ext = py ".pdf" ->
     run = post (_extract_from_pdf pdf_pages file_path))
  /\ (path_exists file_path = true -> ext = py ".docx" \/ ext = py ".doc" ->
     run = post (_extract_from_docx docx_paragraphs file_path))
  /\ (path_exists file_path = true ->
      ext <> py ".pdf" -> ext <> py ".docx" -> ext <> py ".doc" ->
      run = Raise (Exn ValueError (py "Unsupported file format: " ++ ext)))
  /\ (forall msg,
        run <> Raise (Exn ValueError (py "Handler not implemented for: " ++ msg))).
Proof.
  intros ext run post. subst run. unfold extract_text, init, mem.
  cbn [supported_formats normalize_text existsb]. fold ext.
  repeat split.
  - intros -> ->. subst post. simpl.
    destruct (_extract_from_pdf _ _); simpl; [by destruct (clean && b)|done].
  - intros -> [-> | ->]; subst post; simpl;
      (destruct (_extract_from_docx _ _); simpl; [by destruct (clean && b)|done]).
  - intros -> H1 H2 H3. simpl.
    by rewrite (str_eqb_neq _ _ H1), (str_eqb_neq _ _ H2), (str_eqb_neq _ _ H3).
  - intros msg. destruct (path_exists file_path); simpl; [|done].
    destruct (str_eqb ext (py ".pdf")) eqn:E1; simpl.
    { unfold _extract_from_pdf, reraise.
      destruct (_ ← pdf_pages file_path; _) ; simpl; [|done].
      by destruct (clean && b). }
    destruct (str_eqb ext (py ".docx")) eqn:E2; simpl.
    { unfold _extract_from_docx, reraise.
      destruct (_ ← docx_paragraphs file_path; _); simpl; [|done].
      by destruct (clean && b). }
    destruct (str_eqb ext (py ".doc")) eqn:E3; simpl.
    { unfold _extract_from_docx, reraise.
      destruct (_ ← docx_paragraphs file_path; _); simpl; [|done].
      by destruct (clean && b). }
    intros [=].
Qed.

(** X7.  [get_file_info] and [extract_text] agree on a path: both raise
    the same [FileNotFoundError] when it does not exist; when it exists the
    information is returned, the extension is the lower-cased suffix, and
    [is_supported] is false exactly when [extract_text] refuses the file as
    an unsupported format.  The file name holds no slash and is the end of
    the path. *)
Theorem get_file_info_agrees (self : ContractProcessor) (file_path : str) (clean : bool) :
  let run := extract_text path_exists path_suffix pdf_pages docx_paragraphs
               self file_path clean in
  let info := get_file_info path_exists path_suffix st_size self file_path in
  (path_exists file_path = false ->
     info = Raise (Exn FileNotFoundError (py "File not found: " ++ file_path))
     /\ run = Raise (Exn FileNotFoundError (py "File not found: " ++ file_path)))
  /\ (path_exists file_path = true ->
      exists i, info = Ok i
        /\ extension i = lower (path_suffix file_path)
        /\ size_bytes i = st_size file_path
        /\ (is_supported i = false <->
            run = Raise (Exn ValueError (py "Unsupported file format: " ++ extension i)))
        /\ Forall (fun c => c <> 47%N) (filename i)
        /\ exists dir, file_path = dir ++ filename i).
Proof.
  intros run info. subst run info. unfold get_file_info, extract_text. split.
  - by intros ->.
  - intros ->. cbn [negb]. eexists. split; [reflexivity|].
    cbn [extension size_bytes is_supported filename].
    split; [done|]. split; [done|]. split; [|split].
    + set (ext := lower (path_suffix file_path)).
      destruct (mem ext (supported_formats self)) eqn:Em; cbn [negb]; [|done].
      split; [done|]. intros H. exfalso. revert H.
      destruct (str_eqb ext (py ".pdf")).
      { unfold _extract_from_pdf, reraise.
        destruct (_ ← pdf_pages file_path; _); simpl; [|done].
        by destruct (clean && normalize_text self). }
      destruct (mem ext [py ".docx"; py ".doc"]).
      { unfold _extract_from_docx, reraise.
        destruct (_ ← docx_paragraphs file_path; _); simpl; [|done].
        by destruct (clean && normalize_text self). }
      simpl. intros [=].
    + unfold basename. pose proof (rfind_last 47%N file_path) as Hl.
      change (py "/") with [47%N]. by destruct (rfind [47%N] file_path).
    + unfold basename. destruct (rfind (py "/") file_path) as [i|].
      * exists (take (S i) file_path). by rewrite take_drop.
      * by exists [].
Qed.

End WithWorld.

Lemma extract_from_docx_joins_witness :
  _extract_from_docx (fun _ => Ok [py "Title"; py "  "; []; py "Body text"; [TAB]])
    (py "c.docx")
  = Ok (py "Title" ++ [LF] ++ py "Body text").
Proof.
  apply (proj1 (extract_from_docx_joins
                  (fun _ => Ok [py "Title"; py "  "; []; py "Body text"; [TAB]])
                  (py "c.docx") _ eq_refl)).
Defined.

Lemma extract_text_dispatch_witness :
  extract_text (U := UcdExcerpt.ucd) (fun _ => true) (fun _ => py ".DOC") three_pages
    (fun _ => Ok [py "Clause  1"; []; py "Clause 2 "]) (init true) (py "c.DOC") true
  = Ok (py "Clause 1" ++ [LF] ++ py "Clause 2").
Proof.
  rewrite (proj1 (proj2 (extract_text_dispatch (U := UcdExcerpt.ucd)
                           (fun _ => true) (fun _ => py ".DOC") three_pages
                           (fun _ => Ok [py "Clause  1"; []; py "Clause 2 "])
                           true true (py "c.DOC"))) eq_refl);
    [reflexivity|by right].
Defined.

Lemma get_file_info_agrees_witness :
  exists i,
    get_file_info (U := UcdExcerpt.ucd) (fun _ => true) (fun _ => py ".TXT")
      (fun _ => 2048%N) (init true) (py "docs/a.b/notes.TXT") = Ok i
    /\ filename i = py "notes.TXT" /\ extension i = py ".txt"
    /\ is_supported i = false.
Proof.
  destruct (proj2 (get_file_info_agrees (U := UcdExcerpt.ucd)
                     (fun _ => true) (fun _ => py ".TXT") three_pages (fun _ => Ok [])
                     (fun _ => 2048%N) (init true) (py "docs/a.b/notes.TXT") true)
              eq_refl) as (i & Hi & _).
  exists i. split; [exact Hi|]. injection Hi as <-. repeat split.
Defined.

(** *** Validation *)

(** X8.  The fields of a validation result are tied together: the text
    is valid exactly when no issue is recorded, and an invalid result records
    exactly one; [has_contract_keywords] is set together with [is_valid], and
    only after the length test has passed; [found_keywords] is there exactly
    on a valid result, and then lists at least two keywords of the fixed
    list, in the order of that list, each once and each occurring in the
    lower-cased text. *)
Theorem validate_contract_text_invariants (U : UnicodeData) (T : str) (min_length : Z) :
  let r := validate_contract_text T min_length in
  has_contract_keywords r = is_valid r
  /\ (is_valid r = true -> length_ok r = true)
  /\ (is_valid r = true <-> issues r = [])
  /\ (is_valid r = false -> length (issues r) = 1%nat)
  /\ (is_valid r = true <-> exists l, found_keywords r = Some l)
  /\ (forall l, found_keywords r = Some l ->
        (2 <= length l)%nat /\ List.NoDup l /\ sublist l contract_keywords
        /\ Forall (fun kw => contains kw (lower T) = true) l).
Proof.
  unfold validate_contract_text.
  destruct (Z.of_nat (length T) <? min_length)%Z; cbn zeta.
  { cbn. split; [done|]. split; [done|]. split; [done|]. split; [done|].
    split; [|done]. split; [done|]. by intros [l Hl]. }
  set (p := fun kw => contains kw (lower T)).
  destruct (length (List.filter p contract_keywords) <? 2)%nat eqn:E.
  { cbn. split; [done|]. split; [done|]. split; [done|]. split; [done|].
    split; [|done]. split; [done|]. by intros [l Hl]. }
  apply Nat.ltb_ge in E.
  cbn [is_valid length_ok has_contract_keywords issues found_keywords].
  split; [done|]. split; [done|]. split; [done|]. split; [done|].
  split; [split; [by eexists|done]|].
  intros l Hl. assert (l = List.filter p contract_keywords) as -> by congruence.
  split; [done|]. split; [|split].
  - apply List.NoDup_filter, contract_keywords_distinct.
  - apply NormalizerProps.filter_sublist.
  - apply List.Forall_forall. intros kw Hkw. by apply filter_In in Hkw as [_ Hkw].
Qed.

Lemma validate_contract_text_invariants_witness :
  found_keywords
    (validate_contract_text (U := UcdExcerpt.ucd)
       (py "The PARTIES hereby sign this Agreement.") 10)
  = Some [py "agreement"; py "parties"; py "hereby"].
Proof.
  destruct (proj1 (proj1 (proj2 (proj2 (proj2 (proj2
              (validate_contract_text_invariants UcdExcerpt.ucd
                 (py "The PARTIES hereby sign this Agreement.") 10)))))) eq_refl)
    as [l Hl].
  rewrite Hl. vm_compute in Hl. symmetry. exact Hl.
Defined.

(** *** Statistics *)

Lemma split_ws_aux_words cur s : Forall (fun w => w <> []) (split_ws_aux cur s).
Proof.
  revert cur. induction s as [|c t IH]; intros cur; simpl.
  - destruct cur as [|x cur]; [constructor|].
    constructor; [|constructor]. simpl. by destruct (rev cur).
  - destruct (isspace c); [|apply IH].
    destruct cur as [|x cur]; [apply IH|].
    constructor; [|apply IH]. simpl. by destruct (rev cur).
Qed.

Lemma split_ws_aux_sum cur s :
  (sum_len (split_ws_aux cur s) <= length cur + length s)%nat.
Proof.
  revert cur. induction s as [|c t IH]; intros cur; simpl.
  - destruct cur as [|x cur]; simpl; [lia|]. rewrite length_app, length_rev. simpl. lia.
  - destruct (isspace c).
    + destruct cur as [|x cur].
      * specialize (IH []). simpl in *. lia.
      * specialize (IH []). cbn [sum_len foldr]. fold (sum_len (split_ws_aux [] t)).
        rewrite length_rev. simpl in *. lia.
    + specialize (IH (c :: cur)). simpl in IH. lia.
Qed.

Lemma words_le_sum ws : Forall (fun w : str => w <> []) ws -> (length ws <= sum_len ws)%nat.
Proof.
  induction 1 as [|w ws Hw Hws IH]; simpl; [lia|].
  destruct w; [done|]. simpl. lia.
Qed.

Lemma split_ws_aux_nil cur s :
  split_ws_aux cur s = [] <-> cur = [] /\ Forall (fun c => isspace c = true) s.
Proof.
  revert cur. induction s as [|c t IH]; intros cur; simpl.
  - destruct cur; split; try done. by intros [? _].
  - destruct (isspace c) eqn:E.
    + destruct cur as [|x cur].
      * rewrite IH. split; [intros [_ ?]; by split; [|constructor]|].
        intros [_ [_ ?]%Forall_cons_1]. done.
      * split; [done|]. by intros [? _].
    + rewrite IH. split; [by intros [? _]|].
      intros [_ [? _]%Forall_cons_1]. congruence.
Qed.

Lemma re_split_stops_aux_Forall (P : N -> Prop) s : forall cur,
  Forall P s -> Forall P cur -> Forall (Forall P) (re_split_stops_aux cur s).
Proof.
  induction s as [|c t IH]; intros cur Hs Hcur.
  - simpl. constructor; [by apply Forall_rev|constructor].
  - apply Forall_cons_1 in Hs as [Hc Ht]. cbn [re_split_stops_aux].
    destruct (is_stop c).
    + destruct t as [|d t'].
      * constructor; [by apply Forall_rev|]. apply IH; [done|constructor].
      * destruct (is_stop d); [by apply IH|].
        constructor; [by apply Forall_rev|]. apply IH; [done|constructor].
    + apply IH; [done|by constructor].
Qed.

(** Pieces that are all blank come from a blank text when the separator is
    the blank line. *)
Lemma split_aux_blank s : forall k cur,
  Forall (fun c => isspace c = true) (take k s) ->
  Forall (Forall (fun c => isspace c = true)) (split_aux [LF; LF] k cur s) ->
  Forall (fun c => isspace c = true) s /\ Forall (fun c => isspace c = true) cur.
Proof.
  induction s as [|c t IH]; intros k cur Hk Hp.
  - simpl in Hp. apply Forall_cons_1 in Hp as [Hp _].
    split; [constructor|]. apply Forall_rev in Hp. by rewrite rev_involutive in Hp.
  - destruct k as [|k].
    + cbn [split_aux] in Hp. destruct (startswith [LF; LF] (c :: t)) eqn:Es.
      * apply Forall_cons_1 in Hp as [Hc Hp].
        cbn [startswith] in Es. unfold eqc in Es.
        destruct (N.eqb_spec LF c) as [<-|]; [|done].
        destruct t as [|d t']; [done|].
        destruct (N.eqb_spec LF d) as [<-|]; [|done].
        destruct (IH 1%nat [] ltac:(by repeat constructor) Hp) as [Ht _].
        split; [by constructor|].
        apply Forall_rev in Hc. by rewrite rev_involutive in Hc.
      * destruct (IH 0%nat (c :: cur) ltac:(constructor) Hp) as [Ht Hc].
        apply Forall_cons_1 in Hc as [Hc Hcur]. split; [by constructor|done].
    + cbn [split_aux] in Hp. simpl in Hk. apply Forall_cons_1 in Hk as [Hc Hk].
      destruct (IH k cur Hk Hp) as [Ht Hcur]. split; [by constructor|done].
Qed.

Lemma filter_nil_Forall {A} (p : A -> bool) l :
  List.filter p l = [] <-> Forall (fun x => p x = false) l.
Proof.
  induction l as [|x l IH]; simpl; [done|]. destruct (p x) eqn:E.
  - split; [done|]. intros [? _]%Forall_cons_1. congruence.
  - rewrite IH. split; [by constructor|by intros [_ ?]%Forall_cons_1].
Qed.

(** X9.  The counts of [get_text_stats] bound one another: there are no
    more words than characters; a text has no word exactly when it is all
    whitespace, and exactly then it has no paragraph, and then it has no
    sentence either.  So an average sentence length that is a quotient has at
    least one word above the line, and an average word length that is a
    quotient divides a total between the number of words and the number of
    characters: it is at least 1. *)
Theorem get_text_stats_bounds (text : str) (st : text_stats) :
  get_text_stats text = Ok st ->
  (words st <= characters st)%nat
  /\ (words st = 0%nat <-> Forall (fun c => isspace c = true) text)
  /\ (paragraphs st = 0%nat <-> words st = 0%nat)
  /\ (words st = 0%nat -> sentences st = 0%nat)
  /\ (forall n d, avg_word_length st = AvgRound1 n d ->
        (1 <= d)%nat /\ (d <= n)%nat /\ (n <= characters st)%nat)
  /\ (forall n d, avg_sentence_length st = AvgRound1 n d -> (1 <= n)%nat /\ (1 <= d)%nat).
Proof.
  unfold get_text_stats.
  set (ws := split_ws text).
  set (ss := List.filter _ (re_split_stops text)).
  set (ps := List.filter _ (split _ text)).
  assert (Hw : Forall (fun w : str => w <> []) ws) by apply split_ws_aux_words.
  assert (Hsum : (sum_len ws <= length text)%nat) by apply (split_ws_aux_sum [] text).
  pose proof (words_le_sum ws Hw) as Hle.
  assert (Hblank : length ws = 0%nat <-> Forall (fun c => isspace c = true) text).
  { rewrite length_zero_iff_nil. unfold ws, split_ws. rewrite split_ws_aux_nil. tauto. }
  assert (Hss : Forall (fun c => isspace c = true) text -> length ss = 0%nat).
  { intros Hb. apply length_zero_iff_nil. apply filter_nil_Forall.
    eapply Forall_impl;
      [apply (re_split_stops_aux_Forall (fun c => isspace c = true) text []);
         [done|constructor]|].
    intros p Hp. by apply nonempty_strip_blank. }
  assert (Hps : length ps = 0%nat <-> Forall (fun c => isspace c = true) text).
  { rewrite length_zero_iff_nil. unfold ps. rewrite filter_nil_Forall. split.
    - intros Hb. apply (split_aux_blank text 0 []); [constructor|].
      eapply Forall_impl; [exact Hb|]. intros p Hp. by apply nonempty_strip_blank.
    - intros Hb.
      eapply Forall_impl;
        [apply (AnalyzerFacts.split_Forall (fun c => isspace c = true) _ _ Hb)|].
      intros p Hp. by apply nonempty_strip_blank. }
  destruct ws as [|w ws'] eqn:Ews; destruct ss as [|s ss'] eqn:Ess; simpl;
    intros [= <-]; cbn [characters words sentences paragraphs avg_word_length
                        avg_sentence_length];
    simpl in Hsum, Hle, Hblank, Hss; repeat split; try done; try lia;
    try tauto; try (intros n d [= <- <-]; simpl; lia);
    try (intros; simplify_eq; simpl; lia).
  all: exfalso; apply proj1 in Hblank; specialize (Hblank eq_refl);
    apply Hss in Hblank; lia.
Qed.

Lemma get_text_stats_bounds_witness :
  exists st, get_text_stats (py "Hi there. Bye!" ++ [LF; LF] ++ py "ok") = Ok st
             /\ (words st <= characters st)%nat.
Proof.
  eexists. split; [reflexivity|].
  apply (proj1 (get_text_stats_bounds (py "Hi there. Bye!" ++ [LF; LF] ++ py "ok") _
                  eq_refl)).
Defined.

End ProcessorProps.

(** ** More about the analyzer *)

Module AnalyzerProps.
Import Analyzer Store Fixtures NormalizerFacts ProcessorProps AnalyzerFacts.

(** *** Risk levels *)

Lemma member_value r : member (value r) _value2member_map_ = Some r.
Proof. by destruct r. Qed.

(** *** Response parsing *)

Lemma find_first c pre rest :
  Forall (fun x => x <> c) pre -> find [c] (pre ++ c :: rest) = Some (length pre).
Proof.
  induction 1 as [|x pre Hx Hpre IH].
  - simpl. unfold eqc. by rewrite N.eqb_refl.
  - change (find [c] ((x :: pre) ++ c :: rest))
      with (if startswith [c] (x :: (pre ++ c :: rest)) then Some 0%nat
            else S <$> find [c] (pre ++ c :: rest)).
    cbn [startswith]. unfold eqc. destruct (N.eqb_spec c x); [by subst|].
    simpl. by rewrite IH.
Qed.

Lemma rfind_absent c s : Forall (fun x => x <> c) s -> rfind [c] s = None.
Proof.
  induction 1 as [|x t Hx Ht IH]; [done|].
  cbn [rfind]. rewrite IH. cbn [startswith]. unfold eqc.
  by destruct (N.eqb_spec c x); [subst|].
Qed.

Lemma rfind_final c pre post :
  Forall (fun x => x <> c) post -> rfind [c] (pre ++ c :: post) = Some (length pre).
Proof.
  intros Hp. induction pre as [|x pre IH].
  - simpl. rewrite (rfind_absent _ _ Hp). cbn [startswith]. unfold eqc.
    by rewrite N.eqb_refl.
  - change (rfind [c] ((x :: pre) ++ c :: post))
      with (match rfind [c] (pre ++ c :: post) with
            | Some i => Some (S i)
            | None => if startswith [c] (x :: pre ++ c :: post) then Some 0%nat else None
            end).
    by rewrite IH.
Qed.

Section WithInterpreter.
Context {Py : Interpreter}.

(** X11.  The recovery step of [_parse_response], told by what the text
    holds rather than by indices: when the direct parse of the prepared text
    raises a decoding error and that text is [pre { mid } post] with no
    opening brace in [pre] and no closing brace in [post], what is parsed
    next is [{ mid }].  Its value is returned; a decoding error raises the
    parse failure, with the first decoding error as context; any other
    exception of that parse (the [ValueError] of an overlong integer literal,
    [RecursionError]) passes through, with the first decoding error as
    context. *)
Theorem parse_text_recovery (text pre mid post : str) (e : exn) :
  text <> [] ->
  strip_fence (strip text) = pre ++ LBRACE ++ mid ++ RBRACE ++ post ->
  Forall (fun c => c <> 123%N) pre -> Forall (fun c => c <> 125%N) post ->
  json_loads (strip_fence (strip text)) = Raise e -> is_decode_error e = true ->
  parse_text text
  = match json_loads (LBRACE ++ mid ++ RBRACE) with
    | Ok data => Ok data
    | Raise e' =>
        if is_decode_error e' then Raise (parse_failed e) else Raise (raised_in e e')
    end.
Proof.
  intros Hne Hts Hpre Hpost Hd Hde. unfold parse_text.
  destruct text as [|c0 text0]; [done|]. cbn [nonempty negb].
  rewrite Hd, Hde, Hts.
  change (pre ++ LBRACE ++ mid ++ RBRACE ++ post)
    with (pre ++ 123%N :: (mid ++ 125%N :: post)).
  change LBRACE with [123%N]. change RBRACE with [125%N].
  rewrite (find_first _ _ _ Hpre).
  assert (Hr : rfind [125%N] (pre ++ 123%N :: (mid ++ 125%N :: post))
               = Some (length pre + S (length mid))%nat).
  { replace (pre ++ 123%N :: (mid ++ 125%N :: post))
      with ((pre ++ 123%N :: mid) ++ 125%N :: post)
      by (by rewrite <- app_assoc).
    rewrite (rfind_final _ _ _ Hpost). by rewrite length_app. }
  rewrite Hr.
  assert (length pre <? length pre + S (length mid) = true)%nat as ->
    by (apply Nat.ltb_lt; lia).
  assert (Hs : slice (length pre) (length pre + S (length mid) + 1)
                 (pre ++ 123%N :: (mid ++ 125%N :: post))
               = [123%N] ++ mid ++ [125%N]).
  { unfold slice. rewrite drop_app_length.
    replace (length pre + S (length mid) + 1 - length pre)%nat
      with (length (123%N :: mid ++ [125%N]))
      by (simpl; rewrite length_app; simpl; lia).
    replace (123%N :: (mid ++ 125%N :: post))
      with ((123%N :: mid ++ [125%N]) ++ post)
      by (simpl; by rewrite <- app_assoc).
    by rewrite take_app_length. }
  by rewrite Hs.
Qed.

(** X12.  A text that is not empty but holds only whitespace is not
    reported as missing output: it is stripped to the empty string, which is
    no JSON, and the parse failure is raised, in the handler of the decoding
    error of the empty document. *)
Theorem parse_text_blank (text : str) :
  text <> [] -> Forall (fun c => isspace c = true) text ->
  parse_text text = Raise (parse_failed (decode_error [])).
Proof.
  intros Hne Hb. unfold parse_text. destruct text as [|c0 text0]; [done|].
  cbn [nonempty negb]. apply strip_blank in Hb. by rewrite Hb.
Qed.

End WithInterpreter.

Lemma parse_text_recovery_witness :
  parse_text (Py := an_interpreter)
    (js "Sure. {'summary': 'ok'} Hope this helps {smile}!")
  = Raise (parse_failed
             (decode_error (Py := an_interpreter)
                (js "Sure. {'summary': 'ok'} Hope this helps {smile}!")))
  /\ parse_text (Py := an_interpreter) (js "Sure. {'summary': 'ok'} Hope this helps!")
     = Ok (PDict [(py "summary", PStr (py "ok"))])
  /\ parse_text (Py := an_interpreter)
       (js "Sure. {'n': " ++ List.repeat 49%N 4301 ++ py "} Hope this helps!")
     = Raise (ExnIn ValueError
                (exn_msg (int_digits_error 4300 4301))
                (decode_error (Py := an_interpreter)
                   (js "Sure. {'n': " ++ List.repeat 49%N 4301 ++ py "} Hope this helps!"))).
Proof.
  split; [|split].
  - apply (parse_text_recovery (Py := an_interpreter) _ (py "Sure. ")
             (js "'summary': 'ok'} Hope this helps {smile") (py "!")
             (decode_error (Py := an_interpreter)
                (js "Sure. {'summary': 'ok'} Hope this helps {smile}!")));
      try reflexivity; try discriminate;
      apply (bool_decide_unpack _); by vm_compute.
  - apply (parse_text_recovery (Py := an_interpreter) _ (py "Sure. ")
             (js "'summary': 'ok'") (py " Hope this helps!")
             (decode_error (Py := an_interpreter)
                (js "Sure. {'summary': 'ok'} Hope this helps!")));
      try reflexivity; try discriminate;
      apply (bool_decide_unpack _); by vm_compute.
  - rewrite (parse_text_recovery (Py := an_interpreter) _ (py "Sure. ")
               (js "'n': " ++ List.repeat 49%N 4301) (py " Hope this helps!")
               (decode_error (Py := an_interpreter)
                  (js "Sure. {'n': " ++ List.repeat 49%N 4301 ++ py "} Hope this helps!")));
      try (vm_compute; reflexivity); try discriminate;
      apply (bool_decide_unpack _); by vm_compute.
Defined.

Lemma parse_text_blank_witness :
  parse_text (Py := an_interpreter) [SP; LF; TAB]
  = Raise (parse_failed (decode_error (Py := an_interpreter) [])).
Proof.
  apply parse_text_blank; [discriminate|].
  apply (bool_decide_unpack _). by vm_compute.
Defined.

(** *** Structuring *)

Section WithUnicode.
Context {U : UnicodeData} {Py : Interpreter}.

Lemma coerce_value d key r :
  dict_lookup (py key) d = Some (PStr (value r)) ->
  lower (value r) = value r ->
  coerce (PDict d) key "medium" = Ok r.
Proof.
  intros Hk Hl. unfold coerce, Analyzer.get, or_else. rewrite Hk.
  cbn [from_option id mbind result_bind truthy].
  assert (nonempty (value r) = true) as -> by (by destruct r).
  cbn [lower_of mbind result_bind]. rewrite Hl, member_value.
  unfold RiskLevel_call. by rewrite member_value.
Qed.

Lemma make_red_flag_mapping (f : RedFlag) :
  lower (value (severity f)) = value (severity f) ->
  make_red_flag (pyval_of_flag f) = Ok f.
Proof.
  intros Hl. unfold pyval_of_flag. rewrite make_red_flag_dict.
  erewrite coerce_value; [|reflexivity|exact Hl]. by destruct f.
Qed.

Lemma collect_red_flags_mapping (fs : list RedFlag) :
  (forall r, lower (value r) = value r) ->
  collect_red_flags (List.map pyval_of_flag fs) = fs.
Proof.
  intros Hl. induction fs as [|f fs IH]; [done|].
  cbn [List.map collect_red_flags]. rewrite make_red_flag_mapping by apply Hl.
  by rewrite IH.
Qed.

(** X13.  The structuring is total on the answers that follow the schema
    loosely: for an object whose [red_flags] is absent or a list and whose
    [risk_score] is absent or an object of which each rating is absent, falsy
    or a string, an analysis is returned.  Its summary, key terms and
    recommendations are the values given (or the empty defaults), its red
    flags are those the loop keeps, never more than there are entries, each
    rating is the level its lower-cased string names and [MEDIUM] otherwise,
    and its processing time is zero. *)
Theorem create_analysis_total (d rd : list (str * pyval)) (entries : list pyval) :
  lower (py "medium") = py "medium" ->
  default (PList []) (dict_lookup (py "red_flags") d) = PList entries ->
  default (PDict []) (dict_lookup (py "risk_score") d) = PDict rd ->
  Forall (fun k => match dict_lookup k rd with
                   | Some v => truthy v = false \/ exists s, v = PStr s
                   | None => True
                   end) score_keys ->
  exists a, _create_analysis_object (PDict d) = Ok a
    /\ summary a = default (PStr []) (dict_lookup (py "summary") d)
    /\ key_terms a = default (PDict []) (dict_lookup (py "key_terms") d)
    /\ recommendations a = default (PList []) (dict_lookup (py "recommendations") d)
    /\ processing_time a = 0%Q
    /\ red_flags a = collect_red_flags entries
    /\ (length (red_flags a) <= length entries)%nat
    /\ Forall2 (fun k r =>
                  match dict_lookup k rd with
                  | Some (PStr (c :: s)) =>
                      r = default MEDIUM (member (lower (c :: s)) _value2member_map_)
                  | _ => r = MEDIUM
                  end) score_keys (score_levels (risk_score a)).
Proof.
  intros Hm Hf Hr Hk.
  destruct (create_analysis_ok d rd entries Hm Hf Hr Hk)
    as (a & Ha & H1 & H2 & H3 & H4 & H5 & H6).
  exists a. do 6 (split; [done|]). split; [|done].
  rewrite H5. apply collect_red_flags_length.
Qed.

(** X14.  What [to_dict] returns is read back by the structuring as the
    analysis it came from: in a Unicode database where lower-casing leaves
    the three level names as they are, the mapping of an analysis gives back
    every field and every risk level, the processing time being reset to
    zero whatever the mapping holds for it.  The mapping read back is the one
    [to_dict] builds, entry for entry, but for the processing time. *)
Theorem create_of_to_dict (a : ContractAnalysis) (seconds : pyval) :
  (forall r, lower (value r) = value r) ->
  _create_analysis_object (pyval_of_analysis a seconds) = Ok (set_processing_time a 0)
  /\ exists items,
       dict_of_analysis a
       = TDict (items ++ [(py "processing_time", TAtom (ASeconds (processing_time a)))])
       /\ tree_of_pyval (pyval_of_analysis a seconds)
          = TDict (items ++ [(py "processing_time", tree_of_pyval seconds)]).
Proof.
  intros Hl. split.
  - unfold _create_analysis_object, pyval_of_analysis, parse_risk_field, Analyzer.get.
    change (dict_lookup (py "red_flags") _)
      with (Some (PList (List.map pyval_of_flag (red_flags a)))).
    change (dict_lookup (py "risk_score") _) with (Some (pyval_of_score (risk_score a))).
    change (dict_lookup (py "summary") _) with (Some (summary a)).
    change (dict_lookup (py "key_terms") _) with (Some (key_terms a)).
    change (dict_lookup (py "recommendations") _) with (Some (recommendations a)).
    cbn [from_option id mbind result_bind Analyzer.iterate].
    rewrite (collect_red_flags_mapping _ Hl).
    unfold pyval_of_score.
    erewrite coerce_value; [|reflexivity|apply Hl]. cbn [mbind result_bind].
    erewrite coerce_value; [|reflexivity|apply Hl]. cbn [mbind result_bind].
    erewrite coerce_value; [|reflexivity|apply Hl]. cbn [mbind result_bind].
    erewrite coerce_value; [|reflexivity|apply Hl]. cbn [mbind result_bind].
    erewrite coerce_value; [|reflexivity|apply Hl]. cbn [mbind result_bind]. by destruct a as [? ? ? [] ? ?].
  - eexists [_; _; _; _; _]. split; [reflexivity|].
    unfold pyval_of_analysis. cbn [tree_of_pyval List.map fst snd app].
    rewrite List.map_map.
    by rewrite (List.map_ext _ dict_of_flag (fun f => eq_refl)).
Qed.

(** The remote service, the clock and the prompt text. *)
Variable create : str -> request -> result response.
Variables start_time end_time : Q.
Variables user_prompt_head user_prompt_tail : str.

(** X15.  An error of the structuring leaves [analyze] as it is, without
    the [RuntimeError] wrapping of the other failures.  So an answer for
    which [_parse_response] returns a value that is not an object makes
    [analyze] raise [AttributeError], and one for which it returns an object
    whose [red_flags] is [null] makes it raise [TypeError]. *)
Theorem analyze_structuring_errors (self : ContractAnalyzer) (contract_text : str)
    (r : response) (data : pyval) :
  let run := analyze create start_time end_time user_prompt_head user_prompt_tail
               self contract_text in
  create (client self)
    (responses_request self _build_system_prompt
       (_build_user_prompt user_prompt_head user_prompt_tail contract_text)) = Ok r ->
  _parse_response r = Ok data ->
  (forall e, _create_analysis_object data = Raise e -> run = Raise e)
  /\ ((forall d, data <> PDict d) -> run = Raise (attribute_error data "get"))
  /\ (forall d, data = PDict d -> dict_lookup (py "red_flags") d = Some PNone ->
        run = Raise (Exn TypeError (py "'NoneType' object is not iterable"))).
Proof.
  intros run Hc Hp. subst run. unfold analyze, _call_gpt. rewrite Hc.
  cbn [reraise mbind result_bind]. rewrite Hp. cbn [mbind result_bind].
  split; [|split].
  - by intros e ->.
  - intros Hn. destruct data; try done. by destruct (Hn d).
  - intros d -> Hf. unfold _create_analysis_object, Analyzer.get.
    by rewrite Hf.
Qed.

End WithUnicode.

Lemma create_analysis_total_witness :
  exists a,
    _create_analysis_object (U := UcdExcerpt.ucd)
      (PDict [(py "summary", PStr (py "ok"));
              (py "risk_score", PDict [(py "fairness", PStr (py "HIGH"));
                                       (py "overall_score", PNone)])]) = Ok a
    /\ score_levels (risk_score a) = [MEDIUM; MEDIUM; HIGH; MEDIUM; MEDIUM].
Proof.
  destruct (create_analysis_total (U := UcdExcerpt.ucd)
              [(py "summary", PStr (py "ok"));
               (py "risk_score", PDict [(py "fairness", PStr (py "HIGH"));
                                        (py "overall_score", PNone)])]
              [(py "fairness", PStr (py "HIGH")); (py "overall_score", PNone)] []
              eq_refl eq_refl eq_refl)
    as (a & Ha & _).
  - unfold score_keys. repeat (apply List.Forall_cons); try apply List.Forall_nil.
    + exact I.
    + exact I.
    + right. by eexists.
    + exact I.
    + by left.
  - exists a. split; [exact Ha|]. by injection Ha as <-.
Defined.

Lemma create_of_to_dict_witness :
  _create_analysis_object (U := UcdExcerpt.ucd)
    (pyval_of_analysis an_analysis (PFloat false 15 (-1)))
  = Ok (set_processing_time an_analysis 0).
Proof.
  apply (create_of_to_dict (U := UcdExcerpt.ucd) an_analysis (PFloat false 15 (-1))).
  by intros [].
Defined.

Lemma analyze_structuring_errors_witness :
  analyze (U := UcdExcerpt.ucd) (Py := an_interpreter)
    (fun _ _ => Ok {| output_text := py "[1, 2]"; output_fallback := []; raw_dump := [] |})
    0 1 [] [] an_analyzer (py "text")
  = Raise (Exn AttributeError (py "'list' object has no attribute 'get'")).
Proof.
  apply (proj1 (proj2 (analyze_structuring_errors (U := UcdExcerpt.ucd)
                         (Py := an_interpreter)
                         (fun _ _ => Ok {| output_text := py "[1, 2]";
                                           output_fallback := []; raw_dump := [] |})
                         0 1 [] [] an_analyzer (py "text") _
                         (PList [PInt 1; PInt 2]) eq_refl eq_refl))).
  by intros d.
Defined.

End AnalyzerProps.

(** ** The response envelope and the page loop *)

Module EnvelopeProps.
Import TextNormalizer Processor Analyzer Fixtures NormalizerFacts ProcessorFacts.

Lemma join_values_strings i texts : join_values i (List.map PStr texts) = Ok texts.
Proof.
  revert i. induction texts as [|t texts IH]; intros i; [done|].
  cbn [List.map join_values]. by rewrite IH.
Qed.

Lemma join_values_other i parts v :
  In v parts -> (forall s, v <> PStr s) -> exists e, join_values i parts = Raise e.
Proof.
  revert i. induction parts as [|p parts IH]; intros i Hin Hv; [done|].
  destruct Hin as [->|Hin].
  - destruct v; try (eexists; reflexivity). by destruct (Hv s).
  - destruct p; try (eexists; reflexivity).
    cbn [join_values]. destruct (IH (i + 1)%N Hin Hv) as [e ->]. by eexists.
Qed.

Lemma flat_map_item_parts_dicts items :
  flat_map item_parts
    (List.filter (fun i => match i with PDict _ => true | _ => false end) items)
  = flat_map item_parts items.
Proof.
  induction items as [|i items IH]; [done|].
  destruct i; cbn [List.filter flat_map item_parts app]; try done. by rewrite IH.
Qed.

(** X16.  The inspection of [response.output] never fails and returns a
    stripped text.  On a list of items it returns the string parts joined by
    line feeds and stripped, when every part is a string; one part that is
    not a string (a [null] text, say) makes the result empty, whatever the
    other parts hold, since the join's [TypeError] is answered with the empty
    string; and the items that are not objects contribute nothing. *)
Theorem aggregate_output_spec (items : list pyval) :
  (forall output, strip (aggregate_output output) = aggregate_output output)
  /\ (forall texts, flat_map item_parts items = List.map PStr texts ->
        aggregate_output (PList items) = strip (join [LF] texts))
  /\ (forall v, In v (flat_map item_parts items) -> (forall s, v <> PStr s) ->
        aggregate_output (PList items) = [])
  /\ aggregate_output
       (PList (List.filter (fun i => match i with PDict _ => true | _ => false end) items))
     = aggregate_output (PList items).
Proof.
  split; [|split; [|split]].
  - intros output. unfold aggregate_output.
    destruct (iterate output) as [its|e]; cbn [mbind result_bind]; [|done].
    destruct (join_values 0 (flat_map item_parts its)) as [parts|e];
      cbn [mbind result_bind]; [|done].
    apply strip_idem.
  - intros texts Ht. unfold aggregate_output. cbn [iterate mbind result_bind].
    by rewrite Ht, join_values_strings.
  - intros v Hin Hv. unfold aggregate_output. cbn [iterate mbind result_bind].
    by destruct (join_values_other 0 _ v Hin Hv) as [e ->].
  - unfold aggregate_output. cbn [iterate mbind result_bind].
    by rewrite flat_map_item_parts_dicts.
Qed.

Lemma aggregate_output_spec_witness :
  aggregate_output
    (PList [PDict [(py "content", PList [PDict [(py "text", PStr (py " {} "))]])];
            PStr (py "x");
            PDict [(py "text", PStr (py "tail "))]])
  = py "{} " ++ [LF] ++ py "tail"
  /\ aggregate_output
       (PList [PDict [(py "content", PList [PDict [(py "text", PStr (py "{}"))];
                                            PDict [(py "text", PNone)]])]])
     = [].
Proof.
  split.
  - apply (proj1 (proj2 (aggregate_output_spec _)) [py " {} "; py "tail "]).
    reflexivity.
  - apply (proj1 (proj2 (proj2 (aggregate_output_spec _))) PNone).
    + right. by left.
    + discriminate.
Defined.

Lemma pdf_loop_app (texts : list str) (rest : list (result str)) (acc : str) :
  pdf_loop (List.map Ok texts ++ rest) acc
  = pdf_loop rest
      (acc ++ concat (List.map (fun t => t ++ [LF]) (List.filter nonempty texts))).
Proof.
  revert acc. induction texts as [|t texts IH]; intros acc; simpl.
  - by rewrite app_nil_r.
  - destruct (nonempty t) eqn:E; simpl.
    + rewrite IH. by rewrite <- !app_assoc.
    + apply IH.
Qed.

Section WithService.
Context {U : UnicodeData} {Py : Interpreter}.
Variable create : str -> request -> result response.
Variables start_time end_time : Q.
Variables user_prompt_head user_prompt_tail : str.

(** X17.  The timeout an analyzer is configured with is never used:
    [__init__] stores it, and neither the client it builds nor the request
    [_call_gpt] sends is given it.  So two analyzers built from the same key
    and model have the same client, send the same request and give the same
    result on every text, whatever their timeouts. *)
Theorem timeout_never_used (api_key model : str) (t1 t2 : Z)
    (a1 a2 : ContractAnalyzer) (contract_text : str) :
  Analyzer.init api_key model t1 = Ok a1 -> Analyzer.init api_key model t2 = Ok a2 ->
  client a1 = client a2
  /\ (forall system_prompt user_prompt,
        responses_request a1 system_prompt user_prompt
        = responses_request a2 system_prompt user_prompt)
  /\ analyze create start_time end_time user_prompt_head user_prompt_tail a1 contract_text
     = analyze create start_time end_time user_prompt_head user_prompt_tail a2
         contract_text.
Proof.
  unfold Analyzer.init. destruct (nonempty api_key); [|done].
  intros [= <-] [= <-]. done.
Qed.

End WithService.

Lemma timeout_never_used_witness :
  analyze (U := UcdExcerpt.ucd) (Py := an_interpreter) answers_prose 0 1 [] []
    {| client := py "sk-test"; model_name := py "gpt-4.1"; timeout_seconds := 60 |}
    (py "text")
  = analyze (U := UcdExcerpt.ucd) (Py := an_interpreter) answers_prose 0 1 [] []
      {| client := py "sk-test"; model_name := py "gpt-4.1"; timeout_seconds := 5 |}
      (py "text").
Proof.
  apply (proj2 (proj2 (timeout_never_used (U := UcdExcerpt.ucd) (Py := an_interpreter)
                         answers_prose 0 1 [] [] (py "sk-test") (py "gpt-4.1") 60 5 _ _
                         (py "text") eq_refl eq_refl))).
Defined.

Section WithWorld.
Variable pdf_pages : str -> result (list (result str)).

(** X18.  One page that cannot be read fails the whole PDF extraction:
    when the pages before it were read and [extract_text] raises on it, the
    text gathered so far is dropped, the pages after it are not read, and
    [Exception] is raised with the page's error as its message and
    context. *)
Theorem extract_from_pdf_page_failure (file_path : str) (texts : list str)
    (e : exn) (rest : list (result str)) :
  pdf_pages file_path = Ok (List.map Ok texts ++ Raise e :: rest) ->
  _extract_from_pdf pdf_pages file_path
  = Raise (ExnIn Exception_ (py "PDF extraction failed: " ++ exn_msg e) e).
Proof.
  intros Hp. unfold _extract_from_pdf. rewrite Hp. cbn [mbind result_bind].
  by rewrite pdf_loop_app.
Qed.

End WithWorld.

Lemma extract_from_pdf_page_failure_witness :
  _extract_from_pdf
    (fun _ => Ok [Ok (py "First page");
                  Raise (Exn (LibraryError "PdfStreamError") (py "Stream has ended"));
                  Ok (py "Third page")])
    (py "c.pdf")
  = Raise (ExnIn Exception_ (py "PDF extraction failed: Stream has ended")
             (Exn (LibraryError "PdfStreamError") (py "Stream has ended"))).
Proof.
  exact (extract_from_pdf_page_failure
           (fun _ => Ok [Ok (py "First page");
                         Raise (Exn (LibraryError "PdfStreamError") (py "Stream has ended"));
                         Ok (py "Third page")])
           (py "c.pdf") [py "First page"]
           (Exn (LibraryError "PdfStreamError") (py "Stream has ended"))
           [Ok (py "Third page")] eq_refl).
Defined.

End EnvelopeProps.
